(** * NodeWrapper: the single-node execution wrapper of the pipeline engine

    A shallow embedding of [nipype/pipeline/node_wrapper.py].  The wrapped
    interface, the operating system and the helpers of
    [nipype.utils.filemanip] are collaborators of the class: they are taken
    as parameters, and every call the node makes to them is recorded in a
    log of events, so that statements such as "the interface is not
    executed" or "the directory is cleaned before staging" are statements
    about that log.  Console output ([print]) is not modelled.

    The collaborators are total functions: the only failures they can
    report are the ones the class itself handles or provokes ([mkdir] and
    the write of the marker file).  An interface whose [run] raises, or a
    helper of [filemanip] that raises, is outside the model. *)

From Stdlib Require Import ZArith Ascii String List Lia.
From stdpp Require Import base option list strings sorting gmap pretty.

Set Warnings "-register-all,-clear-no-such-hyp".

Open Scope Z_scope.
Open Scope string_scope.
Open Scope list_scope.

(** ** Python values *)

(** The values the node stores in and reads from the input and output
    mappings: [None], booleans, integers, strings and lists. *)
Inductive pyval : Type :=
  | VNone
  | VBool (b : bool)
  | VInt (n : Z)
  | VStr (s : string)
  | VList (items : list pyval).

(** [type(v) is type([])] *)
Definition is_list (v : pyval) : bool :=
  match v with VList _ => true | _ => false end.

(** [l.insert(i, x)] for an index [i >= 0]: past the end it appends. *)
Definition py_insert {A} (i : nat) (x : A) (l : list A) : list A :=
  take i l ++ x :: drop i l.

(** [l.pop()]: the last element, [None] standing for [IndexError]. *)
Definition py_pop {A} (l : list A) : option A := last l.

(** ** Bunch: an attribute/item mapping

    A [Bunch] wraps a Python dictionary.  The entries are kept as an
    association list in the dictionary's own iteration order, which is an
    accident of the history of the dictionary: two bunches that bind the
    same names to the same values may list them in different orders. *)
Definition Bunch : Type := list (string * pyval).

Fixpoint bunch_get (k : string) (b : Bunch) : option pyval :=
  match b with
  | [] => None
  | (k', v) :: b' => if String.eqb k' k then Some v else bunch_get k b'
  end.

Fixpoint bunch_set (k : string) (v : pyval) (b : Bunch) : Bunch :=
  match b with
  | [] => [(k, v)]
  | (k', v') :: b' =>
      if String.eqb k' k then (k, v) :: b' else (k', v') :: bunch_set k v b'
  end.

(** [Bunch.update]: bulk assignment of keyword options. *)
Definition bunch_update (opts : list (string * pyval)) (b : Bunch) : Bunch :=
  fold_left (fun acc e => bunch_set e.1 e.2 acc) opts b.

Definition bunch_keys (b : Bunch) : list string := b.*1.

(** A well-formed bunch binds every name once, as a dictionary does. *)
Definition bunch_wf (b : Bunch) : Prop := NoDup (bunch_keys b).

(** ** Records exchanged with the interface *)

(** An entry of [interface.get_input_info()]. *)
Record InputInfo := { key : string; copy : bool }.

(** The runtime record of one execution. *)
Record Runtime := { returncode : Z; stderr : string }.

(** What [interface.run()] returns: its [interface], [runtime] and
    [outputs] attributes.  The interface record is opaque to the node. *)
Record RunResult := {
  r_interface : string;
  r_runtime : Runtime;
  r_outputs : Bunch
}.

(** An attribute of the node's result that is [None], one record, or a
    list of records (fan-out). *)
Inductive slot (A : Type) : Type :=
  | SNone
  | SOne (a : A)
  | SList (l : list A).
Arguments SNone {A}.
Arguments SOne {A} a.
Arguments SList {A} l.

(** [InterfaceResult(interface=..., runtime=..., outputs=...)] *)
Record InterfaceResult := {
  interface : slot string;
  runtime : slot Runtime;
  outputs : Bunch
}.

Definition of_run (r : RunResult) : InterfaceResult :=
  {| interface := SOne (r_interface r);
     runtime := SOne (r_runtime r);
     outputs := r_outputs r |}.

(** ** Exceptions and events *)

Inductive exn : Type :=
  | PyException (msg : string)
  | ValueError (msg : string)
  | StandardError (msg : string)
  | AttributeError (msg : string)
  | KeyError (k : string)
  | IndexError (msg : string)
  | TypeError (msg : string)
  | IOError (msg : string)
  | OSError (msg : string)
  | UnboundLocalError (var : string).

Inductive outcome (A : Type) : Type :=
  | Ok (a : A)
  | Raise (e : exn).
Arguments Ok {A} a.
Arguments Raise {A} e.

(** The calls the node makes to its collaborators. *)
Inductive Event : Type :=
  | EvMkdtemp (root : string)
  | EvMkdir (path : string)
  | EvCleandir (path : string)
  | EvCopyfiles (src dst : pyval) (cp : bool)
  | EvExecute (ins : Bunch)
  | EvAggregate (ins : Bunch)
  | EvWriteMarker (path content : string).

Definition is_execute (e : Event) : bool :=
  match e with EvExecute _ => true | _ => false end.
Definition is_aggregate (e : Event) : bool :=
  match e with EvAggregate _ => true | _ => false end.
Definition is_cleandir (e : Event) : bool :=
  match e with EvCleandir _ => true | _ => false end.
Definition is_copyfiles (e : Event) : bool :=
  match e with EvCopyfiles _ _ _ => true | _ => false end.
Definition is_write_marker (e : Event) : bool :=
  match e with EvWriteMarker _ _ => true | _ => false end.

Definition count_events (p : Event -> bool) (t : list Event) : nat :=
  length (filter (fun e => p e = true) t).

(** ** Collaborators *)

(** The operating system, [hashlib], [repr] and the helpers of
    [nipype.utils.filemanip], over an abstract file system [FS]. *)
Record Externals (FS : Type) := {
  os_path_exists : string -> FS -> bool;
  os_path_abspath : string -> string;
  os_path_join : string -> string -> string;
  os_mkdir : string -> FS -> option FS;          (* [None]: [OSError] *)
  mkdtemp : FS -> string * FS;
  write_text : string -> string -> FS -> option FS; (* [None]: [IOError] *)
  md5_hexdigest : string -> string;
  repr : pyval -> string;
  cleandir : string -> FS -> FS;
  copyfiles : pyval -> pyval -> bool -> FS -> pyval * FS;
  fname_presuffix : pyval -> string -> string;
  filename_to_list : pyval -> pyval;
  list_to_filename : pyval -> pyval
}.
Arguments os_path_exists {FS} _ _ _.
Arguments os_path_abspath {FS} _ _.
Arguments os_path_join {FS} _ _ _.
Arguments os_mkdir {FS} _ _ _.
Arguments mkdtemp {FS} _ _.
Arguments write_text {FS} _ _ _ _.
Arguments md5_hexdigest {FS} _ _.
Arguments repr {FS} _ _.
Arguments cleandir {FS} _ _ _.
Arguments copyfiles {FS} _ _ _ _ _.
Arguments fname_presuffix {FS} _ _ _.
Arguments filename_to_list {FS} _ _.
Arguments list_to_filename {FS} _ _.

(** The wrapped interface object: its class, its mutable [inputs] and its
    three operations.  [i_run] and [i_aggregate_outputs] see the current
    inputs and the file system. *)
Record Interface (FS : Type) := {
  i_class_name : string;
  i_class_module : string;
  i_inputs : Bunch;
  i_get_input_info : list InputInfo;
  i_run : Bunch -> FS -> RunResult * FS;
  i_aggregate_outputs : Bunch -> FS -> Bunch
}.
Arguments i_class_name {FS} _.
Arguments i_class_module {FS} _.
Arguments i_inputs {FS} _.
Arguments i_get_input_info {FS} _.
Arguments i_run {FS} _ _ _.
Arguments i_aggregate_outputs {FS} _ _ _.

Definition with_inputs {FS} (b : Bunch) (i : Interface FS) : Interface FS :=
  {| i_class_name := i_class_name i;
     i_class_module := i_class_module i;
     i_inputs := b;
     i_get_input_info := i_get_input_info i;
     i_run := i_run i;
     i_aggregate_outputs := i_aggregate_outputs i |}.

(** ** The node *)

Record NodeWrapper (FS : Type) := {
  _interface : Interface FS;
  _result : option InterfaceResult;
  iterables : Bunch;
  iterfield : list string;
  parameterization : option pyval;
  disk_based : bool;
  output_directory_base : option string;
  overwrite : option bool;
  name : string
}.
Arguments _interface {FS} _.
Arguments _result {FS} _.
Arguments iterables {FS} _.
Arguments iterfield {FS} _.
Arguments parameterization {FS} _.
Arguments disk_based {FS} _.
Arguments output_directory_base {FS} _.
Arguments overwrite {FS} _.
Arguments name {FS} _.

(** The [inputs] property. *)
Definition inputs {FS} (n : NodeWrapper FS) : Bunch := i_inputs (_interface n).

Definition set_inputs {FS} (b : Bunch) (n : NodeWrapper FS) : NodeWrapper FS :=
  {| _interface := with_inputs b (_interface n);
     _result := _result n;
     iterables := iterables n;
     iterfield := iterfield n;
     parameterization := parameterization n;
     disk_based := disk_based n;
     output_directory_base := output_directory_base n;
     overwrite := overwrite n;
     name := name n |}.

Definition set_result {FS} (r : option InterfaceResult) (n : NodeWrapper FS)
  : NodeWrapper FS :=
  {| _interface := _interface n;
     _result := r;
     iterables := iterables n;
     iterfield := iterfield n;
     parameterization := parameterization n;
     disk_based := disk_based n;
     output_directory_base := output_directory_base n;
     overwrite := overwrite n;
     name := name n |}.

Definition set_output_directory_base {FS} (d : option string)
  (n : NodeWrapper FS) : NodeWrapper FS :=
  {| _interface := _interface n;
     _result := _result n;
     iterables := iterables n;
     iterfield := iterfield n;
     parameterization := parameterization n;
     disk_based := disk_based n;
     output_directory_base := d;
     overwrite := overwrite n;
     name := name n |}.

(** [s.split('.')[-1]]: what follows the last dot. *)
Fixpoint last_component (acc s : string) : string :=
  match s with
  | EmptyString => acc
  | String c s' =>
      if Ascii.eqb c "."%char then last_component EmptyString s'
      else last_component (acc ++ String c EmptyString) s'
  end.

(** [NodeWrapper.__init__] (lines 54-82).  The two checks come first, in
    the order of the source; nothing is asked of [iterfield]. *)
Definition __init__ {FS} (interface : option (Interface FS))
  (iterables : Bunch) (iterfield : list string) (diskbased : bool)
  (base_directory : option string) (overwrite : bool) (name : option string)
  : outcome (NodeWrapper FS) :=
  match interface with
  | None => Raise (PyException "Interface must be provided")
  | Some interface =>
      if negb diskbased && bool_decide (base_directory ≠ None) then
        Raise (ValueError "Setting base_directory requires a disk based interface")
      else
        Ok {| _interface := interface;
              _result := None;
              iterables := iterables;
              iterfield := iterfield;
              parameterization := None;
              disk_based := diskbased;
              output_directory_base :=
                if diskbased then base_directory else None;
              overwrite := if diskbased then Some overwrite else None;
              name :=
                match name with
                | None =>
                    i_class_name interface ++ "." ++
                    last_component EmptyString (i_class_module interface)
                | Some n => n
                end |}
  end.

(** ** Canonical serialization of a bunch *)

Definition entry_le (e1 e2 : string * pyval) : Prop := String.le e1.1 e2.1.

#[global] Instance entry_le_dec : RelDecision entry_le.
Proof. intros e1 e2. unfold entry_le. apply _. Defined.

(** Modelled from the spec: [Bunch.__str__] of [nipype.interfaces.base] is
    missing from the sources.  Section 4.3 asks for "a canonical string
    representation" under which "the same logical inputs must always hash
    identically regardless of invocation order of dictionary entries":
    the entries are listed in the order of their names, each as
    [name=repr(value)]. *)
Definition str_bunch (repr : pyval -> string) (b : Bunch) : string :=
  "Bunch(" ++
  String.concat ", "
    ((fun e => (e.1 ++ "=" ++ repr e.2)%string) <$> merge_sort entry_le b) ++
  ")".

(** ** The monad of a method call

    A method runs in a world made of the node ([self]) and the file
    system; it returns a value or raises, leaves a world behind in both
    cases, and logs the calls it made to the collaborators. *)

Section Model.
Context {FS : Type} (X : Externals FS).

Record World := { self : NodeWrapper FS; disk : FS }.

Record Res (A : Type) := {
  out : outcome A;
  world : World;
  log : list Event
}.
Arguments out {A} _.
Arguments world {A} _.
Arguments log {A} _.

Definition M (A : Type) : Type := World -> Res A.

Definition ret {A} (a : A) : M A :=
  fun w => {| out := Ok a; world := w; log := [] |}.

Definition raise {A} (e : exn) : M A :=
  fun w => {| out := Raise e; world := w; log := [] |}.

Definition bind {A B} (m : M A) (k : A -> M B) : M B :=
  fun w =>
    let r := m w in
    match out r with
    | Ok a =>
        let r' := k a (world r) in
        {| out := out r'; world := world r'; log := log r ++ log r' |}
    | Raise e => {| out := Raise e; world := world r; log := log r |}
    end.

Notation "x <- m ;; k" := (bind m (fun x => k))
  (at level 100, m at next level, right associativity).
Notation "m ;;; k" := (bind m (fun _ => k))
  (at level 100, right associativity).

(** [try: m except: h] with a bare [except]. *)
Definition try_except {A} (m : M A) (h : exn -> M A) : M A :=
  fun w =>
    let r := m w in
    match out r with
    | Ok a => r
    | Raise e =>
        let r' := h e (world r) in
        {| out := out r'; world := world r'; log := log r ++ log r' |}
    end.

Definition get_self : M (NodeWrapper FS) :=
  fun w => {| out := Ok (self w); world := w; log := [] |}.

Definition modify_self (f : NodeWrapper FS -> NodeWrapper FS) : M unit :=
  fun w => {| out := Ok tt;
              world := {| self := f (self w); disk := disk w |};
              log := [] |}.

Definition get_disk : M FS :=
  fun w => {| out := Ok (disk w); world := w; log := [] |}.

Definition put_disk (d : FS) : M unit :=
  fun w => {| out := Ok tt;
              world := {| self := self w; disk := d |};
              log := [] |}.

Definition emit (e : Event) : M unit :=
  fun w => {| out := Ok tt; world := w; log := [e] |}.

(** [for x in l: body(x)] *)
Fixpoint for_each {A} (l : list A) (body : A -> M unit) : M unit :=
  match l with
  | [] => ret tt
  | x :: l' => body x ;;; for_each l' body
  end.

(** [for i, x in enumerate(l): body(i, x)], counting from [i]. *)
Fixpoint for_enumerate {A} (i : nat) (l : list A)
  (body : nat -> A -> M unit) : M unit :=
  match l with
  | [] => ret tt
  | x :: l' => body i x ;;; for_enumerate (S i) l' body
  end.

(** *** Accessors *)

(** [self.inputs[k]] (the [inputs] property, lines 92-94); a name that is
    not bound raises. *)
Definition getitem (k : string) : M pyval :=
  s <- get_self ;;
  match bunch_get k (inputs s) with
  | Some v => ret v
  | None => raise (KeyError k)
  end.

(** [self.inputs[k] = v] *)
Definition setitem (k : string) (v : pyval) : M unit :=
  modify_self (fun n => set_inputs (bunch_set k v (inputs n)) n).

(** What [set_input] may be given: a value, or a callable that produces
    one from the remaining arguments. *)
Inductive input_value : Type :=
  | Literal (v : pyval)
  | Callable (f : list pyval -> Bunch -> pyval).

(** Values of type [pyval] are immutable trees: a deep copy of one is
    the same tree.  Sharing and mutation are treated in [Store]. *)
Definition deepcopy (v : pyval) : pyval := v.

(** [set_input] (lines 96-100) *)
Definition set_input (parameter : string) (val : input_value)
  (args : list pyval) (kwargs : Bunch) : M unit :=
  match val with
  | Callable f => setitem parameter (deepcopy (f args kwargs))
  | Literal v => setitem parameter (deepcopy v)
  end.

(** [get_output] (lines 102-106) *)
Definition get_output (parameter : string) : M pyval :=
  s <- get_self ;;
  match _result s with
  | Some r =>
      match bunch_get parameter (outputs r) with
      | Some v => ret v
      | None => raise (KeyError parameter)
      end
  | None => ret VNone
  end.

(** [update] (lines 220-221) *)
Definition update (opts : list (string * pyval)) : M unit :=
  modify_self (fun n => set_inputs (bunch_update opts (inputs n)) n).

(** [str(self.inputs)] *)
Definition str_inputs (n : NodeWrapper FS) : string :=
  str_bunch (repr X) (inputs n).

(** [hash_inputs] (lines 223-225) *)
Definition hash_inputs : M string :=
  s <- get_self ;;
  ret (md5_hexdigest X (str_inputs s)).

Definition __repr__ : M string :=
  s <- get_self ;; ret (name s).

(** *** Output directory *)

(** [_output_directory] (lines 227-231) *)
Definition _output_directory : M string :=
  s <- get_self ;;
  base <- match output_directory_base s with
          | None =>
              d <- get_disk ;;
              let (root, d') := mkdtemp X d in
              put_disk d' ;;;
              emit (EvMkdtemp root) ;;;
              modify_self (set_output_directory_base (Some root)) ;;;
              ret root
          | Some root => ret root
          end ;;
  ret (os_path_abspath X (os_path_join X base (name s))).

(** [_make_output_dir] (lines 233-240) *)
Definition _make_output_dir (outdir : string) : M string :=
  d <- get_disk ;;
  if os_path_exists X outdir d then
    raise (IOError ("Directory " ++ outdir ++ " exists"))
  else
    match os_mkdir X outdir d with
    | None => raise (OSError outdir)
    | Some d' => put_disk d' ;;; emit (EvMkdir outdir) ;;; ret outdir
    end.

(** *** Calls to the interface *)

(** [self._interface.run()] *)
Definition interface_run : M RunResult :=
  s <- get_self ;;
  d <- get_disk ;;
  let (r, d') := i_run (_interface s) (inputs s) d in
  emit (EvExecute (inputs s)) ;;;
  put_disk d' ;;;
  ret r.

(** [self._interface.aggregate_outputs()] *)
Definition interface_aggregate_outputs : M Bunch :=
  s <- get_self ;;
  d <- get_disk ;;
  emit (EvAggregate (inputs s)) ;;;
  ret (i_aggregate_outputs (_interface s) (inputs s) d).

(** *** Fan-out *)

(** [try: outputs[key].insert(i, val)
    except: outputs[key] = []; outputs[key].insert(i, val)]
    (lines 201-205): the handler runs when the name is not bound yet, and
    also when it is bound to something that has no [insert]. *)
Definition merge_output (i : nat) (outs : Bunch) (e : string * pyval)
  : Bunch :=
  match bunch_get e.1 outs with
  | Some (VList l) => bunch_set e.1 (VList (py_insert i e.2 l)) outs
  | _ => bunch_set e.1 (VList (py_insert i e.2 [])) outs
  end.

(** [self._result.<field>.insert(i, x)] on the two parallel lists. *)
Definition result_insert (i : nat) (r : RunResult) : M unit :=
  s <- get_self ;;
  match _result s with
  | Some res =>
      match interface res, runtime res with
      | SList li, SList lr =>
          modify_self (set_result (Some
            {| interface := SList (py_insert i (r_interface r) li);
               runtime := SList (py_insert i (r_runtime r) lr);
               outputs := outputs res |}))
      | _, _ => raise (AttributeError "insert")
      end
  | None => raise (AttributeError "'NoneType' object has no attribute 'interface'")
  end.

(** [for key, val in outputs.iteritems(): ...] (lines 200-205) *)
Definition result_merge (i : nat) (outs : Bunch) : M unit :=
  s <- get_self ;;
  match _result s with
  | Some res =>
      modify_self (set_result (Some
        {| interface := interface res;
           runtime := runtime res;
           outputs := fold_left (merge_output i) outs (outputs res) |}))
  | None => raise (AttributeError "'NoneType' object has no attribute 'outputs'")
  end.

(** The body of the loop over [enumerate(itervals)] (lines 190-205). *)
Definition fanout_step (execute : bool) (field : string) (i : nat)
  (v : pyval) : M unit :=
  set_input field (Literal v) [] [] ;;;
  outs <- (if execute then
             result <- interface_run ;;
             result_insert i result ;;;
             ret (r_outputs result)
           else interface_aggregate_outputs) ;;
  result_merge i outs.

(** [_run_interface] (lines 181-218) *)
Definition _run_interface (execute : bool) : M unit :=
  s <- get_self ;;
  match iterfield s with
  | [field] =>
      itervals <- getitem field ;;
      let notlist := negb (is_list itervals) in
      let itervals :=
        match itervals with VList l => l | v => [v] end in
      modify_self (set_result (Some
        {| interface := SList []; runtime := SList []; outputs := [] |})) ;;;
      for_enumerate 0 itervals (fanout_step execute field) ;;;
      if notlist then
        match py_pop itervals with
        | Some v => set_input field (Literal v) [] []
        | None => raise (IndexError "pop from empty list")
        end
      else set_input field (Literal (VList itervals)) [] []
  | _ =>
      if execute then
        r <- interface_run ;;
        modify_self (set_result (Some (of_run r)))
      else
        aggouts <- interface_aggregate_outputs ;;
        modify_self (set_result (Some
          {| interface := SNone; runtime := SNone; outputs := aggouts |}))
  end.

(** *** run *)

Definition nl : string := String "010"%char EmptyString.
Definition tab : string := String "009"%char EmptyString.

(** ['_0x%s.txt' % hashvalue] *)
Definition marker_name (hashvalue : string) : string :=
  "_0x" ++ hashvalue ++ ".txt".

(** Truth value of [self.overwrite], which is [None] on a node that is
    not disk based. *)
Definition overwrite_set (n : NodeWrapper FS) : bool :=
  match overwrite n with Some b => b | None => false end.

(** The [try] block at the head of [run] (lines 113-119): the directory
    is resolved and created; when creation raises, the bare [except] goes
    on with the resolved name.  Were the resolution itself to raise, the
    handler would find [outdir] unbound. *)
Definition prepare_outdir : M string :=
  try_except
    (outdir <- _output_directory ;;
     try_except (_make_output_dir outdir) (fun _ => ret outdir))
    (fun _ => raise (UnboundLocalError "outdir")).

(** The copy loop of the execute branch (lines 128-133). *)
Definition stage_inputs (outdir : string) : M unit :=
  s <- get_self ;;
  for_each (i_get_input_info (_interface s)) (fun info =>
    files <- getitem (key info) ;;
    match files with
    | VNone => ret tt
    | _ =>
        let infiles := filename_to_list X files in
        d <- get_disk ;;
        let (newfiles, d') :=
          copyfiles X infiles (VList [VStr outdir]) (copy info) d in
        emit (EvCopyfiles infiles (VList [VStr outdir]) (copy info)) ;;;
        put_disk d' ;;;
        setitem (key info) (list_to_filename X newfiles)
    end).

(** [returncode = 0; for r in runtime: returncode = max(r.returncode,
    returncode)] (lines 138-140) *)
Definition fanout_returncode (rs : list Runtime) : Z :=
  fold_left (fun rc r => Z.max (returncode r) rc) rs 0.

(** What follows [_run_interface(execute=True)] on a disk-based node
    (lines 135-154): the return code is inspected, the marker written or
    the failure raised.  [EvWriteMarker] records that the write was
    attempted; an [IOError] of the write is swallowed, as in the source. *)
Definition check_returncode (hashfile inputstr : string) : M unit :=
  s <- get_self ;;
  match _result s with
  | None =>
      raise (AttributeError "'NoneType' object has no attribute 'runtime'")
  | Some res =>
      rc <- match runtime res with
            | SList rs => ret (fanout_returncode rs)
            | SOne r => ret (returncode r)
            | SNone =>
                raise (AttributeError
                  "'NoneType' object has no attribute 'returncode'")
            end ;;
      if Z.eqb rc 0 then
        d <- get_disk ;;
        emit (EvWriteMarker hashfile inputstr) ;;;
        match write_text X hashfile inputstr d with
        | Some d' => put_disk d'
        | None => ret tt
        end
      else
        let msg : string :=
          ("Could not run " ++ name s ++
           nl ++ "with inputs:" ++ nl ++ str_inputs s)%string in
        match runtime res with
        | SOne r =>
            raise (StandardError
              (msg ++ nl ++ tab ++ "stderr: " ++ stderr r))
        | SList _ =>
            raise (AttributeError
              "'list' object has no attribute 'stderr'")
        | SNone =>
            raise (AttributeError
              "'NoneType' object has no attribute 'stderr'")
        end
  end.

(** The rewrite loop of the skip branch (lines 158-172).  The source
    walks the list it updates in place; position [i] is assigned after
    element [i] was read, so the walk sees the elements the list had on
    entry.  Line 172 assigns to a position of the list the input is
    bound to.  A value of type [pyval] is a tree, so here the assignment
    binds the input to the updated list: this is what is read through
    that input afterwards.  What is read through another holder of the
    same list is beyond trees; [Store.restage_inputs] runs the same loop
    on objects, where the list is updated where it is, and the two
    agree when no other input holds the list of a file input
    ([restage_inputs_agree]). *)
Definition restage_inputs (outdir : string) : M unit :=
  s <- get_self ;;
  for_each (i_get_input_info (_interface s)) (fun info =>
    files <- getitem (key info) ;;
    match files with
    | VNone => ret tt
    | _ =>
        let infiles := match files with VList l => l | f => [f] end in
        for_enumerate 0 infiles (fun i f =>
          let newfile := fname_presuffix X f outdir in
          d <- get_disk ;;
          (if os_path_exists X newfile d then ret tt
           else
             let (_, d') := copyfiles X f (VStr newfile) (copy info) d in
             emit (EvCopyfiles f (VStr newfile) (copy info)) ;;;
             put_disk d') ;;;
          if is_list files then
            cur <- getitem (key info) ;;
            match cur with
            | VList l =>
                if bool_decide (i < length l)%nat then
                  setitem (key info) (VList (<[i := VStr newfile]> l))
                else raise (IndexError "list assignment index out of range")
            | _ => raise (TypeError "object does not support item assignment")
            end
          else setitem (key info) (VStr newfile))
    end).

(** The execute branch (lines 125-154) *)
Definition execute_path (outdir hashfile inputstr : string) : M unit :=
  d <- get_disk ;;
  emit (EvCleandir outdir) ;;;
  put_disk (cleandir X outdir d) ;;;
  stage_inputs outdir ;;;
  _run_interface true ;;;
  check_returncode hashfile inputstr.

(** The skip branch (lines 156-173) *)
Definition skip_path (outdir : string) : M unit :=
  restage_inputs outdir ;;;
  _run_interface false.

(** What [run] has settled when it reaches its [if]: the directory,
    the marker file, the serialized inputs and the branch to take. *)
Record Decision := {
  d_outdir : string;
  d_hashfile : string;
  d_inputstr : string;
  d_execute : bool
}.

(** The head of the disk-based branch of [run] (lines 113-124), up to the
    condition [self.overwrite or not os.path.exists(hashfile)]. *)
Definition decide_run : M Decision :=
  outdir <- prepare_outdir ;;
  setitem "cwd" (VStr outdir) ;;;
  hashvalue <- hash_inputs ;;
  s <- get_self ;;
  let inputstr := str_inputs s in
  let hashfile := os_path_join X outdir (marker_name hashvalue) in
  d <- get_disk ;;
  ret {| d_outdir := outdir;
         d_hashfile := hashfile;
         d_inputstr := inputstr;
         d_execute :=
           overwrite_set s || negb (os_path_exists X hashfile d) |}.

Definition run_disk_based : M unit :=
  dec <- decide_run ;;
  if d_execute dec then
    execute_path (d_outdir dec) (d_hashfile dec) (d_inputstr dec)
  else
    skip_path (d_outdir dec).

(** [run] (lines 108-179) *)
Definition run : M (option InterfaceResult) :=
  s <- get_self ;;
  (if disk_based s then run_disk_based else _run_interface true) ;;;
  s' <- get_self ;;
  ret (_result s').

(** *** run, seen from the call of [_run_interface]

    Each of the three branches of [run] calls [_run_interface] once.
    [before_fanout] is what a branch does before that call and
    [after_fanout] what it does after it; [run_split] below shows that
    [run] is their sequence. *)
Inductive branch : Type :=
  | Direct
  | Executing (dec : Decision)
  | Skipping (dec : Decision).

Definition execute_flag (b : branch) : bool :=
  match b with Skipping _ => false | _ => true end.

Definition before_fanout : M branch :=
  s <- get_self ;;
  if disk_based s then
    dec <- decide_run ;;
    if d_execute dec then
      d <- get_disk ;;
      emit (EvCleandir (d_outdir dec)) ;;;
      put_disk (cleandir X (d_outdir dec) d) ;;;
      stage_inputs (d_outdir dec) ;;;
      ret (Executing dec)
    else
      restage_inputs (d_outdir dec) ;;;
      ret (Skipping dec)
  else ret Direct.

Definition after_fanout (b : branch) : M unit :=
  match b with
  | Executing dec => check_returncode (d_hashfile dec) (d_inputstr dec)
  | _ => ret tt
  end.

End Model.

Arguments World FS : clear implicits.
Arguments Res FS A : clear implicits.
Arguments M FS A : clear implicits.
Arguments out {FS A} _.
Arguments world {FS A} _.
Arguments log {FS A} _.

(** ** Observations used in the statements *)

Section Observations.
Context {FS : Type} (X : Externals FS).

(** The attributes of a node that no method assigns once the node is
    built, and the operations of its interface. *)
Definition static (n : NodeWrapper FS) :=
  (iterfield n, disk_based n, overwrite n, name n,
   i_get_input_info (_interface n), i_run (_interface n),
   i_aggregate_outputs (_interface n)).

Definition same_static : relation (World FS) :=
  fun w w' => static (self w') = static (self w).

(** The directory [run] works in: the node's name under its base
    directory, or under a fresh temporary root. *)
Definition outdir_of (w : World FS) : string :=
  os_path_abspath X
    (os_path_join X
       match output_directory_base (self w) with
       | Some root => root
       | None => (mkdtemp X (disk w)).1
       end
       (name (self w))).

(** The elements [_run_interface] iterates over. *)
Definition itervals_of (v : pyval) : list pyval :=
  match v with VList l => l | _ => [v] end.

(** How many times [_run_interface] calls the interface. *)
Definition fanout_calls (n : NodeWrapper FS) : nat :=
  match iterfield n with
  | [field] =>
      match bunch_get field (inputs n) with
      | Some v => length (itervals_of v)
      | None => 0
      end
  | _ => 1
  end.

(** One pass of the fan-out loop: the inputs the interface saw, what
    [run()] returned (nothing when only aggregating) and the outputs. *)
Record Iteration := {
  it_inputs : Bunch;
  it_run : option RunResult;
  it_outputs : Bunch
}.

(** A pass on the inputs [ins], and the file system it leaves. *)
Definition pass (execute : bool) (i : Interface FS) (ins : Bunch) (d : FS)
  : Iteration * FS :=
  if execute then
    let rd := i_run i ins d in
    ({| it_inputs := ins; it_run := Some rd.1;
        it_outputs := r_outputs rd.1 |}, rd.2)
  else
    ({| it_inputs := ins; it_run := None;
        it_outputs := i_aggregate_outputs i ins d |}, d).

Fixpoint iterations (execute : bool) (i : Interface FS) (field : string)
  (ins : Bunch) (d : FS) (vs : list pyval) : list Iteration :=
  match vs with
  | [] => []
  | v :: vs' =>
      let ins' := bunch_set field v ins in
      let p := pass execute i ins' d in
      p.1 :: iterations execute i field ins' p.2 vs'
  end.

Definition event_of (execute : bool) (it : Iteration) : Event :=
  if execute then EvExecute (it_inputs it) else EvAggregate (it_inputs it).

(** The outputs of the passes [i], [i+1], ... merged into [acc]. *)
Fixpoint merge_all (i : nat) (outs : list Bunch) (acc : Bunch) : Bunch :=
  match outs with
  | [] => acc
  | o :: outs' => merge_all (S i) outs' (fold_left (merge_output i) o acc)
  end.

(** The values a name takes in the passes that produce it, in order. *)
Definition produced (k : string) (outs : list Bunch) : list pyval :=
  omap (bunch_get k) outs.

End Observations.

(** ** Objects and references

    [set_input] stores [deepcopy(val)].  What that buys is only visible
    when values are objects that can be shared and mutated, so here a
    list is a location of a heap and a value is an immediate or a
    reference to a list. *)
Module Store.

Abbreviation loc := positive.

Inductive hval : Type :=
  | HNone
  | HBool (b : bool)
  | HInt (n : Z)
  | HStr (s : string)
  | HRef (l : loc).

Abbreviation heap := (gmap loc (list hval)).

Abbreviation hbunch := (list (string * hval)).

Fixpoint hbunch_get (k : string) (b : hbunch) : option hval :=
  match b with
  | [] => None
  | (k', v) :: b' => if String.eqb k' k then Some v else hbunch_get k b'
  end.

Fixpoint hbunch_set (k : string) (v : hval) (b : hbunch) : hbunch :=
  match b with
  | [] => [(k, v)]
  | (k', v') :: b' =>
      if String.eqb k' k then (k, v) :: b' else (k', v') :: hbunch_set k v b'
  end.

(** The tree of values that [v] denotes in the heap [h], followed
    through at most [fuel] references. *)
Fixpoint reify (fuel : nat) (h : heap) (v : hval) : option pyval :=
  match v with
  | HNone => Some VNone
  | HBool b => Some (VBool b)
  | HInt n => Some (VInt n)
  | HStr s => Some (VStr s)
  | HRef l =>
      match fuel with
      | O => None
      | S f =>
          match h !! l with
          | Some items => VList <$> mapM (reify f h) items
          | None => None
          end
      end
  end.

Fixpoint copy_items (cp : heap -> hval -> option (heap * hval))
  (h : heap) (items : list hval) : option (heap * list hval) :=
  match items with
  | [] => Some (h, [])
  | v :: vs =>
      match cp h v with
      | Some (h1, v') =>
          match copy_items cp h1 vs with
          | Some (h2, vs') => Some (h2, v' :: vs')
          | None => None
          end
      | None => None
      end
  end.

(** [copy.deepcopy]: immediates are returned as they are; a list is
    copied element by element into a list at a fresh location.  The
    copy of a value is a tree of new objects; a value that contains
    itself exhausts the fuel. *)
Fixpoint deepcopy (fuel : nat) (h : heap) (v : hval)
  : option (heap * hval) :=
  match v with
  | HRef l =>
      match fuel with
      | O => None
      | S f =>
          match h !! l with
          | Some items =>
              match copy_items (deepcopy f) h items with
              | Some (h1, items') =>
                  let l' := fresh (dom h1) in
                  Some (<[l' := items']> h1, HRef l')
              | None => None
              end
          | None => None
          end
      end
  | _ => Some (h, v)
  end.

(** A callable may read and change the heap before it returns a value,
    which may well be a reference to an object of the caller. *)
Inductive input_value : Type :=
  | Literal (v : hval)
  | Callable (f : list hval -> hbunch -> heap -> heap * hval).

(** The value handed to [deepcopy], and the heap it is handed in. *)
Definition supplied (val : input_value) (args : list hval)
  (kwargs : hbunch) (h : heap) : heap * hval :=
  match val with
  | Callable f => f args kwargs h
  | Literal v => (h, v)
  end.

(** [NodeWrapper.set_input] on the heap and the input mapping. *)
Definition set_input (fuel : nat) (parameter : string)
  (val : input_value) (args : list hval) (kwargs : hbunch)
  (h : heap) (ins : hbunch) : option (heap * hbunch) :=
  match val with
  | Callable f =>
      let (h1, v) := f args kwargs h in
      match deepcopy fuel h1 v with
      | Some (h2, v') => Some (h2, hbunch_set parameter v' ins)
      | None => None
      end
  | Literal v =>
      match deepcopy fuel h v with
      | Some (h2, v') => Some (h2, hbunch_set parameter v' ins)
      | None => None
      end
  end.

(** [NodeWrapper.update]: the values are stored as they are. *)
Definition update (opts : hbunch) (ins : hbunch) : hbunch :=
  fold_left (fun acc e => hbunch_set e.1 e.2 acc) opts ins.

(** A later mutation by the caller: it may change or create any object
    but those created since the heap had domain [owned]. *)
Definition external_mutation (owned : gset loc) (h h' : heap) : Prop :=
  forall l, l ∈ dom h -> l ∉ owned -> h' !! l = h !! l.

(** *** The rewrite loop of the skip branch, on objects

    Line 164 makes [infiles] the list the input is bound to, not a copy
    of it, and line 172 assigns to a position of that list: every holder
    of the list then reads the new names.  Here the loop runs on the
    heap, so that a list shared by two inputs is one object. *)

Section Restaging.
Context {FS : Type} (X : Externals FS).

(** The inputs of the node as objects, and the file system. *)
Record shared := { objects : heap; bound : hbunch; on_disk : FS }.

(** The value of an object that is not a list. *)
Definition atom (v : hval) : option pyval :=
  match v with
  | HNone => Some VNone
  | HBool b => Some (VBool b)
  | HInt n => Some (VInt n)
  | HStr s => Some (VStr s)
  | HRef _ => None
  end.

(** The body of the loop over [enumerate(infiles)] (lines 166-172).
    The helpers of [filemanip] are handed the value [f] denotes; the
    result is [None] when [f] denotes none within [fuel] references. *)
Definition restage_file (fuel : nat) (outdir : string) (info : InputInfo)
  (files : hval) (i : nat) (f : hval) (s : shared)
  : option (outcome unit * shared * list Event) :=
  match reify fuel (objects s) f with
  | None => None
  | Some fv =>
      let newfile := fname_presuffix X fv outdir in
      let d := on_disk s in
      let d' :=
        if os_path_exists X newfile d then d
        else (copyfiles X fv (VStr newfile) (copy info) d).2 in
      let copies :=
        if os_path_exists X newfile d then []
        else [EvCopyfiles fv (VStr newfile) (copy info)] in
      match files with
      | HRef _ =>
          let s' := {| objects := objects s; bound := bound s;
                       on_disk := d' |} in
          match hbunch_get (key info) (bound s) with
          | Some (HRef l) =>
              match objects s !! l with
              | Some items =>
                  if bool_decide (i < length items)%nat then
                    Some (Ok tt,
                          {| objects :=
                               <[l := <[i := HStr newfile]> items]> (objects s);
                             bound := bound s;
                             on_disk := d' |},
                          copies)
                  else
                    Some (Raise (IndexError
                                   "list assignment index out of range"),
                          s', copies)
              | None => None
              end
          | Some _ =>
              Some (Raise (TypeError
                             "object does not support item assignment"),
                    s', copies)
          | None => Some (Raise (KeyError (key info)), s', copies)
          end
      | _ =>
          Some (Ok tt,
                {| objects := objects s;
                   bound := hbunch_set (key info) (HStr newfile) (bound s);
                   on_disk := d' |},
                copies)
      end
  end.

(** [for i, f in enumerate(infiles)] (line 165), counting from [i].
    Position [i] is assigned after element [i] was read and the length
    never changes, so the walk sees the elements the list had on
    entry. *)
Fixpoint restage_files (fuel : nat) (outdir : string) (info : InputInfo)
  (files : hval) (i : nat) (infiles : list hval) (s : shared)
  : option (outcome unit * shared * list Event) :=
  match infiles with
  | [] => Some (Ok tt, s, [])
  | f :: rest =>
      match restage_file fuel outdir info files i f s with
      | Some (Ok _, s1, t1) =>
          match restage_files fuel outdir info files (S i) rest s1 with
          | Some (o, s2, t2) => Some (o, s2, t1 ++ t2)
          | None => None
          end
      | r => r
      end
  end.

(** The body of the loop over the file inputs (lines 159-172). *)
Definition restage_input (fuel : nat) (outdir : string) (info : InputInfo)
  (s : shared) : option (outcome unit * shared * list Event) :=
  match hbunch_get (key info) (bound s) with
  | None => Some (Raise (KeyError (key info)), s, [])
  | Some HNone => Some (Ok tt, s, [])
  | Some (HRef l) =>
      match objects s !! l with
      | Some items => restage_files fuel outdir info (HRef l) 0 items s
      | None => None
      end
  | Some f => restage_files fuel outdir info f 0 [f] s
  end.

(** The rewrite loop of the skip branch (lines 158-172). *)
Fixpoint restage_inputs (fuel : nat) (outdir : string)
  (infos : list InputInfo) (s : shared)
  : option (outcome unit * shared * list Event) :=
  match infos with
  | [] => Some (Ok tt, s, [])
  | info :: rest =>
      match restage_input fuel outdir info s with
      | Some (Ok _, s1, t1) =>
          match restage_inputs fuel outdir rest s1 with
          | Some (o, s2, t2) => Some (o, s2, t1 ++ t2)
          | None => None
          end
      | r => r
      end
  end.

(** The files the input [k] names: the elements of its list, or the one
    value it is bound to; none when it is [None] or not bound. *)
Definition named_files (s : shared) (k : string) : list pyval :=
  match hbunch_get k (bound s) with
  | Some (HRef l) =>
      match objects s !! l with
      | Some items => omap atom items
      | None => []
      end
  | Some HNone | None => []
  | Some f => omap atom [f]
  end.

(** The input [k] is bound, and to [None], to a value that is not a
    list, or to a list of such values. *)
Definition names_files (s : shared) (k : string) : Prop :=
  match hbunch_get k (bound s) with
  | Some (HRef l) =>
      exists items,
        objects s !! l = Some items /\ Forall (fun v => is_Some (atom v)) items
  | Some _ => True
  | None => False
  end.

(** The list the input [k] is bound to, if it is bound to one. *)
Definition list_of (s : shared) (k : string) : option loc :=
  match hbunch_get k (bound s) with
  | Some (HRef l) => Some l
  | _ => None
  end.

(** What is read through the input [k]. *)
Definition reads (fuel : nat) (s : shared) (k : string) : option pyval :=
  hbunch_get k (bound s) ≫= reify fuel (objects s).

(** What a file input is bound to once the loop has passed: [None] and
    a list stay what they are (the list is the same object), a single
    file is named by its place in [outdir]. *)
Definition rebound (outdir : string) (v : hval) : hval :=
  match v with
  | HNone => HNone
  | HRef l => HRef l
  | HBool b => HStr (fname_presuffix X (VBool b) outdir)
  | HInt n => HStr (fname_presuffix X (VInt n) outdir)
  | HStr f => HStr (fname_presuffix X (VStr f) outdir)
  end.

(** No other input holds the list the input [k] is bound to. *)
Definition unshared (s : shared) (k : string) : Prop :=
  forall k' l, list_of s k = Some l -> list_of s k' = Some l -> k' = k.

(** The values [ins] are what is read through the inputs of [s], name
    by name: [None], files, and lists of files. *)
Definition read_as (s : shared) (ins : Bunch) : Prop :=
  forall k, reads 1 s k = bunch_get k ins.

End Restaging.

Arguments shared FS : clear implicits.
Arguments objects {FS} _.
Arguments bound {FS} _.
Arguments on_disk {FS} _.

End Store.

(** ** A simulated platform

    One implementation of the collaborators, on which the model can be
    run: the file system is a list of paths with their contents, paths
    are joined with a slash, and the digest of a string is the string
    itself. *)
Module Sim.

Definition FS : Type := list (string * string).

Definition exists_ (p : string) (d : FS) : bool :=
  existsb (fun e => String.eqb e.1 p) d.

Definition join (a b : string) : string := a ++ "/" ++ b.

Fixpoint basename_aux (acc s : string) : string :=
  match s with
  | EmptyString => acc
  | String c s' =>
      if Ascii.eqb c "/"%char then basename_aux EmptyString s'
      else basename_aux (acc ++ String c EmptyString) s'
  end.

Definition basename (v : pyval) : string :=
  match v with VStr s => basename_aux EmptyString s | _ => "" end.

Definition to_list (v : pyval) : list pyval :=
  match v with VList l => l | _ => [v] end.

Definition copy_into (dst : pyval) (f : pyval) : string :=
  match dst with
  | VList (VStr dir :: _) => join dir (basename f)
  | VStr p => p
  | _ => basename f
  end.

Definition sim_copyfiles (src dst : pyval) (cp : bool) (d : FS)
  : pyval * FS :=
  let new : list string := map (copy_into dst) (to_list src) in
  (VList (map VStr new), (map (fun p => (p, "data")) new ++ d)%list).

Fixpoint sim_repr (v : pyval) : string :=
  match v with
  | VNone => "None"
  | VBool true => "True"
  | VBool false => "False"
  | VInt n => pretty n
  | VStr s => "'" ++ s ++ "'"
  | VList l => "[" ++ String.concat ", " (map sim_repr l) ++ "]"
  end.

Definition X : Externals FS :=
  {| os_path_exists := exists_;
     os_path_abspath := fun p => p;
     os_path_join := join;
     os_mkdir := fun p d => Some ((p, "") :: d);
     mkdtemp := fun d => ("/tmp/node", ("/tmp/node", "") :: d);
     write_text := fun p c d => Some ((p, c) :: d);
     md5_hexdigest := fun s => s;
     repr := sim_repr;
     cleandir := fun dir d =>
       filter (fun e => String.prefix (dir ++ "/") e.1 = false) d;
     copyfiles := sim_copyfiles;
     fname_presuffix := fun f newpath => join newpath (basename f);
     filename_to_list := fun v => VList (to_list v);
     list_to_filename := fun v =>
       match v with VList [f] => f | _ => v end |}.

(** An interface that fails with the return code bound to [rc] (zero
    when [rc] is not an integer) and outputs its input [x] as [out]. *)
Definition outputs_of (ins : Bunch) : Bunch :=
  match bunch_get "x" ins with
  | Some v => [("out", v)]
  | None => []
  end.

Definition echo : Interface FS :=
  {| i_class_name := "Echo";
     i_class_module := "nipype.interfaces.sim";
     i_inputs := [("x", VNone); ("rc", VInt 0); ("cwd", VNone)];
     i_get_input_info := [];
     i_run := fun ins d =>
       ({| r_interface := "Echo";
           r_runtime :=
             {| returncode :=
                  match bunch_get "rc" ins with
                  | Some (VInt n) => n
                  | _ => 0
                  end;
                stderr := "echo failed" |};
           r_outputs := outputs_of ins |}, d);
     i_aggregate_outputs := fun ins d => outputs_of ins |}.

Definition node_of (i : Interface FS) (iterfield : list string)
  (diskbased : bool) (base : option string) (ow : bool)
  : NodeWrapper FS :=
  match __init__ (Some i) [] iterfield diskbased base ow None with
  | Ok n => n
  | Raise _ =>
      {| _interface := i; _result := None; iterables := [];
         iterfield := iterfield; parameterization := None;
         disk_based := diskbased; output_directory_base := base;
         overwrite := None; name := "" |}
  end.

(** An interface that outputs [out] only for an input [x] that is not
    [None]. *)
Definition sparse_outputs (ins : Bunch) : Bunch :=
  match bunch_get "x" ins with
  | Some VNone => []
  | Some v => [("out", v)]
  | None => []
  end.

Definition sparse : Interface FS :=
  {| i_class_name := "Sparse";
     i_class_module := "nipype.interfaces.sim";
     i_inputs := [("x", VNone); ("cwd", VNone)];
     i_get_input_info := [];
     i_run := fun ins d =>
       ({| r_interface := "Sparse";
           r_runtime := {| returncode := 0; stderr := "" |};
           r_outputs := sparse_outputs ins |}, d);
     i_aggregate_outputs := fun ins d => sparse_outputs ins |}.

(** An interface with one file input, [infile], which it outputs as
    [outfile]. *)
Definition copier_outputs (ins : Bunch) : Bunch :=
  match bunch_get "infile" ins with
  | Some v => [("outfile", v)]
  | None => []
  end.

Definition copier : Interface FS :=
  {| i_class_name := "Copier";
     i_class_module := "nipype.interfaces.sim";
     i_inputs := [("infile", VNone); ("cwd", VNone)];
     i_get_input_info := [{| key := "infile"; copy := true |}];
     i_run := fun ins d =>
       ({| r_interface := "Copier";
           r_runtime := {| returncode := 0; stderr := "" |};
           r_outputs := copier_outputs ins |}, d);
     i_aggregate_outputs := fun ins d => copier_outputs ins |}.

(** A node built by the constructor, its inputs, and an empty disk. *)
Definition world_of (i : Interface FS) (ins : Bunch)
  (iterfield : list string) (diskbased : bool) (base : option string)
  (ow : bool) : World FS :=
  {| self := set_inputs ins (node_of i iterfield diskbased base ow);
     disk := [] |}.

(** A disk-based fan-out over two elements. *)
Definition w_fan : World FS :=
  world_of echo
    [("x", VList [VStr "a"; VStr "b"]); ("rc", VInt 0); ("cwd", VNone)]
    ["x"] true (Some "/base") false.

(** The same over no element, with [overwrite]. *)
Definition w_empty : World FS :=
  world_of echo [("x", VList []); ("rc", VInt 0); ("cwd", VNone)]
    ["x"] true (Some "/base") true.

(** A fan-out over one element that fails with return code 1. *)
Definition w_fail : World FS :=
  world_of echo [("x", VList [VStr "a"]); ("rc", VInt 1); ("cwd", VNone)]
    ["x"] true (Some "/base") false.

(** The same node without iterfield. *)
Definition w_fail_single : World FS :=
  world_of echo [("x", VList [VStr "a"]); ("rc", VInt 1); ("cwd", VNone)]
    [] true (Some "/base") false.

(** A fan-out over one element that is killed by a signal. *)
Definition w_killed : World FS :=
  world_of echo [("x", VList [VStr "a"]); ("rc", VInt (-11)); ("cwd", VNone)]
    ["x"] true (Some "/base") false.

(** A disk-based node whose iterfield is the working directory. *)
Definition w_cwd : World FS :=
  world_of echo
    [("x", VNone); ("rc", VInt 0); ("cwd", VList [VStr "a"; VStr "b"])]
    ["cwd"] true (Some "/base") false.

(** A node that is not disk based, with a scalar iterfield. *)
Definition w_scalar : World FS :=
  world_of echo [("x", VStr "a"); ("rc", VInt 0); ("cwd", VNone)]
    ["x"] false None false.

(** A disk-based node with a file to stage. *)
Definition w_stage : World FS :=
  world_of copier [("infile", VStr "/data/a.nii"); ("cwd", VNone)]
    [] true (Some "/base") false.

(** A fan-out whose first pass produces no output. *)
Definition w_sparse : World FS :=
  world_of sparse [("x", VList [VNone; VStr "b"]); ("cwd", VNone)]
    ["x"] false None false.

End Sim.

(** ** Vocabulary of the statements and of the proofs *)

Section Vocabulary.
Context {FS : Type} (X : Externals FS).
Implicit Types w : World FS.

(** [runs m w o w' l]: started in the world [w], the computation [m]
    ends with the outcome [o] in the world [w'], having logged [l]. *)
Definition runs {A} (m : M FS A) w (o : outcome A) w' (l : list Event)
  : Prop :=
  m w = {| out := o; world := w'; log := l |}.

(** A computation [respects R P] when the world it leaves is related
    by [R] to the world it started in and every event it logs
    satisfies [P]. *)
Definition respects (R : relation (World FS)) (P : Event -> Prop) {A}
  (m : M FS A) : Prop :=
  forall w, R w (world (m w)) /\ Forall P (log (m w)).

Definition is_ok {A} (o : outcome A) : Prop :=
  match o with Ok _ => True | Raise _ => False end.

(** The events of a call to the interface, of the set-up of the
    directory, and of a copy. *)
Definition made_by (execute : bool) (e : Event) : Prop :=
  exists ins, e = if execute then EvExecute ins else EvAggregate ins.

Definition is_setup (e : Event) : Prop :=
  match e with EvMkdtemp _ | EvMkdir _ => True | _ => False end.

Definition is_copy (e : Event) : Prop := is_copyfiles e = true.

(** What a block leaves alone when it only touches the file system and
    the base directory. *)
Definition same_data : relation (World FS) :=
  fun w w' =>
    static (self w') = static (self w) /\
    inputs (self w') = inputs (self w) /\
    _result (self w') = _result (self w).

(** What staging leaves alone: the static attributes and the result. *)
Definition keeps : relation (World FS) :=
  fun w w' =>
    static (self w') = static (self w) /\
    _result (self w') = _result (self w).

(** The return code [run] inspects. *)
Definition result_returncode (res : InterfaceResult) : option Z :=
  match runtime res with
  | SList rs => Some (fanout_returncode rs)
  | SOne r => Some (returncode r)
  | SNone => None
  end.

(** The message of the failure [run] raises. *)
Definition failure_message (n : NodeWrapper FS) (err : string) : string :=
  (("Could not run " ++ name n ++ nl ++ "with inputs:" ++ nl ++
    str_inputs X n) ++ nl ++ tab ++ "stderr: " ++ err)%string.

(** The calls to the interface that [run] is bound to make once staging
    is over: none when staging raised. *)
Definition calls_due (w : World FS) : nat :=
  match out (before_fanout X w) with
  | Ok _ => fanout_calls (self (world (before_fanout X w)))
  | Raise _ => 0
  end.

(** The list a name is bound to in the merged outputs, if any. *)
Definition seq_of (acc : Bunch) (k : string) : list pyval :=
  match bunch_get k acc with Some (VList l) => l | _ => [] end.

(** Before pass [i], every name is bound to a list of at most [i]
    values. *)
Definition acc_ok (i : nat) (acc : Bunch) : Prop :=
  forall k v, bunch_get k acc = Some v ->
    exists l, v = VList l /\ (length l <= i)%nat.

End Vocabulary.

(** Two heaps agree on what was allocated between [h] and [h']. *)
Definition agree_on_new (h h' h'' : Store.heap) : Prop :=
  forall l, l ∈ dom h' -> l ∉ dom h -> h'' !! l = h' !! l.

Definition is_mkdtemp (e : Event) : bool :=
  match e with EvMkdtemp _ => true | _ => false end.
Definition is_mkdir (e : Event) : bool :=
  match e with EvMkdir _ => true | _ => false end.

Section MoreVocabulary.
Context {FS : Type} (X : Externals FS).

(** Any event at all. *)
Definition any_event : Event -> Prop := fun _ => True.

(** The base directory of the node is the same in both worlds. *)
Definition same_base : relation (World FS) :=
  fun w w' =>
    output_directory_base (self w') = output_directory_base (self w).

(** Everything a node is built with, apart from what [run] is there to
    change: the inputs, the result and the base directory. *)
Definition configuration (n : NodeWrapper FS) :=
  (iterables n, iterfield n, parameterization n, disk_based n, overwrite n,
   name n, i_class_name (_interface n), i_class_module (_interface n),
   i_get_input_info (_interface n), i_run (_interface n),
   i_aggregate_outputs (_interface n)).

Definition same_configuration : relation (World FS) :=
  fun w w' => configuration (self w') = configuration (self w).

(** The root the output directory goes under: the base directory, or the
    temporary directory [mkdtemp] is about to make. *)
Definition root_of (w : World FS) : string :=
  match output_directory_base (self w) with
  | Some root => root
  | None => (mkdtemp X (disk w)).1
  end.

(** The world [_output_directory] leaves. *)
Definition settled (w : World FS) : World FS :=
  match output_directory_base (self w) with
  | Some _ => w
  | None =>
      {| self :=
           set_output_directory_base (Some (mkdtemp X (disk w)).1) (self w);
         disk := (mkdtemp X (disk w)).2 |}
  end.

(** The world the [try] block at the head of [run] leaves. *)
Definition prepared (w : World FS) : World FS :=
  let w0 := settled w in
  if os_path_exists X (outdir_of X w) (disk w0) then w0
  else
    match os_mkdir X (outdir_of X w) (disk w0) with
    | Some d' => {| self := self w0; disk := d' |}
    | None => w0
    end.

End MoreVocabulary.

(** [s] has no dot. *)
Fixpoint no_dot (s : string) : bool :=
  match s with
  | EmptyString => true
  | String c s' => negb (Ascii.eqb c "."%char) && no_dot s'
  end.

Section StagingVocabulary.
Context {FS : Type} (X : Externals FS).

(** The body of the copy loop of the execute branch (lines 129-133). *)
Definition stage_body (outdir : string) (info : InputInfo) : M FS unit :=
  bind (getitem (key info)) (fun files =>
    match files with
    | VNone => ret tt
    | _ =>
        let infiles := filename_to_list X files in
        bind get_disk (fun d =>
          let (newfiles, d') :=
            copyfiles X infiles (VList [VStr outdir]) (copy info) d in
          bind (emit (EvCopyfiles infiles (VList [VStr outdir]) (copy info)))
            (fun _ => bind (put_disk d')
               (fun _ => setitem (key info) (list_to_filename X newfiles))))
    end).

(** The body of the loop over the files of one input on the skip branch
    (lines 166-172).  The assignment to position [i] (line 172) binds
    the input to the updated list, as in [restage_inputs];
    [Store.restage_file] is the same body on objects. *)
Definition restage_file (outdir : string) (info : InputInfo) (files : pyval)
  (i : nat) (f : pyval) : M FS unit :=
  let newfile := fname_presuffix X f outdir in
  bind get_disk (fun d =>
    bind (if os_path_exists X newfile d then ret tt
          else
            let (_, d') := copyfiles X f (VStr newfile) (copy info) d in
            bind (emit (EvCopyfiles f (VStr newfile) (copy info)))
              (fun _ => put_disk d'))
      (fun _ =>
         if is_list files then
           bind (getitem (key info)) (fun cur =>
             match cur with
             | VList l =>
                 if bool_decide (i < length l)%nat then
                   setitem (key info) (VList (<[i := VStr newfile]> l))
                 else raise (IndexError "list assignment index out of range")
             | _ => raise (TypeError "object does not support item assignment")
             end)
         else setitem (key info) (VStr newfile))).

(** The body of the rewrite loop of the skip branch (lines 159-172). *)
Definition restage_body (outdir : string) (info : InputInfo) : M FS unit :=
  bind (getitem (key info)) (fun files =>
    match files with
    | VNone => ret tt
    | _ =>
        let infiles := match files with VList l => l | f => [f] end in
        for_enumerate 0 infiles (restage_file outdir info files)
    end).

(** A file input once the skip branch has rewritten it: every file is
    named by its place in the output directory. *)
Definition restaged (outdir : string) (files : pyval) : pyval :=
  match files with
  | VNone => VNone
  | VList l => VList ((fun f => VStr (fname_presuffix X f outdir)) <$> l)
  | f => VStr (fname_presuffix X f outdir)
  end.

(** The copy the execute branch makes for a file input bound in [ins]:
    none when the input is [None]. *)
Definition copy_event_of (outdir : string) (ins : Bunch) (info : InputInfo)
  : option Event :=
  match bunch_get (key info) ins with
  | Some VNone | None => None
  | Some files =>
      Some (EvCopyfiles (filename_to_list X files) (VList [VStr outdir])
              (copy info))
  end.

(** A copy the skip branch may make: a file of one of the inputs
    [infos], to its place in the output directory. *)
Definition restage_copy (outdir : string) (infos : list InputInfo)
  (e : Event) : Prop :=
  exists info f,
    info ∈ infos /\
    e = EvCopyfiles f (VStr (fname_presuffix X f outdir)) (copy info).

(** Every file of the input value [files] is in the output directory. *)
Definition all_staged (outdir : string) (d : FS) (files : pyval) : Prop :=
  match files with
  | VNone => True
  | _ =>
      Forall (fun f => os_path_exists X (fname_presuffix X f outdir) d = true)
        (itervals_of files)
  end.

(** No file input is set, and [cwd] is not one of them: staging has
    nothing to do. *)
Definition nothing_to_stage (n : NodeWrapper FS) : Prop :=
  Forall (fun info =>
            key info ≠ "cwd" /\ bunch_get (key info) (inputs n) = Some VNone)
    (i_get_input_info (_interface n)).

(** The call [e] of the interface, if it is one, was made with [k] bound
    to [v]. *)
Definition sees (k : string) (v : pyval) (e : Event) : Prop :=
  forall ins, e = EvExecute ins \/ e = EvAggregate ins ->
    bunch_get k ins = Some v.

(** The binding of [k] is the same in both worlds. *)
Definition same_binding (k : string) : relation (World FS) :=
  fun w w' =>
    bunch_get k (inputs (self w')) = bunch_get k (inputs (self w)).

End StagingVocabulary.

(** ** More cases on the simulated platform *)

Module Cases.
Import Sim.

(** A disk-based fan-out without base directory. *)
Definition w_temp : World FS :=
  world_of echo
    [("x", VList [VStr "a"; VStr "b"]); ("rc", VInt 0); ("cwd", VNone)]
    ["x"] true None false.

(** A node whose iterfield names an input that is not bound. *)
Definition w_unbound : World FS :=
  world_of echo [("x", VStr "a"); ("rc", VInt 0); ("cwd", VNone)]
    ["y"] false None false.

(** A disk-based node without iterfield whose execution succeeds, and
    the world its first run leaves. *)
Definition w_single : World FS :=
  world_of echo [("x", VStr "a"); ("rc", VInt 0); ("cwd", VNone)]
    [] true (Some "/base") false.

Definition w_cached : World FS := world (run X w_single).

(** A fan-out with two runtimes, one of them negative. *)
Definition two_runtimes : list Runtime :=
  [{| returncode := -11; stderr := "killed" |};
   {| returncode := 2; stderr := "failed" |}].

(** The decision [run] takes in the world [w]. *)
Definition decision_of (w : World FS) : Decision :=
  match out (decide_run X w) with
  | Ok dec => dec
  | Raise _ =>
      {| d_outdir := ""; d_hashfile := ""; d_inputstr := "";
         d_execute := false |}
  end.

(** Two inputs of the copier that hold one and the same list of files,
    none of which is in the output directory yet. *)
Definition s_shared : Store.shared FS :=
  {| Store.objects :=
       {[ 1%positive :=
            [Store.HStr "/data/a.nii"; Store.HStr "/data/b.nii"] ]};
     Store.bound :=
       [("infile", Store.HRef 1); ("other", Store.HRef 1);
        ("cwd", Store.HStr "/base/Copier.sim")];
     Store.on_disk := [("/data/a.nii", "a"); ("/data/b.nii", "b")] |}.

(** A disk-based copier whose declared file input is not bound. *)
Definition w_unstaged : World FS :=
  world_of copier [("cwd", VNone)] [] true (Some "/base") false.

(** A disk-based node that finds a file of an earlier run in its output
    directory, and the world its first run leaves, with such a file put
    back. *)
Definition w_stale : World FS :=
  {| self := self w_single;
     disk := [("/base/Echo.sim/stale.txt", "old")] |}.

Definition w_stale_cached : World FS :=
  {| self := self (world (run X w_stale));
     disk := ("/base/Echo.sim/stale.txt", "old") ::
             disk (world (run X w_stale)) |}.

(** The inputs of [s_shared] as values, on the same file system. *)
Definition w_shared : World FS :=
  {| self :=
       self (world_of copier
               [("infile", VList [VStr "/data/a.nii"; VStr "/data/b.nii"]);
                ("other", VList [VStr "/data/a.nii"; VStr "/data/b.nii"]);
                ("cwd", VStr "/base/Copier.sim")]
               [] true (Some "/base") false);
     disk := [("/data/a.nii", "a"); ("/data/b.nii", "b")] |}.

End Cases.

(** * Properties *)

(** ** Bunches *)

Section BunchFacts.
Implicit Types (k : string) (v : pyval) (b : Bunch).

Lemma bunch_get_set_eq k v b : bunch_get k (bunch_set k v b) = Some v.
Proof.
  induction b as [|[k' v'] b IH]; simpl.
  - by rewrite String.eqb_refl.
  - destruct (String.eqb k' k) eqn:E; simpl.
    + by rewrite String.eqb_refl.
    + by rewrite E.
Qed.

Lemma bunch_get_set_ne k k' v b :
  k ≠ k' -> bunch_get k' (bunch_set k v b) = bunch_get k' b.
Proof.
  intros Hne. induction b as [|[k0 v0] b IH]; simpl.
  - destruct (String.eqb k k') eqn:E; [|done].
    by apply String.eqb_eq in E.
  - destruct (String.eqb k0 k) eqn:E; simpl.
    + apply String.eqb_eq in E as ->.
      destruct (String.eqb k k') eqn:E'; [|done].
      by apply String.eqb_eq in E'.
    + by rewrite IH.
Qed.

Lemma bunch_set_same k v b : bunch_get k b = Some v -> bunch_set k v b = b.
Proof.
  induction b as [|[k' v'] b IH]; simpl; [done|].
  destruct (String.eqb k' k) eqn:E.
  - apply String.eqb_eq in E. subst k'. intros [= ->]. done.
  - intros H. by rewrite IH.
Qed.

Lemma bunch_set_set k v v' b :
  bunch_set k v (bunch_set k v' b) = bunch_set k v b.
Proof.
  induction b as [|[k0 v0] b IH]; simpl.
  - by rewrite String.eqb_refl.
  - destruct (String.eqb k0 k) eqn:E; simpl.
    + by rewrite String.eqb_refl.
    + by rewrite E, IH.
Qed.

Lemma bunch_get_None k b : bunch_get k b = None <-> k ∉ bunch_keys b.
Proof.
  unfold bunch_keys. induction b as [|[k' v'] b IH]; simpl.
  - split; [intros _; apply not_elem_of_nil|done].
  - rewrite not_elem_of_cons. destruct (String.eqb k' k) eqn:E.
    + apply String.eqb_eq in E. subst k'. split; [done|]. by intros [? _].
    + apply String.eqb_neq in E. rewrite IH. naive_solver.
Qed.

Lemma bunch_get_Some_elem k v b : bunch_get k b = Some v -> (k, v) ∈ b.
Proof.
  induction b as [|[k' v'] b IH]; simpl; [done|].
  destruct (String.eqb k' k) eqn:E.
  - apply String.eqb_eq in E as ->. intros [= ->]. left.
  - intros H. right. auto.
Qed.

Lemma bunch_elem_get k v b : bunch_wf b -> (k, v) ∈ b -> bunch_get k b = Some v.
Proof.
  unfold bunch_wf, bunch_keys.
  induction b as [|[k' v'] b IH]; simpl; intros Hwf Hin.
  - by apply elem_of_nil in Hin.
  - apply NoDup_cons in Hwf as [Hk Hwf].
    apply elem_of_cons in Hin as [[= -> ->]|Hin].
    + by rewrite String.eqb_refl.
    + destruct (String.eqb k' k) eqn:E; [|auto].
      apply String.eqb_eq in E as ->. destruct Hk.
      apply list_elem_of_fmap. by exists (k, v).
Qed.

Lemma bunch_keys_set k v b :
  bunch_keys (bunch_set k v b) =
  if bool_decide (k ∈ bunch_keys b) then bunch_keys b
  else bunch_keys b ++ [k].
Proof.
  unfold bunch_keys. induction b as [|[k' v'] b IH].
  - cbn. case_bool_decide as D; [by apply elem_of_nil in D|done].
  - cbn [bunch_set]. destruct (String.eqb k' k) eqn:E.
    + apply String.eqb_eq in E. subst k'. cbn. clear IH.
      case_bool_decide as D; [done|]. set_solver.
    + apply String.eqb_neq in E. rewrite !fmap_cons. rewrite IH. cbn.
      repeat case_bool_decide; try done.
      * set_solver.
      * set_solver.
Qed.

Lemma bunch_wf_set k v b : bunch_wf b -> bunch_wf (bunch_set k v b).
Proof.
  unfold bunch_wf. rewrite bunch_keys_set. intros Hwf.
  case_bool_decide; [done|].
  apply NoDup_app. split_and!; [done| |apply NoDup_singleton].
  intros x Hx Hx'. apply list_elem_of_singleton in Hx' as ->. done.
Qed.

End BunchFacts.

(** ** The monad: projections of a bind, and a small program logic *)

Section Laws.
Context {FS : Type}.
Implicit Types w : World FS.

Lemma out_bind {A B} (m : M FS A) (k : A -> M FS B) w :
  out (bind m k w) =
  match out (m w) with
  | Ok a => out (k a (world (m w)))
  | Raise e => Raise e
  end.
Proof. unfold bind. by destruct (out (m w)). Qed.

Lemma world_bind {A B} (m : M FS A) (k : A -> M FS B) w :
  world (bind m k w) =
  match out (m w) with
  | Ok a => world (k a (world (m w)))
  | Raise e => world (m w)
  end.
Proof. unfold bind. by destruct (out (m w)). Qed.

Lemma log_bind {A B} (m : M FS A) (k : A -> M FS B) w :
  log (bind m k w) =
  log (m w) ++
  match out (m w) with
  | Ok a => log (k a (world (m w)))
  | Raise e => []
  end.
Proof.
  unfold bind. destruct (out (m w)); simpl; [done|].
  by rewrite app_nil_r.
Qed.

Section Triple.
Variable R : relation (World FS).
Context `{!PreOrder R}.
Variable P : Event -> Prop.

Lemma respects_ret {A} (a : A) : respects R P (ret a).
Proof. intros w. simpl. split; [reflexivity|constructor]. Qed.

Lemma respects_raise {A} (e : exn) : respects R P (raise (A:=A) e).
Proof. intros w. simpl. split; [reflexivity|constructor]. Qed.

Lemma respects_get_self : respects R P get_self.
Proof. intros w. simpl. split; [reflexivity|constructor]. Qed.

Lemma respects_get_disk : respects R P get_disk.
Proof. intros w. simpl. split; [reflexivity|constructor]. Qed.

Lemma respects_emit e : P e -> respects R P (emit e).
Proof.
  intros He w. simpl. split; [reflexivity|]. by repeat constructor.
Qed.

Lemma respects_modify_self f :
  (forall w, R w {| self := f (self w); disk := disk w |}) ->
  respects R P (modify_self f).
Proof. intros Hf w. simpl. split; [apply Hf|constructor]. Qed.

Lemma respects_put_disk d :
  (forall w, R w {| self := self w; disk := d |}) ->
  respects R P (put_disk d).
Proof. intros Hd w. simpl. split; [apply Hd|constructor]. Qed.

Lemma respects_bind {A B} (m : M FS A) (k : A -> M FS B) :
  respects R P m -> (forall a, respects R P (k a)) -> respects R P (bind m k).
Proof.
  intros Hm Hk w. destruct (Hm w) as [HR HP].
  rewrite world_bind, log_bind. destruct (out (m w)) as [a|e].
  - destruct (Hk a (world (m w))) as [HR' HP']. split.
    + by etrans.
    + by apply Forall_app.
  - split; [done|]. by rewrite app_nil_r.
Qed.

Lemma respects_try_except {A} (m : M FS A) (h : exn -> M FS A) :
  respects R P m -> (forall e, respects R P (h e)) -> respects R P (try_except m h).
Proof.
  intros Hm Hh w. destruct (Hm w) as [HR HP]. unfold try_except.
  destruct (out (m w)) as [a|e]; [done|]. simpl.
  destruct (Hh e (world (m w))) as [HR' HP']. split.
  - by etrans.
  - by apply Forall_app.
Qed.

Lemma respects_for_each {A} (l : list A) (body : A -> M FS unit) :
  (forall x, respects R P (body x)) -> respects R P (for_each l body).
Proof.
  intros Hb. induction l as [|x l IH]; simpl.
  - apply respects_ret.
  - apply respects_bind; auto.
Qed.

Lemma respects_for_enumerate {A} i (l : list A)
  (body : nat -> A -> M FS unit) :
  (forall j x, respects R P (body j x)) -> respects R P (for_enumerate i l body).
Proof.
  intros Hb. revert i. induction l as [|x l IH]; intros i; simpl.
  - apply respects_ret.
  - apply respects_bind; auto.
Qed.

Lemma respects_if {A} (c : bool) (m1 m2 : M FS A) :
  respects R P m1 -> respects R P m2 -> respects R P (if c then m1 else m2).
Proof. by destruct c. Qed.

End Triple.

End Laws.

(** ** Runs *)

Section Runs.
Context {FS : Type}.
Implicit Types w : World FS.

Lemma runs_intro {A} (m : M FS A) w :
  runs m w (out (m w)) (world (m w)) (log (m w)).
Proof. unfold runs. by destruct (m w). Qed.

Lemma runs_out {A} (m : M FS A) w o w' l : runs m w o w' l -> out (m w) = o.
Proof. unfold runs. by intros ->. Qed.

Lemma runs_world {A} (m : M FS A) w o w' l :
  runs m w o w' l -> world (m w) = w'.
Proof. unfold runs. by intros ->. Qed.

Lemma runs_log {A} (m : M FS A) w o w' l : runs m w o w' l -> log (m w) = l.
Proof. unfold runs. by intros ->. Qed.

Lemma runs_det {A} (m : M FS A) w o1 w1 l1 o2 w2 l2 :
  runs m w o1 w1 l1 -> runs m w o2 w2 l2 -> o1 = o2 /\ w1 = w2 /\ l1 = l2.
Proof. unfold runs. intros -> [= -> -> ->]. done. Qed.

Lemma runs_ret {A} (a : A) w : runs (ret a) w (Ok a) w [].
Proof. done. Qed.

Lemma runs_raise {A} (e : exn) w : runs (raise (A:=A) e) w (Raise e) w [].
Proof. done. Qed.

Lemma runs_get_self w : runs get_self w (Ok (self w)) w [].
Proof. done. Qed.

Lemma runs_get_disk w : runs get_disk w (Ok (disk w)) w [].
Proof. done. Qed.

Lemma runs_modify_self f w :
  runs (modify_self f) w (Ok tt) {| self := f (self w); disk := disk w |} [].
Proof. done. Qed.

Lemma runs_put_disk d w :
  runs (put_disk d) w (Ok tt) {| self := self w; disk := d |} [].
Proof. done. Qed.

Lemma runs_emit e w : runs (emit e) w (Ok tt) w [e].
Proof. done. Qed.

Lemma runs_bind {A B} (m : M FS A) (k : A -> M FS B) w a w1 l1 o w2 l2 l :
  runs m w (Ok a) w1 l1 ->
  runs (k a) w1 o w2 l2 ->
  l1 ++ l2 = l ->
  runs (bind m k) w o w2 l.
Proof.
  unfold runs, bind. intros -> Hk <-. cbn [out world log]. by rewrite Hk.
Qed.

Lemma runs_seq {A B} (m : M FS A) (k : A -> M FS B) w a w1 l1 o w2 l2 :
  runs m w (Ok a) w1 l1 ->
  runs (k a) w1 o w2 l2 ->
  runs (bind m k) w o w2 (l1 ++ l2).
Proof. intros Hm Hk. by eapply runs_bind. Qed.

Lemma runs_conv {A} (m : M FS A) w o w' l l' :
  runs m w o w' l' -> l' = l -> runs m w o w' l.
Proof. by intros H <-. Qed.

Lemma runs_bind_raise {A B} (m : M FS A) (k : A -> M FS B) w e w1 l1 :
  runs m w (Raise e) w1 l1 ->
  runs (bind m k) w (Raise e) w1 l1.
Proof. unfold runs, bind. by intros ->. Qed.

Lemma runs_bind_inv {A B} (m : M FS A) (k : A -> M FS B) w o w2 l :
  runs (bind m k) w o w2 l ->
  (exists a w1 l1 l2,
      runs m w (Ok a) w1 l1 /\ runs (k a) w1 o w2 l2 /\ l = l1 ++ l2) \/
  (exists e, runs m w (Raise e) w2 l /\ o = Raise e).
Proof.
  intros H. pose proof (runs_intro m w) as Hm.
  destruct (out (m w)) as [a|e] eqn:E.
  - left. pose proof (runs_intro (k a) (world (m w))) as Hk.
    pose proof (runs_bind _ _ _ _ _ _ _ _ _ _ Hm Hk eq_refl) as H'.
    destruct (runs_det _ _ _ _ _ _ _ _ H H') as (-> & -> & ->).
    by exists a, (world (m w)), (log (m w)), (log (k a (world (m w)))).
  - right. exists e.
    pose proof (runs_bind_raise _ k _ _ _ _ Hm) as H'.
    destruct (runs_det _ _ _ _ _ _ _ _ H H') as (-> & -> & ->). done.
Qed.

Lemma runs_try_ok {A} (m : M FS A) (h : exn -> M FS A) w a w1 l1 :
  runs m w (Ok a) w1 l1 -> runs (try_except m h) w (Ok a) w1 l1.
Proof. unfold runs, try_except. by intros ->. Qed.

Lemma runs_try_raise {A} (m : M FS A) (h : exn -> M FS A)
  w e w1 l1 o w2 l2 l :
  runs m w (Raise e) w1 l1 ->
  runs (h e) w1 o w2 l2 ->
  l1 ++ l2 = l ->
  runs (try_except m h) w o w2 l.
Proof.
  unfold runs, try_except. intros -> Hh <-. cbn [out world log].
  by rewrite Hh.
Qed.

(** A computation whose run is known respects what that run shows. *)
Lemma respects_runs {A} R P (m : M FS A) :
  (forall w, exists o w' l, runs m w o w' l /\ R w w' /\ Forall P l) ->
  respects R P m.
Proof.
  intros H w. destruct (H w) as (o & w' & l & Hr & HR & HP).
  unfold runs in Hr. by rewrite Hr.
Qed.

End Runs.

(** Symbolic execution: [run_start] leaves the log to be found, the steps
    run the head of a sequence, and the log found is compared at the
    end. *)
Ltac run_start := eapply runs_conv; [|].
Ltac run_prim :=
  first
    [ apply runs_ret | apply runs_raise | apply runs_get_self
    | apply runs_get_disk | apply runs_modify_self | apply runs_put_disk
    | apply runs_emit ].
Tactic Notation "run_head" uconstr(lem) :=
  eapply runs_seq; [eapply lem|]; cbn beta.
Ltac run_step := eapply runs_seq; [run_prim|]; cbn beta.

(** [apply] for the lemmas of [respects], which ask for the preorder. *)
Tactic Notation "rapply" uconstr(l) := (apply l; try (apply _)).

(** ** The fan-out executor *)

Section FanOut.
Context {FS : Type}.
Implicit Types (w : World FS) (n : NodeWrapper FS).

#[global] Instance same_static_preorder : PreOrder (@same_static FS).
Proof.
  split.
  - by intros w.
  - intros w1 w2 w3 H12 H23. unfold same_static in *. congruence.
Qed.

Lemma py_insert_end {A} (i : nat) (x : A) (l : list A) :
  (length l <= i)%nat -> py_insert i x l = l ++ [x].
Proof.
  intros H. unfold py_insert. by rewrite take_ge, drop_ge by lia.
Qed.

Lemma static_set_inputs b n : static (set_inputs b n) = static n.
Proof. reflexivity. Qed.

Lemma static_set_result r n : static (set_result r n) = static n.
Proof. reflexivity. Qed.

Lemma runs_setitem k v w :
  runs (setitem k v) w (Ok tt)
    {| self := set_inputs (bunch_set k v (inputs (self w))) (self w);
       disk := disk w |} [].
Proof. reflexivity. Qed.

Lemma runs_set_input_literal k v w :
  runs (set_input k (Literal v) [] []) w (Ok tt)
    {| self := set_inputs (bunch_set k v (inputs (self w))) (self w);
       disk := disk w |} [].
Proof. apply runs_setitem. Qed.

Lemma runs_getitem k w :
  runs (getitem k) w
    match bunch_get k (inputs (self w)) with
    | Some v => Ok v
    | None => Raise (KeyError k)
    end w [].
Proof.
  unfold getitem. run_start.
  { run_step. destruct (bunch_get k (inputs (self w))); run_prim. }
  reflexivity.
Qed.

Lemma runs_interface_run w :
  let rd := i_run (_interface (self w)) (inputs (self w)) (disk w) in
  runs interface_run w (Ok rd.1) {| self := self w; disk := rd.2 |}
    [EvExecute (inputs (self w))].
Proof.
  cbn zeta. unfold interface_run. run_start.
  { run_step. run_step.
    destruct (i_run _ _ _) as [r d']. cbn [fst snd].
    run_step. run_step. run_prim. }
  reflexivity.
Qed.

Lemma runs_interface_aggregate_outputs w :
  runs interface_aggregate_outputs w
    (Ok (i_aggregate_outputs (_interface (self w)) (inputs (self w))
           (disk w)))
    w [EvAggregate (inputs (self w))].
Proof.
  unfold interface_aggregate_outputs. run_start.
  { run_step. run_step. run_step. run_prim. }
  reflexivity.
Qed.

(** One pass of the loop, when the result holds its two lists. *)
Lemma runs_fanout_step (execute : bool) field i v w res li lr :
  _result (self w) = Some res ->
  interface res = SList li ->
  runtime res = SList lr ->
  let ins' := bunch_set field v (inputs (self w)) in
  let p := pass execute (_interface (self w)) ins' (disk w) in
  runs (fanout_step execute field i v) w (Ok tt)
    {| self :=
         set_result (Some
           {| interface :=
                match it_run p.1 with
                | Some r => SList (py_insert i (r_interface r) li)
                | None => SList li
                end;
              runtime :=
                match it_run p.1 with
                | Some r => SList (py_insert i (r_runtime r) lr)
                | None => SList lr
                end;
              outputs :=
                fold_left (merge_output i) (it_outputs p.1) (outputs res) |})
           (set_inputs ins' (self w));
       disk := p.2 |}
    [event_of execute p.1].
Proof.
  intros Hres Hli Hlr. cbn zeta. unfold fanout_step.
  destruct execute; unfold pass, event_of;
    cbn [fst snd it_run it_outputs it_inputs].
  - run_start.
    { run_head runs_set_input_literal.
      eapply runs_seq.
      + run_head runs_interface_run.
        eapply runs_seq.
        * unfold result_insert. run_step. cbn [self set_inputs _result].
          rewrite Hres, Hli, Hlr. run_prim.
        * cbn beta. run_prim.
      + cbn beta. unfold result_merge. run_step.
        cbn [self set_result _result]. run_prim. }
    reflexivity.
  - run_start.
    { run_head runs_set_input_literal.
      run_head runs_interface_aggregate_outputs.
      unfold result_merge. run_step.
      cbn [self set_inputs _result]. rewrite Hres.
      destruct res as [ri rr ro]. cbn [interface runtime outputs] in *.
      subst. run_prim. }
    reflexivity.
Qed.

Lemma iterations_with_inputs execute b (i : Interface FS) field ins d vs :
  iterations execute (with_inputs b i) field ins d vs =
  iterations execute i field ins d vs.
Proof.
  revert ins d. induction vs as [|v vs IH]; intros ins d; [done|].
  cbn [iterations]. cbn zeta. rewrite IH. by destruct execute.
Qed.

(** The whole loop. *)
Lemma runs_fanout_loop (execute : bool) field vs : forall i w res li lr,
  _result (self w) = Some res ->
  interface res = SList li ->
  runtime res = SList lr ->
  (length li <= i)%nat ->
  (length lr <= i)%nat ->
  let its :=
    iterations execute (_interface (self w)) field (inputs (self w))
      (disk w) vs in
  exists w',
    runs (for_enumerate i vs (fanout_step execute field)) w (Ok tt) w'
      (event_of execute <$> its) /\
    static (self w') = static (self w) /\
    inputs (self w') =
      fold_left (fun b v => bunch_set field v b) vs (inputs (self w)) /\
    _result (self w') = Some
      {| interface :=
           SList (li ++ omap (fun it => r_interface <$> it_run it) its);
         runtime :=
           SList (lr ++ omap (fun it => r_runtime <$> it_run it) its);
         outputs := merge_all i (it_outputs <$> its) (outputs res) |}.
Proof.
  induction vs as [|v vs IH]; intros i w res li lr Hres Hli Hlr Hi Hi'.
  - exists w. cbn. rewrite !app_nil_r. split_and!; try done.
    rewrite Hres. destruct res; cbn in *. by subst.
  - pose proof (runs_fanout_step execute field i v w res li lr
                  Hres Hli Hlr) as Hstep.
    cbn zeta in Hstep.
    set (ins' := bunch_set field v (inputs (self w))) in *.
    set (p := pass execute (_interface (self w)) ins' (disk w)) in *.
    match type of Hstep with runs _ _ _ ?x _ => set (w1 := x) in * end.
    assert (exists li1 lr1,
      _result (self w1) = Some
        {| interface := SList li1; runtime := SList lr1;
           outputs :=
             fold_left (merge_output i) (it_outputs p.1) (outputs res) |} /\
      (length li1 <= S i)%nat /\ (length lr1 <= S i)%nat /\
      li1 = li ++ omap (fun it => r_interface <$> it_run it) [p.1] /\
      lr1 = lr ++ omap (fun it => r_runtime <$> it_run it) [p.1])
      as (li1 & lr1 & Hres1 & Hl1 & Hl1' & Eli & Elr).
    { subst w1. cbn [self set_result _result].
      destruct (it_run p.1) as [r|] eqn:Er.
      - exists (py_insert i (r_interface r) li),
               (py_insert i (r_runtime r) lr).
        rewrite !py_insert_end by done. cbn. rewrite Er. cbn.
        rewrite !length_app. cbn. split_and!; try done; lia.
      - exists li, lr. cbn. rewrite Er. cbn. rewrite !app_nil_r.
        split_and!; try done; lia. }
    destruct (IH (S i) w1 _ li1 lr1 Hres1 eq_refl eq_refl Hl1 Hl1')
      as (w' & Hr & Hs & Hin & Hres').
    exists w'. split_and!.
    + eapply runs_bind; [exact Hstep|exact Hr|].
      subst w1. cbn [self disk set_result set_inputs _interface inputs
                     i_inputs with_inputs iterations].
      cbn zeta. rewrite iterations_with_inputs. reflexivity.
    + rewrite Hs. by subst w1.
    + rewrite Hin. by subst w1.
    + rewrite Hres'. subst w1 li1 lr1.
      cbn [self disk set_result set_inputs _interface inputs
           i_inputs with_inputs iterations outputs].
      cbn zeta. rewrite iterations_with_inputs.
      fold ins'. fold p. rewrite <- !app_assoc.
      rewrite <- !omap_app. reflexivity.
Qed.
End FanOut.

Section RunInterface.
Context {FS : Type}.
Implicit Types (w : World FS).

Lemma fold_bunch_set field v0 vs (b : Bunch) :
  bunch_set field v0 (fold_left (fun b v => bunch_set field v b) vs b) =
  bunch_set field v0 b.
Proof.
  revert b. induction vs as [|v vs IH]; intros b; simpl; [done|].
  by rewrite IH, bunch_set_set.
Qed.

Lemma set_inputs_same (n : NodeWrapper FS) : set_inputs (inputs n) n = n.
Proof. destruct n as [[]]. reflexivity. Qed.

(** [_run_interface] with one iterfield that is bound. *)
Lemma runs_run_interface_fanout (execute : bool) w field v0 :
  iterfield (self w) = [field] ->
  bunch_get field (inputs (self w)) = Some v0 ->
  let its :=
    iterations execute (_interface (self w)) field (inputs (self w))
      (disk w) (itervals_of v0) in
  exists w',
    runs (_run_interface execute) w (Ok tt) w' (event_of execute <$> its) /\
    static (self w') = static (self w) /\
    inputs (self w') = inputs (self w) /\
    _result (self w') = Some
      {| interface := SList (omap (fun it => r_interface <$> it_run it) its);
         runtime := SList (omap (fun it => r_runtime <$> it_run it) its);
         outputs := merge_all 0 (it_outputs <$> its) [] |}.
Proof.
  intros Hit Hget. cbn zeta.
  set (init := {| interface := SList ([] : list string);
                  runtime := SList ([] : list Runtime);
                  outputs := [] |}).
  set (w0 := {| self := set_result (Some init) (self w); disk := disk w |}).
  destruct (runs_fanout_loop execute field (itervals_of v0) 0 w0 init [] []
              eq_refl eq_refl eq_refl (Nat.le_refl _) (Nat.le_refl _))
    as (w1 & Hloop & Hs & Hin & Hres).
  exists {| self := set_inputs (bunch_set field v0 (inputs (self w1))) (self w1);
            disk := disk w1 |}.
  split_and!.
  - unfold _run_interface. run_start.
    { run_step. rewrite Hit.
      pose proof (runs_getitem field w) as Hg. rewrite Hget in Hg.
      eapply runs_seq; [exact Hg|]. cbn beta zeta.
      run_step. fold init. fold w0.
      eapply runs_seq.
      - replace (match v0 with VList l => l | _ => [v0] end)
          with (itervals_of v0) by by destruct v0.
        exact Hloop.
      - cbn beta.
        replace (if negb (is_list v0) then _ else _)
          with (set_input (FS:=FS) field (Literal v0) [] []).
        + apply runs_set_input_literal.
        + by destruct v0. }
    cbn [app]. rewrite app_nil_r. reflexivity.
  - cbn [self]. rewrite static_set_inputs, Hs. done.
  - cbn [self]. rewrite Hin. subst w0. cbn [self].
    change (inputs (set_result (Some init) (self w))) with (inputs (self w)).
    rewrite fold_bunch_set. rewrite (bunch_set_same _ _ _ Hget).
    unfold inputs, set_inputs. cbn. done.
  - cbn [self set_inputs _result]. rewrite Hres. reflexivity.
Qed.

(** ... with one iterfield that is not bound. *)
Lemma runs_run_interface_unbound (execute : bool) w field :
  iterfield (self w) = [field] ->
  bunch_get field (inputs (self w)) = None ->
  runs (_run_interface execute) w (Raise (KeyError field)) w [].
Proof.
  intros Hit Hget. unfold _run_interface. run_start.
  { run_step. rewrite Hit.
    pose proof (runs_getitem field w) as Hg. rewrite Hget in Hg.
    eapply runs_bind_raise. exact Hg. }
  reflexivity.
Qed.

(** ... and with no iterfield, or more than one. *)
Lemma runs_run_interface_single (execute : bool) w :
  length (iterfield (self w)) ≠ 1%nat ->
  let p := pass execute (_interface (self w)) (inputs (self w)) (disk w) in
  runs (_run_interface execute) w (Ok tt)
    {| self :=
         set_result (Some
           match it_run p.1 with
           | Some r => of_run r
           | None =>
               {| interface := SNone; runtime := SNone;
                  outputs := it_outputs p.1 |}
           end) (self w);
       disk := p.2 |}
    [event_of execute p.1].
Proof.
  intros Hlen. cbn zeta. unfold _run_interface.
  destruct execute; unfold pass, event_of;
    cbn [fst snd it_run it_outputs it_inputs].
  - run_start.
    { run_step.
      destruct (iterfield (self w)) as [|f [|f' l]]; [|done|];
        (run_head runs_interface_run; run_prim). }
    reflexivity.
  - run_start.
    { run_step.
      destruct (iterfield (self w)) as [|f [|f' l]]; [|done|];
        (run_head runs_interface_aggregate_outputs; run_prim). }
    reflexivity.
Qed.

Lemma fanout_calls_single (n : NodeWrapper FS) :
  length (iterfield n) ≠ 1%nat -> fanout_calls n = 1%nat.
Proof.
  unfold fanout_calls. destruct (iterfield n) as [|f [|f' l]]; done.
Qed.

Lemma made_by_event_of execute its :
  Forall (made_by execute) (event_of execute <$> its).
Proof.
  apply Forall_fmap, Forall_forall. intros it _. by eexists.
Qed.

Lemma length_iterations execute (i : Interface FS) field ins d vs :
  length (iterations execute i field ins d vs) = length vs.
Proof.
  revert ins d. induction vs as [|v vs IH]; intros ins d; [done|].
  cbn [iterations]. cbn. by rewrite IH.
Qed.

(** What every call of [_run_interface] does: it calls the interface
    once for each element, by [run()] when executing and by
    [aggregate_outputs()] otherwise, and gives the inputs back as it
    found them.  It raises only for an iterfield that is not bound. *)
Lemma run_interface_summary (execute : bool) w :
  exists o w' l,
    runs (_run_interface execute) w o w' l /\
    static (self w') = static (self w) /\
    inputs (self w') = inputs (self w) /\
    Forall (made_by execute) l /\
    length l = fanout_calls (self w) /\
    (o = Ok tt \/
     exists field, o = Raise (KeyError field) /\
       iterfield (self w) = [field] /\
       bunch_get field (inputs (self w)) = None).
Proof.
  destruct (decide (length (iterfield (self w)) = 1%nat)) as [Hlen|Hlen].
  - destruct (iterfield (self w)) as [|field [|f' l]] eqn:Hit; try done.
    destruct (bunch_get field (inputs (self w))) as [v0|] eqn:Hget.
    + destruct (runs_run_interface_fanout execute w field v0 Hit Hget)
        as (w' & Hr & Hs & Hin & Hres).
      eexists _, w', _. split_and!; [exact Hr|done|done| | |by left].
      * apply made_by_event_of.
      * rewrite length_fmap, length_iterations. unfold fanout_calls.
        by rewrite Hit, Hget.
    + eexists _, w, _. split_and!;
        [by apply runs_run_interface_unbound|done|done|constructor| |].
      * unfold fanout_calls. by rewrite Hit, Hget.
      * right. by exists field.
  - eexists _, _, _. split_and!;
      [by apply runs_run_interface_single|done|done| | |by left].
    + repeat constructor. by eexists.
    + by rewrite fanout_calls_single.
Qed.
End RunInterface.

(** ** Laws of the monad, at a world *)

Section MonadLaws.
Context {FS : Type}.
Implicit Types w : World FS.

Lemma bind_assoc {A B C} (m : M FS A) (k : A -> M FS B) (h : B -> M FS C) w :
  bind (bind m k) h w = bind m (fun a => bind (k a) h) w.
Proof.
  unfold bind. destruct (m w) as [[a|e] w1 l1]; cbn [out world log]; [|done].
  destruct (k a w1) as [[b|e] w2 l2]; cbn [out world log]; [|done].
  destruct (h b w2) as [o w3 l3]; cbn [out world log].
  by rewrite app_assoc.
Qed.

Lemma bind_cong {A B} (m : M FS A) (k k' : A -> M FS B) w :
  (forall a w', k a w' = k' a w') -> bind m k w = bind m k' w.
Proof.
  intros H. unfold bind. destruct (m w) as [[a|e] w1 l1];
    cbn [out world log]; [|done].
  by rewrite H.
Qed.

Lemma bind_ret_l {A B} (a : A) (k : A -> M FS B) w :
  bind (ret a) k w = k a w.
Proof. unfold bind, ret. cbn [out world log]. by destruct (k a w). Qed.

Lemma bind_if {A B} (c : bool) (m1 m2 : M FS A) (k : A -> M FS B) w :
  bind (if c then m1 else m2) k w =
  (if c then bind m1 k else bind m2 k) w.
Proof. by destruct c. Qed.

End MonadLaws.

(** ** run *)

Section RunFacts.
Context {FS : Type} (X : Externals FS).
Implicit Types w : World FS.

(** [run] is what it does before the fan-out, the fan-out, and what it
    does after it. *)
Lemma run_split w :
  run X w =
  bind (before_fanout X) (fun b =>
    bind (_run_interface (execute_flag b)) (fun _ =>
      bind (after_fanout X b) (fun _ =>
        bind get_self (fun s' => ret (_result s'))))) w.
Proof.
  unfold run, before_fanout. rewrite bind_assoc.
  apply bind_cong. intros s w1. destruct (disk_based s).
  - unfold run_disk_based. rewrite !bind_assoc.
    apply bind_cong. intros dec w2. destruct (d_execute dec).
    + unfold execute_path. rewrite !bind_assoc.
      apply bind_cong. intros d w3. rewrite !bind_assoc.
      apply bind_cong. intros [] w4. rewrite !bind_assoc.
      apply bind_cong. intros [] w5. rewrite !bind_assoc.
      apply bind_cong. intros [] w6. rewrite bind_ret_l.
      cbn [execute_flag after_fanout]. rewrite !bind_assoc. done.
    + unfold skip_path. rewrite !bind_assoc.
      apply bind_cong. intros [] w3. rewrite bind_ret_l.
      cbn [execute_flag after_fanout].
      apply bind_cong. intros [] w4. by rewrite bind_ret_l.
  - rewrite bind_ret_l. cbn [execute_flag after_fanout].
    apply bind_cong. intros [] w2. by rewrite bind_ret_l.
Qed.


Lemma run_anatomy w :
  let rb := before_fanout X w in
  match out rb with
  | Raise e =>
      run X w = {| out := Raise e; world := world rb; log := log rb |}
  | Ok b =>
      let ri := _run_interface (execute_flag b) (world rb) in
      match out ri with
      | Raise e =>
          run X w =
          {| out := Raise e; world := world ri; log := log rb ++ log ri |}
      | Ok _ =>
          let ra := after_fanout X b (world ri) in
          run X w =
          {| out :=
               match out ra with
               | Ok _ => Ok (_result (self (world ra)))
               | Raise e => Raise e
               end;
             world := world ra;
             log := log rb ++ log ri ++ log ra |}
      end
  end.
Proof.
  cbn zeta. rewrite run_split.
  pose proof (runs_intro (before_fanout X) w) as Hb.
  destruct (out (before_fanout X w)) as [b|e].
  2:{ by apply runs_bind_raise. }
  pose proof (runs_intro (_run_interface (execute_flag b))
                (world (before_fanout X w))) as Hi.
  destruct (out (_run_interface _ _)) as [[]|e].
  2:{ eapply runs_bind; [exact Hb| |reflexivity]. by apply runs_bind_raise. }
  pose proof (runs_intro (after_fanout X b)
                (world (_run_interface (execute_flag b)
                          (world (before_fanout X w))))) as Ha.
  eapply runs_bind; [exact Hb| |reflexivity].
  eapply runs_bind; [exact Hi| |reflexivity].
  destruct (out (after_fanout X b _)) as [[]|e].
  - eapply runs_bind; [exact Ha| |apply app_nil_r].
    eapply runs_bind; [apply runs_get_self|apply runs_ret|reflexivity].
  - by apply runs_bind_raise.
Qed.

(** *** The output directory *)

#[global] Instance same_data_preorder : PreOrder (@same_data FS).
Proof.
  split.
  - by intros w.
  - intros w1 w2 w3 (? & ? & ?) (? & ? & ?). unfold same_data.
    split_and!; congruence.
Qed.

Lemma same_data_refl w : same_data w w.
Proof. done. Qed.

Lemma runs_output_directory w :
  exists w' l,
    runs (_output_directory X) w (Ok (outdir_of X w)) w' l /\
    same_data w w' /\ Forall is_setup l.
Proof.
  unfold _output_directory, outdir_of.
  destruct (output_directory_base (self w)) as [root|] eqn:Hb.
  - exists w, []. split; [|split; [done|constructor]].
    run_start.
    { run_step. rewrite Hb. run_step. run_prim. }
    reflexivity.
  - destruct (mkdtemp X (disk w)) as [root d'] eqn:Hm.
    eexists _, [EvMkdtemp root]. split; [|split].
    + run_start.
      { run_step. rewrite Hb. eapply runs_seq.
        - run_step. rewrite Hm. run_step. run_step. run_step. run_prim.
        - cbn beta. run_prim. }
      reflexivity.
    + done.
    + by repeat constructor.
Qed.

Lemma runs_make_output_dir outdir w :
  exists o w' l,
    runs (_make_output_dir X outdir) w o w' l /\
    same_data w w' /\ Forall is_setup l /\
    (forall a, o = Ok a -> a = outdir).
Proof.
  unfold _make_output_dir.
  destruct (os_path_exists X outdir (disk w)) eqn:Hex.
  - eexists _, w, []. split; [|split; [done|split; [constructor|]]].
    + run_start.
      { run_step. rewrite Hex. run_prim. }
      reflexivity.
    + done.
  - destruct (os_mkdir X outdir (disk w)) as [d'|] eqn:Hmk.
    + eexists _, _, [EvMkdir outdir]. split; [|split; [|split]].
      * run_start.
        { run_step. rewrite Hex, Hmk. run_step. run_step. run_prim. }
        reflexivity.
      * done.
      * by repeat constructor.
      * by intros a [= <-].
    + eexists _, w, []. split; [|split; [done|split; [constructor|]]].
      * run_start.
        { run_step. rewrite Hex, Hmk. run_prim. }
        reflexivity.
      * done.
Qed.

Lemma runs_prepare_outdir w :
  exists w' l,
    runs (prepare_outdir X) w (Ok (outdir_of X w)) w' l /\
    same_data w w' /\ Forall is_setup l.
Proof.
  destruct (runs_output_directory w) as (w1 & l1 & Hr1 & Hs1 & Hl1).
  destruct (runs_make_output_dir (outdir_of X w) w1)
    as (o & w2 & l2 & Hr2 & Hs2 & Hl2 & Ho).
  exists w2, (l1 ++ l2). split; [|split].
  - unfold prepare_outdir. apply runs_try_ok.
    eapply runs_seq; [exact Hr1|]. cbn beta.
    destruct o as [a|e].
    + rewrite (Ho a eq_refl) in Hr2. by apply runs_try_ok.
    + eapply runs_try_raise; [exact Hr2|apply runs_ret|apply app_nil_r].
  - by etrans.
  - by apply Forall_app.
Qed.

(** *** The decision *)

Lemma static_overwrite_set (n n' : NodeWrapper FS) :
  static n' = static n -> overwrite_set n' = overwrite_set n.
Proof. unfold static, overwrite_set. by intros [= _ _ -> _ _ _ _]. Qed.

Lemma runs_hash_inputs w :
  runs (hash_inputs X) w (Ok (md5_hexdigest X (str_inputs X (self w)))) w [].
Proof.
  unfold hash_inputs. run_start.
  { run_step. run_prim. }
  reflexivity.
Qed.

Lemma runs_decide_run w :
  let outdir := outdir_of X w in
  let ins' := bunch_set "cwd" (VStr outdir) (inputs (self w)) in
  let inputstr := str_bunch (repr X) ins' in
  let hashfile :=
    os_path_join X outdir (marker_name (md5_hexdigest X inputstr)) in
  exists w' l,
    runs (decide_run X) w
      (Ok {| d_outdir := outdir;
             d_hashfile := hashfile;
             d_inputstr := inputstr;
             d_execute :=
               overwrite_set (self w) ||
               negb (os_path_exists X hashfile (disk w')) |})
      w' l /\
    static (self w') = static (self w) /\
    inputs (self w') = ins' /\
    _result (self w') = _result (self w) /\
    Forall is_setup l.
Proof.
  cbn zeta.
  destruct (runs_prepare_outdir w) as (w1 & l1 & Hr1 & (Hs1 & Hi1 & Hres1) & Hl1).
  exists {| self :=
              set_inputs (bunch_set "cwd" (VStr (outdir_of X w))
                            (inputs (self w1))) (self w1);
            disk := disk w1 |}, l1.
  split; [|split; [|split; [|split]]].
  - unfold decide_run. run_start.
    { eapply runs_seq; [exact Hr1|]. cbn beta.
      run_head runs_setitem. run_head runs_hash_inputs.
      run_step. run_step. cbn [self disk].
      unfold str_inputs.
      change (inputs (set_inputs ?b ?n)) with b.
      rewrite Hi1.
      rewrite (static_overwrite_set (self w) (set_inputs _ (self w1)))
        by (by rewrite static_set_inputs).
      run_prim. }
    by rewrite !app_nil_r.
  - cbn [self]. by rewrite static_set_inputs.
  - cbn [self]. change (inputs (set_inputs ?b ?n)) with b. by rewrite Hi1.
  - done.
  - done.
Qed.

End RunFacts.

(** *** Staging *)

Section Staging.
Context {FS : Type} (X : Externals FS).
Implicit Types w : World FS.

#[global] Instance keeps_preorder : PreOrder (@keeps FS).
Proof.
  split.
  - by intros w.
  - intros w1 w2 w3 (? & ?) (? & ?). unfold keeps. split; congruence.
Qed.

Lemma respects_getitem P k : respects keeps P (getitem (FS:=FS) k).
Proof.
  unfold getitem. rapply respects_bind; [rapply respects_get_self|].
  intros s. destruct (bunch_get k (inputs s));
    [rapply respects_ret|rapply respects_raise].
Qed.

Lemma respects_setitem P k v : respects keeps P (setitem (FS:=FS) k v).
Proof. unfold setitem. rapply respects_modify_self. by intros w. Qed.

Lemma respects_stage_inputs outdir :
  respects keeps is_copy (stage_inputs X outdir).
Proof.
  unfold stage_inputs.
  rapply respects_bind; [rapply respects_get_self|]. intros s.
  rapply respects_for_each. intros info.
  rapply respects_bind; [rapply respects_getitem|]. intros files.
  assert (respects keeps is_copy
    (bind get_disk (fun d =>
       let (newfiles, d') :=
         copyfiles X (filename_to_list X files) (VList [VStr outdir])
           (copy info) d in
       bind (emit (EvCopyfiles (filename_to_list X files)
                     (VList [VStr outdir]) (copy info)))
         (fun _ => bind (put_disk d')
            (fun _ => setitem (key info) (list_to_filename X newfiles))))))
    as Hbody.
  { rapply respects_bind; [rapply respects_get_disk|]. intros d.
    destruct (copyfiles X _ _ _ d) as [newfiles d'].
    rapply respects_bind; [(rapply respects_emit; done)|]. intros _.
    rapply respects_bind; [rapply respects_put_disk; by intros w|]. intros _.
    rapply respects_setitem. }
  destruct files; [rapply respects_ret|exact Hbody..].
Qed.

Lemma respects_restage_inputs outdir :
  respects keeps is_copy (restage_inputs X outdir).
Proof.
  unfold restage_inputs.
  rapply respects_bind; [rapply respects_get_self|]. intros s.
  rapply respects_for_each. intros info.
  rapply respects_bind; [rapply respects_getitem|]. intros files.
  assert (forall infiles, respects keeps is_copy
    (for_enumerate 0 infiles (fun i f =>
       bind get_disk (fun d =>
         bind (if os_path_exists X (fname_presuffix X f outdir) d
               then ret tt
               else
                 let (_, d') :=
                   copyfiles X f (VStr (fname_presuffix X f outdir))
                     (copy info) d in
                 bind (emit (EvCopyfiles f
                               (VStr (fname_presuffix X f outdir))
                               (copy info)))
                   (fun _ => put_disk d'))
           (fun _ =>
              if is_list files then
                bind (getitem (key info)) (fun cur =>
                  match cur with
                  | VList l =>
                      if bool_decide (i < length l)%nat then
                        setitem (key info)
                          (VList (<[i := VStr (fname_presuffix X f outdir)]> l))
                      else
                        raise (IndexError
                                 "list assignment index out of range")
                  | _ =>
                      raise (TypeError
                               "object does not support item assignment")
                  end)
              else
                setitem (key info) (VStr (fname_presuffix X f outdir)))))))
    as Hbody.
  { intros infiles. rapply respects_for_enumerate. intros i f.
    rapply respects_bind; [rapply respects_get_disk|]. intros d.
    rapply respects_bind.
    - destruct (os_path_exists X _ d); [rapply respects_ret|].
      destruct (copyfiles X f _ _ d) as [? d'].
      rapply respects_bind; [(rapply respects_emit; done)|]. intros _.
      rapply respects_put_disk. by intros w.
    - intros _. destruct (is_list files); [|rapply respects_setitem].
      rapply respects_bind; [rapply respects_getitem|]. intros cur.
      destruct cur; try rapply respects_raise.
      destruct (bool_decide _); [rapply respects_setitem|rapply respects_raise]. }
  destruct files; [rapply respects_ret|apply Hbody..].
Qed.

End Staging.

(** *** Before the fan-out *)

Section BeforeFanout.
Context {FS : Type} (X : Externals FS).
Implicit Types w : World FS.

Lemma before_fanout_direct w :
  disk_based (self w) = false -> runs (before_fanout X) w (Ok Direct) w [].
Proof.
  intros Hdb. unfold before_fanout. run_start.
  { run_step. rewrite Hdb. run_prim. }
  reflexivity.
Qed.

(** On a disk-based node: the decision is taken, then the directory is
    cleaned and the inputs staged, or the inputs are only rewritten. *)
Lemma before_fanout_disk w :
  disk_based (self w) = true ->
  exists dec w1 l1 o w2 l2,
    runs (decide_run X) w (Ok dec) w1 l1 /\
    Forall is_setup l1 /\
    runs (before_fanout X) w o w2
      (l1 ++ (if d_execute dec then [EvCleandir (d_outdir dec)] else []) ++ l2) /\
    Forall is_copy l2 /\
    static (self w2) = static (self w) /\
    _result (self w2) = _result (self w) /\
    (forall b, o = Ok b ->
       b = if d_execute dec then Executing dec else Skipping dec).
Proof.
  intros Hdb.
  destruct (runs_decide_run X w) as (w1 & l1 & Hr1 & Hs1 & Hi1 & Hres1 & Hl1).
  cbn zeta in Hr1.
  match type of Hr1 with runs _ _ (Ok ?d) _ _ => set (dec := d) in * end.
  destruct (d_execute dec) eqn:Hgo.
  - set (wc := {| self := self w1;
                  disk := cleandir X (d_outdir dec) (disk w1) |}).
    destruct (respects_stage_inputs X (d_outdir dec) wc) as [[Hk1 Hk2] Hcopy].
    pose proof (runs_intro (stage_inputs X (d_outdir dec)) wc) as Hst.
    exists dec, w1, l1.
    exists (match out (stage_inputs X (d_outdir dec) wc) with
            | Ok _ => Ok (Executing dec)
            | Raise e => Raise e
            end), (world (stage_inputs X (d_outdir dec) wc)),
           (log (stage_inputs X (d_outdir dec) wc)).
    split; [done|]. split; [done|]. split; [|split; [done|split; [|split]]].
    + unfold before_fanout.
      destruct (out (stage_inputs X (d_outdir dec) wc)) as [[]|e].
      * run_start.
        { run_step. rewrite Hdb. eapply runs_seq; [exact Hr1|]. cbn beta.
          rewrite Hgo. run_step. run_step. run_step.
          eapply runs_seq; [exact Hst|]. cbn beta. run_prim. }
        rewrite Hgo. cbn [app]. by rewrite ?app_nil_r.
      * run_start.
        { run_step. rewrite Hdb. eapply runs_seq; [exact Hr1|]. cbn beta.
          rewrite Hgo. run_step. run_step. run_step.
          eapply runs_bind_raise. exact Hst. }
        rewrite Hgo. cbn [app]. by rewrite ?app_nil_r.
    + rewrite Hk1. by subst wc.
    + rewrite Hk2. by subst wc.
    + intros b. rewrite Hgo. destruct (out _); [by intros [= <-]|done].
  - destruct (respects_restage_inputs X (d_outdir dec) w1)
      as [[Hk1 Hk2] Hcopy].
    pose proof (runs_intro (restage_inputs X (d_outdir dec)) w1) as Hst.
    exists dec, w1, l1.
    exists (match out (restage_inputs X (d_outdir dec) w1) with
            | Ok _ => Ok (Skipping dec)
            | Raise e => Raise e
            end), (world (restage_inputs X (d_outdir dec) w1)),
           (log (restage_inputs X (d_outdir dec) w1)).
    split; [done|]. split; [done|]. split; [|split; [done|split; [|split]]].
    + unfold before_fanout.
      destruct (out (restage_inputs X (d_outdir dec) w1)) as [[]|e].
      * run_start.
        { run_step. rewrite Hdb. eapply runs_seq; [exact Hr1|]. cbn beta.
          rewrite Hgo.
          eapply runs_seq; [exact Hst|]. cbn beta. run_prim. }
        rewrite Hgo. cbn [app]. by rewrite ?app_nil_r.
      * run_start.
        { run_step. rewrite Hdb. eapply runs_seq; [exact Hr1|]. cbn beta.
          rewrite Hgo. eapply runs_bind_raise. exact Hst. }
        rewrite Hgo. cbn [app]. by rewrite ?app_nil_r.
    + by rewrite Hk1.
    + by rewrite Hk2.
    + intros b. rewrite Hgo. destruct (out _); [by intros [= <-]|done].
Qed.

End BeforeFanout.

(** *** After the fan-out *)

Section AfterFanout.
Context {FS : Type} (X : Externals FS).
Implicit Types w : World FS.

Lemma runs_check_returncode_zero hashfile inputstr w res :
  _result (self w) = Some res ->
  result_returncode res = Some 0 ->
  exists d',
    runs (check_returncode X hashfile inputstr) w (Ok tt)
      {| self := self w; disk := d' |} [EvWriteMarker hashfile inputstr].
Proof.
  intros Hres Hrc.
  exists (match write_text X hashfile inputstr (disk w) with
          | Some d' => d'
          | None => disk w
          end).
  unfold check_returncode, result_returncode in *.
  destruct (runtime res) as [|r|rs] eqn:Hrt; simplify_eq.
  - run_start.
    { run_step. rewrite Hres, Hrt. run_step. rewrite Hrc. cbn [Z.eqb].
      run_step. run_step.
      destruct (write_text X hashfile inputstr (disk w)); [run_prim|].
      destruct w. run_prim. }
    reflexivity.
  - run_start.
    { run_step. rewrite Hres, Hrt. run_step. rewrite Hrc. cbn [Z.eqb].
      run_step. run_step.
      destruct (write_text X hashfile inputstr (disk w)); [run_prim|].
      destruct w. run_prim. }
    reflexivity.
Qed.

Lemma runs_check_returncode_nonzero hashfile inputstr w res rc :
  _result (self w) = Some res ->
  result_returncode res = Some rc ->
  rc ≠ 0 ->
  runs (check_returncode X hashfile inputstr) w
    (Raise match runtime res with
           | SOne r => StandardError (failure_message X (self w) (stderr r))
           | SList _ =>
               AttributeError "'list' object has no attribute 'stderr'"
           | SNone =>
               AttributeError "'NoneType' object has no attribute 'stderr'"
           end) w [].
Proof.
  intros Hres Hrc Hne.
  unfold check_returncode, result_returncode, failure_message in *.
  apply Z.eqb_neq in Hne.
  destruct (runtime res) as [|r|rs] eqn:Hrt; simplify_eq.
  - run_start.
    { run_step. rewrite Hres, Hrt. run_step. rewrite Hne. run_prim. }
    reflexivity.
  - run_start.
    { run_step. rewrite Hres, Hrt. run_step. rewrite Hne. run_prim. }
    reflexivity.
Qed.

Lemma runs_check_returncode_none hashfile inputstr w :
  (forall res, _result (self w) = Some res -> result_returncode res = None) ->
  exists e, runs (check_returncode X hashfile inputstr) w (Raise e) w [].
Proof.
  intros H. unfold check_returncode, result_returncode in *.
  destruct (_result (self w)) as [res|] eqn:Hres.
  - specialize (H res eq_refl). destruct (runtime res) eqn:Hrt; try done.
    eexists. run_start.
    { run_step. rewrite Hres. eapply runs_bind_raise. rewrite Hrt. run_prim. }
    reflexivity.
  - eexists. run_start.
    { run_step. rewrite Hres. run_prim. }
    reflexivity.
Qed.

(** Every outcome of the check: the node is left as it was, and the log
    is empty or holds the one write of the marker. *)
Lemma check_returncode_summary hashfile inputstr w :
  exists o w' l,
    runs (check_returncode X hashfile inputstr) w o w' l /\
    self w' = self w /\
    ((o = Ok tt /\ l = [EvWriteMarker hashfile inputstr]) \/
     (exists e, o = Raise e) /\ l = []).
Proof.
  destruct (_result (self w)) as [res|] eqn:Hres.
  2:{ destruct (runs_check_returncode_none hashfile inputstr w) as [e He].
      { intros res. by rewrite Hres. }
      exists (Raise e), w, []. split_and!; [done|done|right; eauto]. }
  destruct (result_returncode res) as [rc|] eqn:Hrc.
  2:{ destruct (runs_check_returncode_none hashfile inputstr w) as [e He].
      { intros res'. rewrite Hres. by intros [= <-]. }
      exists (Raise e), w, []. split_and!; [done|done|right; eauto]. }
  destruct (decide (rc = 0)) as [->|Hne].
  - destruct (runs_check_returncode_zero hashfile inputstr w res Hres Hrc)
      as [d' Hr].
    eexists _, _, _. split_and!; [exact Hr|done|by left].
  - pose proof (runs_check_returncode_nonzero hashfile inputstr w res rc
                  Hres Hrc Hne) as Hr.
    eexists _, _, _. split_and!; [exact Hr|done|right; eauto].
Qed.

End AfterFanout.

(** *** The log of a disk-based run *)

Section RunLog.
Context {FS : Type} (X : Externals FS).
Implicit Types w : World FS.

Lemma count_events_app p l1 l2 :
  count_events p (l1 ++ l2) = (count_events p l1 + count_events p l2)%nat.
Proof. unfold count_events. by rewrite filter_app, length_app. Qed.

Lemma count_events_zero p l :
  Forall (fun e => p e = false) l -> count_events p l = 0%nat.
Proof.
  unfold count_events. induction 1 as [|e l He _ IH]; [done|].
  rewrite filter_cons_False; [done|]. by rewrite He.
Qed.

Lemma count_events_length p l :
  Forall (fun e => p e = true) l -> count_events p l = length l.
Proof.
  unfold count_events. induction 1 as [|e l He _ IH]; [done|].
  rewrite filter_cons_True by done. cbn. by rewrite IH.
Qed.

Lemma run_log_disk w :
  disk_based (self w) = true ->
  exists dec w1 l1 l2 l3 l4,
    runs (decide_run X) w (Ok dec) w1 l1 /\
    Forall is_setup l1 /\
    log (run X w) =
      l1 ++ (if d_execute dec then [EvCleandir (d_outdir dec)] else []) ++
      l2 ++ l3 ++ l4 /\
    Forall is_copy l2 /\
    Forall (made_by (d_execute dec)) l3 /\
    length l3 = calls_due X w /\
    (l4 = [] \/
     d_execute dec = true /\ is_ok (out (run X w)) /\
     l4 = [EvWriteMarker (d_hashfile dec) (d_inputstr dec)]) /\
    (d_execute dec = true -> is_ok (out (run X w)) ->
     l4 = [EvWriteMarker (d_hashfile dec) (d_inputstr dec)]).
Proof.
  intros Hdb.
  destruct (before_fanout_disk X w Hdb)
    as (dec & w1 & l1 & o & w2 & l2 & Hdec & Hl1 & Hb & Hl2 & Hs2 & Hres2 & Hbr).
  pose proof (run_anatomy X w) as Han. cbn zeta in Han.
  unfold calls_due.
  rewrite (runs_out _ _ _ _ _ Hb), (runs_world _ _ _ _ _ Hb),
    (runs_log _ _ _ _ _ Hb) in *.
  exists dec, w1, l1, l2.
  destruct o as [b|e].
  2:{ exists [], []. rewrite Han. cbn [log out]. rewrite !app_nil_r.
      split_and!; try done; try (by left); try constructor. }
  specialize (Hbr b eq_refl).
  assert (execute_flag b = d_execute dec) as Hflag.
  { subst b. by destruct (d_execute dec). }
  destruct (run_interface_summary (execute_flag b) w2)
    as (oi & wi & li & Hi & Hsi & Hini & Hmade & Hlen & Hoi).
  rewrite Hflag in Hmade.
  rewrite (runs_out _ _ _ _ _ Hi), (runs_world _ _ _ _ _ Hi),
    (runs_log _ _ _ _ _ Hi) in Han.
  exists li.
  destruct oi as [[]|e].
  2:{ exists []. rewrite Han. cbn [log out]. rewrite !app_nil_r.
      rewrite <- !app_assoc.
      split_and!; try done; try (by left). }
  destruct (d_execute dec) eqn:Hgo; subst b; cbn [after_fanout] in Han.
  - destruct (check_returncode_summary X (d_hashfile dec) (d_inputstr dec) wi)
      as (oa & wa & la & Ha & Hsa & Hla).
    rewrite (runs_out _ _ _ _ _ Ha), (runs_world _ _ _ _ _ Ha),
      (runs_log _ _ _ _ _ Ha) in Han.
    exists la. rewrite Han. cbn [log out]. rewrite <- !app_assoc.
    split_and!; try done.
    + destruct Hla as [[-> ->]|[_ ->]]; [by right|by left].
    + intros _. destruct Hla as [[_ ->]|[[e ->] ->]]; done.
  - exists []. rewrite Han. cbn [log out ret]. rewrite <- !app_assoc.
    split_and!; try done; try (by left).
Qed.

End RunLog.

(** *** Events of the three phases, and the decision *)

Section Phases.
Context {FS : Type} (X : Externals FS).
Implicit Types w : World FS.

Lemma setup_event e :
  is_setup e ->
  is_execute e = false /\ is_aggregate e = false /\ is_cleandir e = false /\
  is_copyfiles e = false /\ is_write_marker e = false.
Proof. by destruct e. Qed.

Lemma copy_event e :
  is_copy e ->
  is_execute e = false /\ is_aggregate e = false /\ is_cleandir e = false /\
  is_write_marker e = false.
Proof. by destruct e. Qed.

Lemma made_by_event execute e :
  made_by execute e ->
  is_execute e = execute /\ is_aggregate e = negb execute /\
  is_cleandir e = false /\ is_copyfiles e = false /\
  is_write_marker e = false.
Proof. intros [ins ->]. by destruct execute. Qed.

Lemma decide_run_spec w dec w1 l1 :
  runs (decide_run X) w (Ok dec) w1 l1 ->
  d_outdir dec = outdir_of X w /\
  d_inputstr dec =
    str_bunch (repr X)
      (bunch_set "cwd" (VStr (outdir_of X w)) (inputs (self w))) /\
  d_hashfile dec =
    os_path_join X (d_outdir dec)
      (marker_name (md5_hexdigest X (d_inputstr dec))) /\
  d_execute dec =
    overwrite_set (self w) ||
    negb (os_path_exists X (d_hashfile dec) (disk w1)) /\
  inputs (self w1) =
    bunch_set "cwd" (VStr (outdir_of X w)) (inputs (self w)).
Proof.
  intros Hr.
  destruct (runs_decide_run X w) as (w1' & l1' & Hr' & _ & Hin & _).
  cbn zeta in Hr'.
  destruct (runs_det _ _ _ _ _ _ _ _ Hr Hr') as (Hdec & -> & ->).
  injection Hdec as ->. by cbn.
Qed.

End Phases.

(** ** The return code and the marker *)

Section ReturnCode.
Context {FS : Type} (X : Externals FS).
Implicit Types w : World FS.

(** The write of the marker is issued, once, by the runs that take the
    execute branch and return; no other run issues it. *)
Lemma marker_written_iff_execute_returns w :
  disk_based (self w) = true ->
  exists dec,
    out (decide_run X w) = Ok dec /\
    (d_execute dec = true /\ is_ok (out (run X w)) ->
     count_events is_write_marker (log (run X w)) = 1%nat) /\
    (~ (d_execute dec = true /\ is_ok (out (run X w))) ->
     count_events is_write_marker (log (run X w)) = 0%nat).
Proof.
  intros Hdb.
  destruct (run_log_disk X w Hdb)
    as (dec & w1 & l1 & l2 & l3 & l4 & Hdec & Hl1 & Hlog & Hl2 & Hl3 & Hlen &
        Hl4 & Hmark).
  exists dec. rewrite (runs_out _ _ _ _ _ Hdec). split; [done|].
  assert (count_events is_write_marker (log (run X w)) =
          count_events is_write_marker l4) as ->.
  { rewrite Hlog, !count_events_app.
    rewrite (count_events_zero _ l1), (count_events_zero _ l2),
      (count_events_zero _ l3).
    - by destruct (d_execute dec).
    - eapply Forall_impl; [exact Hl3|].
      intros e He. by destruct (made_by_event _ e He) as (? & ? & ? & ? & ?).
    - eapply Forall_impl; [exact Hl2|].
      intros e He. by destruct (copy_event e He) as (? & ? & ? & ?).
    - eapply Forall_impl; [exact Hl1|].
      intros e He. by destruct (setup_event e He) as (? & ? & ? & ? & ?). }
  split.
  - intros [Hgo Hok]. by rewrite (Hmark Hgo Hok).
  - intros Hnot. destruct Hl4 as [->|(Hgo & Hok & _)]; [done|].
    by destruct Hnot.
Qed.

Lemma before_fanout_executing w dec wb lb :
  runs (before_fanout X) w (Ok (Executing dec)) wb lb ->
  disk_based (self w) = true /\
  out (decide_run X w) = Ok dec /\
  d_execute dec = true.
Proof.
  intros Hb. destruct (disk_based (self w)) eqn:Hdb.
  - destruct (before_fanout_disk X w Hdb)
      as (dec' & w1 & l1 & o & w2 & l2 & Hdec & _ & Hb' & _ & _ & _ & Hbr).
    destruct (runs_det _ _ _ _ _ _ _ _ Hb Hb') as (<- & _ & _).
    specialize (Hbr _ eq_refl).
    rewrite (runs_out _ _ _ _ _ Hdec).
    destruct (d_execute dec') eqn:Hgo; simplify_eq. done.
  - pose proof (before_fanout_direct X w Hdb) as Hb'.
    by destruct (runs_det _ _ _ _ _ _ _ _ Hb Hb') as (? & _ & _).
Qed.

(** On the execute branch, once the interface has been run: a return
    code of zero makes [run] return and write the marker; any other
    makes it raise, without a marker.  What it raises names the node,
    its inputs and the captured stderr when the runtime is one record;
    when it is a list (fan-out), it is the failure to read [stderr] off
    the list. *)
Lemma execute_branch_outcome w dec wb lb res rc :
  runs (before_fanout X) w (Ok (Executing dec)) wb lb ->
  out (_run_interface true wb) = Ok tt ->
  _result (self (world (_run_interface true wb))) = Some res ->
  result_returncode res = Some rc ->
  if Z.eqb rc 0 then
    is_ok (out (run X w)) /\
    count_events is_write_marker (log (run X w)) = 1%nat
  else
    out (run X w) =
      Raise match runtime res with
            | SOne r =>
                StandardError
                  (failure_message X
                     (self (world (_run_interface true wb))) (stderr r))
            | SList _ =>
                AttributeError "'list' object has no attribute 'stderr'"
            | SNone =>
                AttributeError "'NoneType' object has no attribute 'stderr'"
            end /\
    count_events is_write_marker (log (run X w)) = 0%nat.
Proof.
  intros Hb Hout Hres Hrc.
  destruct (before_fanout_executing w dec wb lb Hb) as (Hdb & Hdec & Hgo).
  destruct (marker_written_iff_execute_returns w Hdb)
    as (dec' & Hdec' & Hone & Hzero).
  rewrite Hdec in Hdec'. injection Hdec' as <-.
  pose proof (run_anatomy X w) as Han. cbn zeta in Han.
  rewrite (runs_out _ _ _ _ _ Hb), (runs_world _ _ _ _ _ Hb),
    (runs_log _ _ _ _ _ Hb) in Han.
  cbn [execute_flag after_fanout] in Han. rewrite Hout in Han.
  set (wi := world (_run_interface true wb)) in *.
  destruct (Z.eqb_spec rc 0) as [->|Hne].
  - destruct (runs_check_returncode_zero X (d_hashfile dec) (d_inputstr dec)
                wi res Hres Hrc) as [d' Ha].
    rewrite (runs_out _ _ _ _ _ Ha) in Han.
    assert (is_ok (out (run X w))) as Hok by (by rewrite Han).
    split; [done|]. by apply Hone.
  - pose proof (runs_check_returncode_nonzero X (d_hashfile dec)
                  (d_inputstr dec) wi res rc Hres Hrc Hne) as Ha.
    rewrite (runs_out _ _ _ _ _ Ha), (runs_world _ _ _ _ _ Ha),
      (runs_log _ _ _ _ _ Ha) in Han.
    split; [by rewrite Han|]. apply Hzero. intros [_ Hok].
    by rewrite Han in Hok.
Qed.

(** The return code of a fan-out is the largest of zero and the codes of
    the elements: it is zero exactly when no code is positive. *)
Lemma fanout_returncode_fold rs rc0 :
  0 <= rc0 ->
  fold_left (fun rc r => Z.max (returncode r) rc) rs rc0 =
  Z.max rc0 (fold_left (fun rc r => Z.max (returncode r) rc) rs 0).
Proof.
  revert rc0. induction rs as [|r rs IH]; intros rc0 Hge; cbn.
  - lia.
  - rewrite (IH (Z.max (returncode r) rc0)) by lia.
    rewrite (IH (Z.max (returncode r) 0)) by lia. lia.
Qed.

Lemma fanout_returncode_nonneg rs : 0 <= fanout_returncode rs.
Proof.
  unfold fanout_returncode.
  assert (forall rc0, 0 <= rc0 ->
            0 <= fold_left (fun rc r => Z.max (returncode r) rc) rs rc0) as H.
  { induction rs as [|r rs IH]; intros rc0 Hge; cbn; [done|].
    apply IH. lia. }
  by apply H.
Qed.

Lemma fanout_returncode_zero_iff rs :
  fanout_returncode rs = 0 <-> Forall (fun r => returncode r <= 0) rs.
Proof.
  unfold fanout_returncode. induction rs as [|r rs IH]; cbn.
  - split; [constructor|done].
  - rewrite (fanout_returncode_fold rs (Z.max (returncode r) 0)) by lia.
    pose proof (fanout_returncode_nonneg rs) as Hge.
    unfold fanout_returncode in Hge.
    rewrite Forall_cons, <- IH. lia.
Qed.

(** On a fan-out, every failure that [run] detects ends in the failure
    to read [stderr] off the list of runtimes. *)
Lemma fanout_failure_is_attribute_error w dec wb lb field v :
  runs (before_fanout X) w (Ok (Executing dec)) wb lb ->
  iterfield (self wb) = [field] ->
  bunch_get field (inputs (self wb)) = Some v ->
  fanout_returncode
    (omap (fun it => r_runtime <$> it_run it)
       (iterations true (_interface (self wb)) field (inputs (self wb))
          (disk wb) (itervals_of v))) ≠ 0 ->
  out (run X w) =
    Raise (AttributeError "'list' object has no attribute 'stderr'").
Proof.
  intros Hb Hit Hget Hne.
  destruct (runs_run_interface_fanout true wb field v Hit Hget)
    as (wi & Hr & _ & _ & Hres).
  rewrite <- (runs_world _ _ _ _ _ Hr) in Hres.
  pose proof (execute_branch_outcome w dec wb lb _ _ Hb
                (runs_out _ _ _ _ _ Hr) Hres eq_refl) as H.
  cbn [runtime] in H.
  apply Z.eqb_neq in Hne. rewrite Hne in H. by destruct H.
Qed.

End ReturnCode.

(** * The claims *)

Section DiskBasedRuns.
Context {FS : Type} (X : Externals FS).
Implicit Types w : World FS.

(** C10. The marker of a disk-based run is named after, and filled
    with, the inputs as they stood when the decision was taken, with
    only [cwd] set: the hash and the string are those of these inputs,
    whatever the staging that follows writes into the bindings.  A run
    that takes the execute branch and returns has issued the write of
    that marker. *)
Theorem marker_records_inputs_before_staging w :
  disk_based (self w) = true ->
  let ins0 := bunch_set "cwd" (VStr (outdir_of X w)) (inputs (self w)) in
  let inputstr := str_bunch (repr X) ins0 in
  let hashfile :=
    os_path_join X (outdir_of X w)
      (marker_name (md5_hexdigest X inputstr)) in
  inputs (self (world (decide_run X w))) = ins0 /\
  (forall e, e ∈ log (run X w) -> is_write_marker e = true ->
     e = EvWriteMarker hashfile inputstr) /\
  (forall dec, out (decide_run X w) = Ok dec -> d_execute dec = true ->
     is_ok (out (run X w)) ->
     EvWriteMarker hashfile inputstr ∈ log (run X w)).
Proof.
  intros Hdb. cbn zeta.
  destruct (run_log_disk X w Hdb)
    as (dec & w1 & l1 & l2 & l3 & l4 & Hdec & Hl1 & Hlog & Hl2 & Hl3 & Hlen &
        Hl4 & Hmark).
  destruct (decide_run_spec X w dec w1 l1 Hdec)
    as (Hout & Hstr & Hhash & Hgo & Hin).
  rewrite (runs_out _ _ _ _ _ Hdec), (runs_world _ _ _ _ _ Hdec).
  rewrite Hout, Hstr in Hhash. rewrite Hhash, Hstr in *.
  split; [done|]. split.
  - intros e He Hw. rewrite Hlog in He.
    rewrite !elem_of_app in He. destruct He as [He|[He|[He|[He|He]]]].
    + rewrite Forall_forall in Hl1.
      destruct (setup_event e (Hl1 e He)) as (? & ? & ? & ? & ?). congruence.
    + destruct (d_execute dec); [|by apply elem_of_nil in He].
      apply list_elem_of_singleton in He as ->. done.
    + rewrite Forall_forall in Hl2.
      destruct (copy_event e (Hl2 e He)) as (? & ? & ? & ?). congruence.
    + rewrite Forall_forall in Hl3.
      destruct (made_by_event _ e (Hl3 e He)) as (? & ? & ? & ? & ?).
      congruence.
    + destruct Hl4 as [->|(_ & _ & ->)]; [by apply elem_of_nil in He|].
      by apply list_elem_of_singleton in He.
  - intros dec' [= <-] Hexec Hok. rewrite Hlog, (Hmark Hexec Hok).
    rewrite !elem_of_app. do 4 right. apply list_elem_of_singleton. done.
Qed.

End DiskBasedRuns.

Section FanOutClaims.
Context {FS : Type} (X : Externals FS).
Implicit Types w : World FS.

Lemma static_iterfield (n n' : NodeWrapper FS) :
  static n' = static n -> iterfield n' = iterfield n.
Proof. unfold static. by intros [= -> _ _ _ _ _ _]. Qed.

Lemma after_fanout_self b w : self (world (after_fanout X b w)) = self w.
Proof.
  destruct b as [|dec|dec]; try done. cbn [after_fanout].
  destruct (check_returncode_summary X (d_hashfile dec) (d_inputstr dec) w)
    as (o & w' & l & Hr & Hs & _).
  by rewrite (runs_world _ _ _ _ _ Hr).
Qed.

Lemma before_fanout_static w :
  static (self (world (before_fanout X w))) = static (self w).
Proof.
  destruct (disk_based (self w)) eqn:Hdb.
  - destruct (before_fanout_disk X w Hdb)
      as (dec & w1 & l1 & o & w2 & l2 & _ & _ & Hb & _ & Hs & _).
    by rewrite (runs_world _ _ _ _ _ Hb).
  - by rewrite (runs_world _ _ _ _ _ (before_fanout_direct X w Hdb)).
Qed.

End FanOutClaims.

(** ** Merging the outputs of the passes *)

Section Merge.
Implicit Types (k : string) (v : pyval) (acc o : Bunch).

Lemma bunch_get_app k (b1 b2 : Bunch) :
  bunch_get k (b1 ++ b2) =
  match bunch_get k b1 with Some v => Some v | None => bunch_get k b2 end.
Proof.
  induction b1 as [|[k' v'] b1 IH]; [done|]. cbn.
  by destruct (String.eqb k' k).
Qed.

Lemma bunch_wf_snoc o k v :
  bunch_wf (o ++ [(k, v)]) -> bunch_wf o /\ bunch_get k o = None.
Proof.
  unfold bunch_wf, bunch_keys. rewrite fmap_app. cbn.
  intros H. apply NoDup_app in H as (H1 & H2 & _). split; [done|].
  apply bunch_get_None. intros Hin. apply (H2 k Hin). set_solver.
Qed.

Lemma fold_merge_get i o : forall acc,
  bunch_wf o -> acc_ok i acc -> forall k,
  bunch_get k (fold_left (merge_output i) o acc) =
  match bunch_get k o with
  | Some v => Some (VList (seq_of acc k ++ [v]))
  | None => bunch_get k acc
  end.
Proof.
  induction o as [|[k0 v0] o IH] using rev_ind; intros acc Hwf Hok k.
  { done. }
  apply bunch_wf_snoc in Hwf as [Hwf Hk0].
  rewrite fold_left_app. cbn [fold_left].
  set (acc1 := fold_left (merge_output i) o acc).
  assert (forall k, bunch_get k acc1 =
            match bunch_get k o with
            | Some v => Some (VList (seq_of acc k ++ [v]))
            | None => bunch_get k acc
            end) as H1 by (intros; by apply IH).
  assert (merge_output i acc1 (k0, v0) =
          bunch_set k0 (VList (seq_of acc k0 ++ [v0])) acc1) as ->.
  { unfold merge_output. cbn [fst snd]. rewrite (H1 k0), Hk0.
    unfold seq_of.
    destruct (bunch_get k0 acc) as [v|] eqn:Hacc;
      [|by rewrite py_insert_end by (cbn; lia)].
    destruct (Hok k0 v Hacc) as (l & -> & Hl).
    by rewrite py_insert_end. }
  rewrite bunch_get_app. cbn [bunch_get].
  destruct (String.eqb k0 k) eqn:E.
  - apply String.eqb_eq in E. subst k0.
    rewrite bunch_get_set_eq, Hk0. done.
  - apply String.eqb_neq in E.
    rewrite bunch_get_set_ne by done. rewrite H1.
    by destruct (bunch_get k o).
Qed.

Lemma fold_merge_ok i o acc :
  bunch_wf o -> acc_ok i acc ->
  acc_ok (S i) (fold_left (merge_output i) o acc).
Proof.
  intros Hwf Hok k v. rewrite (fold_merge_get i o acc Hwf Hok k).
  destruct (bunch_get k o) as [v'|].
  - intros [= <-]. eexists. split; [done|].
    rewrite length_app. cbn. unfold seq_of.
    destruct (bunch_get k acc) as [v|] eqn:Hacc; [|cbn; lia].
    destruct (Hok k v Hacc) as (l & -> & Hl). lia.
  - intros Hacc. destruct (Hok k v Hacc) as (l & -> & Hl).
    exists l. split; [done|lia].
Qed.

Lemma merge_all_get outs : forall i acc,
  Forall bunch_wf outs -> acc_ok i acc -> forall k,
  bunch_get k (merge_all i outs acc) =
  match produced k outs with
  | [] => bunch_get k acc
  | vals => Some (VList (seq_of acc k ++ vals))
  end.
Proof.
  induction outs as [|o outs IH]; intros i acc Hwf Hok k; [done|].
  apply Forall_cons in Hwf as [Hwf Hwfs].
  cbn [merge_all]. rewrite IH; [|done|by apply fold_merge_ok].
  unfold produced. cbn [omap list_omap].
  pose proof (fold_merge_get i o acc Hwf Hok k) as Hget.
  unfold seq_of at 1. rewrite Hget.
  destruct (bunch_get k o) as [v|] eqn:Ho.
  - destruct (omap (bunch_get k) outs) as [|v1 vals].
    + done.
    + by rewrite <- app_assoc.
  - fold (seq_of acc k).
    by destruct (omap (bunch_get k) outs).
Qed.

Lemma produced_all k outs :
  (forall o, o ∈ outs -> is_Some (bunch_get k o)) ->
  length (produced k outs) = length outs /\
  forall i o, outs !! i = Some o -> produced k outs !! i = bunch_get k o.
Proof.
  unfold produced. induction outs as [|o outs IH]; intros Hall; [done|].
  destruct (Hall o) as [v Hv]; [left|].
  destruct IH as [IH1 IH2]; [intros o' Ho'; apply Hall; by right|].
  cbn [omap list_omap]. rewrite Hv. cbn. split; [by rewrite IH1|].
  intros [|i] o'; cbn.
  - by intros [= <-].
  - apply IH2.
Qed.

End Merge.

Section Aggregation.
Context {FS : Type}.
Implicit Types w : World FS.

(** C6 (amended). In a fan-out over a sequence, every name maps in the
    result to the list of the values that the passes gave it, in the
    order of the passes: the list is created by the first pass that
    produces the name, and a name no pass produces is not bound.  For a
    name that every pass produces, the list has one element for each
    element of the sequence and its [i]-th element comes from the
    [i]-th pass. *)
Theorem fanout_outputs_in_iteration_order (execute : bool) w field vs :
  iterfield (self w) = [field] ->
  bunch_get field (inputs (self w)) = Some (VList vs) ->
  let outs :=
    it_outputs <$>
    iterations execute (_interface (self w)) field (inputs (self w))
      (disk w) vs in
  Forall bunch_wf outs ->
  exists res,
    _result (self (world (_run_interface execute w))) = Some res /\
    length outs = length vs /\
    forall k,
      bunch_get k (outputs res) =
        match produced k outs with
        | [] => None
        | vals => Some (VList vals)
        end /\
      ((forall o, o ∈ outs -> is_Some (bunch_get k o)) ->
       length (produced k outs) = length vs /\
       forall i o, outs !! i = Some o ->
         produced k outs !! i = bunch_get k o).
Proof.
  intros Hit Hget outs Hwf.
  destruct (runs_run_interface_fanout execute w field (VList vs) Hit Hget)
    as (w' & Hr & _ & _ & Hres).
  cbn [itervals_of] in Hres. fold outs in Hres.
  rewrite (runs_world _ _ _ _ _ Hr), Hres.
  eexists. split; [done|].
  assert (length outs = length vs) as Hlen.
  { unfold outs. by rewrite length_fmap, length_iterations. }
  split; [done|]. intros k. cbn [outputs]. split.
  - rewrite (merge_all_get outs 0 [] Hwf); [|by intros ? ?].
    unfold seq_of. cbn. by destruct (produced k outs).
  - intros Hall. destruct (produced_all k outs Hall) as [H1 H2].
    split; [congruence|done].
Qed.

End Aggregation.

(** ** Construction *)

Section Construction.
Context {FS : Type}.

(** C7. Without an interface the constructor raises, and so it does
    when a node that is not disk based is given a base directory: in
    both cases it returns no node. *)
Theorem init_rejects_bad_configuration :
  (forall its itf db base ow nm,
     __init__ (FS:=FS) None its itf db base ow nm =
     Raise (PyException "Interface must be provided")) /\
  (forall (i : Interface FS) its itf dir ow nm,
     __init__ (Some i) its itf false (Some dir) ow nm =
     Raise (ValueError
              "Setting base_directory requires a disk based interface")).
Proof. split; reflexivity. Qed.

(** C3 (amended). The constructor does not look at [iterfield]: with an
    interface, and no base directory on a node that is not disk based,
    it returns a node that holds the list as given, however long.
    [_run_interface] then treats a list of two names or more as no
    iterfield at all and calls the interface once. *)
Theorem init_accepts_any_iterfield (i : Interface FS) its itf db base ow nm :
  (2 <= length itf)%nat ->
  db = true \/ base = None ->
  exists n,
    __init__ (Some i) its itf db base ow nm = Ok n /\
    iterfield n = itf /\
    forall execute d,
      out (_run_interface execute {| self := n; disk := d |}) = Ok tt /\
      log (_run_interface execute {| self := n; disk := d |}) =
        [event_of execute (pass execute i (i_inputs i) d).1].
Proof.
  intros Hlen Hcfg. unfold __init__.
  assert (negb db && bool_decide (base ≠ None) = false) as ->.
  { destruct Hcfg as [->| ->]; [done|].
    rewrite bool_decide_eq_false_2 by (by intros []). by destruct db. }
  eexists. split; [done|]. split; [done|]. intros execute d.
  match goal with |- context [{| self := ?n; disk := d |}] =>
    set (w := {| self := n; disk := d |}) end.
  assert (length (iterfield (self w)) ≠ 1%nat) as Hne by (cbn; lia).
  pose proof (runs_run_interface_single execute w Hne) as Hr.
  cbn zeta in Hr.
  by rewrite (runs_out _ _ _ _ _ Hr), (runs_log _ _ _ _ _ Hr).
Qed.

End Construction.

(** ** The hash of the inputs *)

Section Hash.
Context {FS : Type} (X : Externals FS).
Implicit Types w : World FS.

#[global] Instance entry_le_total : Total entry_le.
Proof. intros e1 e2. unfold entry_le. apply (total String.le). Qed.

#[global] Instance entry_le_trans : Transitive entry_le.
Proof. intros e1 e2 e3. unfold entry_le. apply transitivity. Qed.

(** Two well-formed bunches with the same bindings list the same
    entries. *)
Lemma bunch_same_bindings_perm (b1 b2 : Bunch) :
  bunch_wf b1 -> bunch_wf b2 ->
  (forall k, bunch_get k b1 = bunch_get k b2) ->
  b1 ≡ₚ b2.
Proof.
  intros Hwf1 Hwf2 Hsame. apply NoDup_Permutation.
  - by apply (NoDup_fmap_1 fst).
  - by apply (NoDup_fmap_1 fst).
  - intros [k v]. split; intros Hin.
    + apply bunch_get_Some_elem. rewrite <- Hsame. by apply bunch_elem_get.
    + apply bunch_get_Some_elem. rewrite Hsame. by apply bunch_elem_get.
Qed.

Lemma sorted_entries_unique (b1 b2 : Bunch) :
  bunch_wf b1 -> b1 ≡ₚ b2 ->
  merge_sort entry_le b1 = merge_sort entry_le b2.
Proof.
  intros Hwf Hperm.
  apply (Sorted_unique_strong entry_le).
  - intros [k1 v1] [k2 v2] H1 H2 Hle Hge.
    rewrite merge_sort_Permutation in H1.
    rewrite merge_sort_Permutation, <- Hperm in H2.
    unfold entry_le in *. cbn in *.
    assert (k1 = k2) as -> by (by apply (anti_symm String.le)).
    apply (bunch_elem_get _ _ _ Hwf) in H1, H2. congruence.
  - apply Sorted_merge_sort, _.
  - apply Sorted_merge_sort, _.
  - by rewrite !merge_sort_Permutation.
Qed.

Lemma str_bunch_canonical repr (b1 b2 : Bunch) :
  bunch_wf b1 -> bunch_wf b2 ->
  (forall k, bunch_get k b1 = bunch_get k b2) ->
  str_bunch repr b1 = str_bunch repr b2.
Proof.
  intros Hwf1 Hwf2 Hsame. unfold str_bunch.
  by rewrite (sorted_entries_unique b1 b2 Hwf1
                (bunch_same_bindings_perm b1 b2 Hwf1 Hwf2 Hsame)).
Qed.

(** C4. Two calls of [hash_inputs] in a row return the same digest and
    leave the node as it was; and two nodes whose inputs bind the same
    names to the same values have the same digest, in whatever order
    their dictionaries list the entries. *)
Theorem hash_inputs_deterministic_and_canonical :
  (forall w,
     let twice :=
       bind (hash_inputs X) (fun h1 =>
         bind (hash_inputs X) (fun h2 => ret (h1, h2))) in
     out (twice w) =
       Ok (md5_hexdigest X (str_inputs X (self w)),
           md5_hexdigest X (str_inputs X (self w))) /\
     world (twice w) = w) /\
  (forall w1 w2,
     bunch_wf (inputs (self w1)) ->
     bunch_wf (inputs (self w2)) ->
     (forall k,
        bunch_get k (inputs (self w1)) = bunch_get k (inputs (self w2))) ->
     out (hash_inputs X w1) = out (hash_inputs X w2)).
Proof.
  split.
  - intros w. cbn zeta.
    assert (runs (bind (hash_inputs X) (fun h1 =>
                    bind (hash_inputs X) (fun h2 => ret (h1, h2)))) w
              (Ok (md5_hexdigest X (str_inputs X (self w)),
                   md5_hexdigest X (str_inputs X (self w)))) w []) as Hr.
    { run_start.
      { run_head runs_hash_inputs. run_head runs_hash_inputs. run_prim. }
      reflexivity. }
    by rewrite (runs_out _ _ _ _ _ Hr), (runs_world _ _ _ _ _ Hr).
  - intros w1 w2 Hwf1 Hwf2 Hsame.
    rewrite (runs_out _ _ _ _ _ (runs_hash_inputs X w1)).
    rewrite (runs_out _ _ _ _ _ (runs_hash_inputs X w2)).
    unfold str_inputs. by rewrite (str_bunch_canonical _ _ _ Hwf1 Hwf2 Hsame).
Qed.

End Hash.

(** ** Deep copies *)

Section DeepCopy.
Import Store.
Implicit Types (h : heap) (v : hval) (t : pyval).

Lemma hbunch_get_set_eq k v (b : hbunch) :
  hbunch_get k (hbunch_set k v b) = Some v.
Proof.
  induction b as [|[k' v'] b IH]; cbn.
  - by rewrite String.eqb_refl.
  - destruct (String.eqb k' k) eqn:E; cbn.
    + by rewrite String.eqb_refl.
    + by rewrite E.
Qed.

Lemma reify_cons_ref f h l :
  reify (S f) h (HRef l) =
  match h !! l with
  | Some items => VList <$> mapM (reify f h) items
  | None => None
  end.
Proof. done. Qed.

(** A value reads the same in a larger heap. *)
Lemma reify_mono fuel : forall h h' v t,
  h ⊆ h' -> reify fuel h v = Some t -> reify fuel h' v = Some t.
Proof.
  induction fuel as [|f IH]; intros h h' v t Hsub.
  - by destruct v.
  - destruct v as [| | | |l]; try done.
    rewrite !reify_cons_ref.
    destruct (h !! l) as [items|] eqn:Hl; [|done].
    rewrite (lookup_weaken _ _ _ _ Hl Hsub).
    destruct (mapM (reify f h) items) as [ts|] eqn:Hm; [|done].
    intros [= <-].
    apply mapM_Some in Hm.
    assert (mapM (reify f h') items = Some ts) as ->; [|done].
    apply mapM_Some. eapply Forall2_impl; [exact Hm|].
    intros v t. by apply IH.
Qed.

Lemma copy_items_spec (cp : heap -> hval -> option (heap * hval))
  (rd : heap -> hval -> option pyval) :
  (forall h h' v t, h ⊆ h' -> rd h v = Some t -> rd h' v = Some t) ->
  (forall h v t, rd h v = Some t ->
     exists h' v', cp h v = Some (h', v') /\ h ⊆ h' /\
       forall h'', agree_on_new h h' h'' -> rd h'' v' = Some t) ->
  forall items h ts,
    Forall2 (fun v t => rd h v = Some t) items ts ->
    exists h' items',
      copy_items cp h items = Some (h', items') /\ h ⊆ h' /\
      forall h'', agree_on_new h h' h'' ->
        Forall2 (fun v t => rd h'' v = Some t) items' ts.
Proof.
  intros Hmono Hcp. induction items as [|v vs IH]; intros h ts Hts.
  - apply Forall2_nil_inv_l in Hts as ->.
    exists h, []. split; [done|]. split; [done|]. constructor.
  - apply Forall2_cons_inv_l in Hts as (t & ts' & Ht & Hts' & ->).
    destruct (Hcp h v t Ht) as (ha & v' & Hc & Hsub & Hind).
    destruct (IH ha ts') as (h1 & vs' & Hcs & Hsub1 & Hinds).
    { eapply Forall2_impl; [exact Hts'|]. intros ? ?. by apply Hmono. }
    exists h1, (v' :: vs'). cbn. rewrite Hc, Hcs.
    split; [done|]. split; [by etrans|].
    intros h'' Hag. constructor.
    + apply Hind. intros l Hl Hnl.
      rewrite (Hag l); [|by eapply subseteq_dom|done].
      apply elem_of_dom in Hl as [x Hx].
      by rewrite Hx, (lookup_weaken _ _ _ _ Hx Hsub1).
    + apply Hinds. intros l Hl Hnl. apply Hag; [done|].
      intros Hin. apply Hnl. by eapply subseteq_dom.
Qed.

(** A value that can be read is copied, the copy reads the same, and it
    goes on reading the same whatever becomes of the objects that were
    there before the copy. *)
Lemma deepcopy_spec fuel : forall h v t,
  reify fuel h v = Some t ->
  exists h' v',
    deepcopy fuel h v = Some (h', v') /\ h ⊆ h' /\
    forall h'', agree_on_new h h' h'' -> reify fuel h'' v' = Some t.
Proof.
  induction fuel as [|f IH]; intros h v t Ht.
  - destruct v; try done; exists h; eexists; (split; [done|]);
      (split; [done|]); by intros.
  - destruct v as [| | | |l];
      try (exists h; eexists; (split; [done|]); (split; [done|]); by intros).
    rewrite reify_cons_ref in Ht.
    destruct (h !! l) as [items|] eqn:Hl; [|done].
    destruct (mapM (reify f h) items) as [ts|] eqn:Hm; [|done].
    injection Ht as <-. apply mapM_Some in Hm.
    destruct (copy_items_spec (deepcopy f) (reify f) (reify_mono f) IH
                items h ts Hm) as (h1 & items' & Hc & Hsub & Hind).
    set (l' := fresh (dom h1)).
    assert (l' ∉ dom h1) as Hfresh by apply is_fresh.
    exists (<[l' := items']> h1), (HRef l'). cbn. rewrite Hl, Hc.
    split; [done|]. split.
    { etrans; [exact Hsub|]. apply insert_subseteq.
      by apply not_elem_of_dom. }
    intros h'' Hag. rewrite (Hag l').
    + rewrite lookup_insert_eq.
      assert (mapM (reify f h'') items' = Some ts) as ->; [|done].
      apply mapM_Some. apply Hind. intros l0 Hl0 Hnl0.
      rewrite (Hag l0); [|set_solver|done].
      rewrite lookup_insert_ne; [done|]. intros ->. done.
    + set_solver.
    + intros Hin. apply Hfresh. by eapply subseteq_dom.
Qed.

(** C9. [set_input] stores a deep copy of the value it is given, or of
    the value the callable returns for the given arguments: the input is
    bound to a value that reads as the supplied one did at the call, and
    that reads the same after any later change to the objects that
    existed at the call. *)
Theorem set_input_stores_independent_copy fuel parameter val args kwargs
  h ins h1 v t :
  supplied val args kwargs h = (h1, v) ->
  reify fuel h1 v = Some t ->
  exists h2 ins' v',
    set_input fuel parameter val args kwargs h ins = Some (h2, ins') /\
    hbunch_get parameter ins' = Some v' /\
    reify fuel h2 v' = Some t /\
    forall h3, external_mutation (dom h1) h2 h3 -> reify fuel h3 v' = Some t.
Proof.
  intros Hsup Ht.
  destruct (deepcopy_spec fuel h1 v t Ht) as (h2 & v' & Hc & Hsub & Hind).
  exists h2, (hbunch_set parameter v' ins), v'.
  split; [|split; [apply hbunch_get_set_eq|split]].
  - unfold set_input, supplied in *. destruct val as [v0|f].
    + injection Hsup as <- <-. by rewrite Hc.
    + rewrite Hsup. by rewrite Hc.
  - apply Hind. by intros l _ _.
  - intros h3 Hmut. apply Hind. exact Hmut.
Qed.

End DeepCopy.

(** ** The claims on the simulated platform *)

Section Instances.
Import Sim.

(** C1, as stated, fails: with [overwrite] true the node takes the
    execute branch, yet over an empty iterfield sequence it returns
    without having executed (or aggregated) anything. *)
Lemma overwrite_over_empty_sequence_executes_nothing :
  disk_based (self w_empty) = true /\
  overwrite (self w_empty) = Some true /\
  is_ok (out (run X w_empty)) /\
  count_events is_execute (log (run X w_empty)) = 0%nat /\
  count_events is_aggregate (log (run X w_empty)) = 0%nat.
Proof. vm_compute. done. Qed.

(** The first run of [w_fan] executes twice; the second, which finds
    the marker, aggregates twice. *)
Example run_twice_executes_once :
  count_events is_execute (log (run X w_fan)) = 2%nat /\
  count_events is_execute (log (run X (world (run X w_fan)))) = 0%nat /\
  count_events is_aggregate (log (run X (world (run X w_fan)))) = 2%nat.
Proof. vm_compute. done. Qed.

(** C2: on a fan-out, a failed element makes [run] raise while it
    builds its message, where the same node without iterfield raises the
    failure that names the node, the inputs and the captured stderr.  No
    marker is written in either case. *)
Theorem fanout_failure_raises_attribute_error :
  out (run X w_fail) =
    Raise (AttributeError "'list' object has no attribute 'stderr'") /\
  count_events is_write_marker (log (run X w_fail)) = 0%nat /\
  out (run X w_fail_single) =
    Raise (StandardError
             (failure_message X (self (world (run X w_fail_single)))
                "echo failed")) /\
  count_events is_write_marker (log (run X w_fail_single)) = 0%nat.
Proof. vm_compute. done. Qed.

(** C2, second defect of the same aggregation: the return codes of a
    fan-out are folded from zero with [max], so that an element killed
    by a signal (a negative code) counts as a success and the marker is
    written. *)
Lemma fanout_killed_element_writes_marker :
  (runtime <$> _result (self (world (run X w_killed)))) =
    Some (SList [{| returncode := -11; stderr := "echo failed" |}]) /\
  fanout_returncode [{| returncode := -11; stderr := "echo failed" |}] = 0 /\
  count_events is_write_marker (log (run X w_killed)) = 1%nat.
Proof. vm_compute. done. Qed.

(** C3, as stated, fails: the constructor returns a node for an
    iterfield of two names. *)
Lemma init_accepts_two_iterfields :
  is_ok (__init__ (Some echo) [] ["x"; "rc"] false None false None).
Proof. vm_compute. done. Qed.

Lemma init_accepts_any_iterfield_witness :
  (2 <= length ["x"; "rc"])%nat /\
  (false = true \/ @None string = None) /\
  exists n,
    __init__ (Some echo) [] ["x"; "rc"] false None false None = Ok n /\
    iterfield n = ["x"; "rc"] /\
    forall execute d,
      out (_run_interface execute {| self := n; disk := d |}) = Ok tt /\
      log (_run_interface execute {| self := n; disk := d |}) =
        [event_of execute (pass execute echo (i_inputs echo) d).1].
Proof.
  split; [cbn; lia|]. split; [by right|].
  exact (init_accepts_any_iterfield echo [] ["x"; "rc"] false None false None
           (le_n 2) (or_intror eq_refl)).
Defined.

(** C5, as stated, fails: [run] assigns [cwd] on a disk-based node, so
    an iterfield [cwd] that was bound to a sequence is a scalar when
    [run] returns. *)
Lemma run_changes_shape_of_cwd_iterfield :
  iterfield (self w_cwd) = ["cwd"] /\
  bunch_get "cwd" (inputs (self w_cwd)) = Some (VList [VStr "a"; VStr "b"]) /\
  is_ok (out (run X w_cwd)) /\
  bunch_get "cwd" (inputs (self (world (run X w_cwd)))) =
    Some (VStr "/base/Echo.sim").
Proof. vm_compute. done. Qed.

(** C6, as stated, fails: the first pass of [w_sparse] produces no
    [out], so the list bound to [out] has one element for a sequence of
    two, and its element 0 comes from pass 1. *)
Lemma sparse_outputs_shift_positions :
  iterfield (self w_sparse) = ["x"] /\
  bunch_get "x" (inputs (self w_sparse)) = Some (VList [VNone; VStr "b"]) /\
  (it_outputs <$>
   iterations true (_interface (self w_sparse)) "x" (inputs (self w_sparse))
     (disk w_sparse) [VNone; VStr "b"]) = [[]; [("out", VStr "b")]] /\
  (outputs <$> _result (self (world (_run_interface true w_sparse)))) =
    Some [("out", VList [VStr "b"])].
Proof. vm_compute. done. Qed.

Lemma fanout_outputs_in_iteration_order_witness :
  iterfield (self w_fan) = ["x"] /\
  bunch_get "x" (inputs (self w_fan)) = Some (VList [VStr "a"; VStr "b"]) /\
  let outs :=
    it_outputs <$>
    iterations true (_interface (self w_fan)) "x" (inputs (self w_fan))
      (disk w_fan) [VStr "a"; VStr "b"] in
  Forall bunch_wf outs /\
  exists res,
    _result (self (world (_run_interface true w_fan))) = Some res /\
    length outs = length [VStr "a"; VStr "b"] /\
    forall k,
      bunch_get k (outputs res) =
        match produced k outs with
        | [] => None
        | vals => Some (VList vals)
        end /\
      ((forall o, o ∈ outs -> is_Some (bunch_get k o)) ->
       length (produced k outs) = length [VStr "a"; VStr "b"] /\
       forall i o, outs !! i = Some o ->
         produced k outs !! i = bunch_get k o).
Proof.
  assert (Forall bunch_wf
            (it_outputs <$>
             iterations true (_interface (self w_fan)) "x"
               (inputs (self w_fan)) (disk w_fan) [VStr "a"; VStr "b"]))
    as Hwf.
  { vm_compute. repeat constructor; set_solver. }
  split; [reflexivity|]. split; [reflexivity|]. split; [exact Hwf|].
  exact (fanout_outputs_in_iteration_order true w_fan "x"
           [VStr "a"; VStr "b"] eq_refl eq_refl Hwf).
Defined.

(** The second run of [w_fan] finds the marker and cleans nothing. *)
Example second_run_cleans_nothing :
  count_events is_cleandir (log (run X w_fan)) = 1%nat /\
  count_events is_cleandir (log (run X (world (run X w_fan)))) = 0%nat.
Proof. vm_compute. done. Qed.

Lemma marker_records_inputs_before_staging_witness :
  disk_based (self w_stage) = true /\
  let ins0 :=
    bunch_set "cwd" (VStr (outdir_of X w_stage)) (inputs (self w_stage)) in
  let inputstr := str_bunch (repr X) ins0 in
  let hashfile :=
    os_path_join X (outdir_of X w_stage)
      (marker_name (md5_hexdigest X inputstr)) in
  inputs (self (world (decide_run X w_stage))) = ins0 /\
  (forall e, e ∈ log (run X w_stage) -> is_write_marker e = true ->
     e = EvWriteMarker hashfile inputstr) /\
  (forall dec, out (decide_run X w_stage) = Ok dec -> d_execute dec = true ->
     is_ok (out (run X w_stage)) ->
     EvWriteMarker hashfile inputstr ∈ log (run X w_stage)).
Proof.
  split; [reflexivity|].
  exact (marker_records_inputs_before_staging X w_stage eq_refl).
Defined.

(** On [w_stage] the marker holds the path the file had before it was
    staged, and the input is bound to the staged path when [run]
    returns. *)
Example marker_holds_the_original_path :
  EvWriteMarker
    "/base/Copier.sim/_0xBunch(cwd='/base/Copier.sim', infile='/data/a.nii').txt"
    "Bunch(cwd='/base/Copier.sim', infile='/data/a.nii')"
    ∈ log (run X w_stage) /\
  bunch_get "infile" (inputs (self (world (run X w_stage)))) =
    Some (VStr "/base/Copier.sim/a.nii").
Proof. vm_compute. split; [|done]. set_solver. Qed.

(** Two nodes whose inputs list the same bindings in different
    orders. *)
Lemma hash_inputs_deterministic_and_canonical_witness :
  let w1 := world_of echo [("x", VStr "a"); ("rc", VInt 0); ("cwd", VNone)]
              [] false None false in
  let w2 := world_of echo [("cwd", VNone); ("x", VStr "a"); ("rc", VInt 0)]
              [] false None false in
  inputs (self w1) ≠ inputs (self w2) /\
  out (hash_inputs X w1) = out (hash_inputs X w2).
Proof.
  cbn zeta. split; [done|].
  apply (proj2 (hash_inputs_deterministic_and_canonical X)).
  - vm_compute. repeat constructor; set_solver.
  - vm_compute. repeat constructor; set_solver.
  - intros k.
    change (bunch_get k [("x", VStr "a"); ("rc", VInt 0); ("cwd", VNone)] =
            bunch_get k [("cwd", VNone); ("x", VStr "a"); ("rc", VInt 0)]).
    cbn [bunch_get].
    destruct (String.eqb_spec "x" k) as [<-|?]; [done|].
    destruct (String.eqb_spec "rc" k) as [<-|?]; [done|].
    by destruct (String.eqb_spec "cwd" k) as [<-|?].
Defined.

End Instances.

Section StoreInstances.
Import Store.

(** The caller's list at location 1 is handed to [set_input] and then
    emptied: the input still reads [[1, 2]]. *)
Lemma set_input_stores_independent_copy_witness :
  let h : heap := {[ 1%positive := [HInt 1; HInt 2] ]} in
  supplied (Literal (HRef 1)) [] [] h = (h, HRef 1%positive) /\
  reify 2 h (HRef 1) = Some (VList [VInt 1; VInt 2]) /\
  exists h2 ins' v',
    set_input 2 "x" (Literal (HRef 1)) [] [] h [] = Some (h2, ins') /\
    hbunch_get "x" ins' = Some v' /\
    reify 2 h2 v' = Some (VList [VInt 1; VInt 2]) /\
    forall h3, external_mutation (dom h) h2 h3 ->
      reify 2 h3 v' = Some (VList [VInt 1; VInt 2]).
Proof.
  cbn zeta. split; [reflexivity|]. split; [reflexivity|].
  exact (set_input_stores_independent_copy 2 "x" (Literal (HRef 1)) [] []
           {[ 1%positive := [HInt 1; HInt 2] ]} []
           {[ 1%positive := [HInt 1; HInt 2] ]} (HRef 1)
           (VList [VInt 1; VInt 2]) eq_refl eq_refl).
Defined.

(** [update] stores the reference it is given: the same change by the
    caller shows through the input. *)
Example update_shares_the_value :
  let h : heap := {[ 1%positive := [HInt 1; HInt 2] ]} in
  let ins := update [("x", HRef 1)] [] in
  let h' : heap := <[ 1%positive := [] ]> h in
  (hbunch_get "x" ins ≫= reify 2 h) = Some (VList [VInt 1; VInt 2]) /\
  (hbunch_get "x" ins ≫= reify 2 h') = Some (VList []).
Proof. cbn zeta. split; reflexivity. Qed.

End StoreInstances.

(** * Further properties *)

(** ** What the blocks of [run] leave alone

    Most of [run] only assigns inputs, the result and the file system.
    A relation between worlds that none of these assignments can break
    is kept by every block but [_output_directory]. *)

Section Insensitive.
Context {FS : Type} (X : Externals FS).
Variable R : relation (World FS).
Context `{!PreOrder R}.
Hypothesis R_inputs :
  forall w b, R w {| self := set_inputs b (self w); disk := disk w |}.
Hypothesis R_result :
  forall w r, R w {| self := set_result r (self w); disk := disk w |}.
Hypothesis R_disk : forall w d, R w {| self := self w; disk := d |}.

Lemma touches_getitem k : respects R any_event (getitem k).
Proof.
  unfold getitem. rapply respects_bind; [rapply respects_get_self|].
  intros s. destruct (bunch_get k (inputs s));
    [rapply respects_ret|rapply respects_raise].
Qed.

Lemma touches_setitem k v : respects R any_event (setitem k v).
Proof. unfold setitem. rapply respects_modify_self. intros w. apply R_inputs. Qed.

Lemma touches_set_input k val args kwargs :
  respects R any_event (set_input k val args kwargs).
Proof. destruct val; apply touches_setitem. Qed.

Lemma touches_interface_run : respects R any_event interface_run.
Proof.
  unfold interface_run. rapply respects_bind; [rapply respects_get_self|].
  intros s. rapply respects_bind; [rapply respects_get_disk|]. intros d.
  destruct (i_run _ _ d) as [r d'].
  rapply respects_bind; [(rapply respects_emit; done)|]. intros _.
  rapply respects_bind; [(rapply respects_put_disk; intros w; apply R_disk)|].
  intros _. rapply respects_ret.
Qed.

Lemma touches_interface_aggregate_outputs :
  respects R any_event interface_aggregate_outputs.
Proof.
  unfold interface_aggregate_outputs.
  rapply respects_bind; [rapply respects_get_self|]. intros s.
  rapply respects_bind; [rapply respects_get_disk|]. intros d.
  rapply respects_bind; [(rapply respects_emit; done)|]. intros _.
  rapply respects_ret.
Qed.

Lemma touches_result_insert i r : respects R any_event (result_insert i r).
Proof.
  unfold result_insert. rapply respects_bind; [rapply respects_get_self|].
  intros s. destruct (_result s) as [res|]; [|rapply respects_raise].
  destruct (interface res), (runtime res); try rapply respects_raise.
  rapply respects_modify_self. intros w. apply R_result.
Qed.

Lemma touches_result_merge i outs : respects R any_event (result_merge i outs).
Proof.
  unfold result_merge. rapply respects_bind; [rapply respects_get_self|].
  intros s. destruct (_result s) as [res|]; [|rapply respects_raise].
  rapply respects_modify_self. intros w. apply R_result.
Qed.

Lemma touches_fanout_step execute field i v :
  respects R any_event (fanout_step execute field i v).
Proof.
  unfold fanout_step. rapply respects_bind; [apply touches_set_input|].
  intros _. rapply respects_bind; [|intros outs; apply touches_result_merge].
  destruct execute; [|apply touches_interface_aggregate_outputs].
  rapply respects_bind; [apply touches_interface_run|]. intros r.
  rapply respects_bind; [apply touches_result_insert|]. intros _.
  rapply respects_ret.
Qed.

Lemma touches_run_interface execute :
  respects R any_event (_run_interface execute).
Proof.
  assert (respects R any_event
            (if execute
             then bind interface_run (fun r =>
                    modify_self (set_result (Some (of_run r))))
             else bind interface_aggregate_outputs (fun aggouts =>
                    modify_self (set_result (Some
                      {| interface := SNone; runtime := SNone;
                         outputs := aggouts |}))))) as Hsingle.
  { destruct execute.
    - rapply respects_bind; [apply touches_interface_run|]. intros r.
      rapply respects_modify_self. intros w. apply R_result.
    - rapply respects_bind; [apply touches_interface_aggregate_outputs|].
      intros a. rapply respects_modify_self. intros w. apply R_result. }
  unfold _run_interface. rapply respects_bind; [rapply respects_get_self|].
  intros s. destruct (iterfield s) as [|field [|? ?]]; [exact Hsingle| |exact Hsingle].
  rapply respects_bind; [apply touches_getitem|]. intros itervals. cbn zeta.
  rapply respects_bind;
    [(rapply respects_modify_self; intros w; apply R_result)|]. intros _.
  rapply respects_bind;
    [(rapply respects_for_enumerate; intros; apply touches_fanout_step)|].
  intros _. destruct (negb (is_list itervals)); [|apply touches_set_input].
  destruct (py_pop _); [apply touches_set_input|rapply respects_raise].
Qed.

Lemma touches_make_output_dir outdir :
  respects R any_event (_make_output_dir X outdir).
Proof.
  unfold _make_output_dir. rapply respects_bind; [rapply respects_get_disk|].
  intros d. destruct (os_path_exists X outdir d); [rapply respects_raise|].
  destruct (os_mkdir X outdir d) as [d'|]; [|rapply respects_raise].
  rapply respects_bind; [(rapply respects_put_disk; intros w; apply R_disk)|].
  intros _. rapply respects_bind; [(rapply respects_emit; done)|]. intros _.
  rapply respects_ret.
Qed.

Lemma touches_hash_inputs : respects R any_event (hash_inputs X).
Proof.
  unfold hash_inputs. rapply respects_bind; [rapply respects_get_self|].
  intros s. rapply respects_ret.
Qed.

Lemma touches_stage_inputs outdir :
  respects R any_event (stage_inputs X outdir).
Proof.
  unfold stage_inputs.
  rapply respects_bind; [rapply respects_get_self|]. intros s.
  rapply respects_for_each. intros info.
  rapply respects_bind; [apply touches_getitem|]. intros files.
  assert (respects R any_event
    (bind get_disk (fun d =>
       let (newfiles, d') :=
         copyfiles X (filename_to_list X files) (VList [VStr outdir])
           (copy info) d in
       bind (emit (EvCopyfiles (filename_to_list X files)
                     (VList [VStr outdir]) (copy info)))
         (fun _ => bind (put_disk d')
            (fun _ => setitem (key info) (list_to_filename X newfiles))))))
    as Hbody.
  { rapply respects_bind; [rapply respects_get_disk|]. intros d.
    destruct (copyfiles X _ _ _ d) as [newfiles d'].
    rapply respects_bind; [(rapply respects_emit; done)|]. intros _.
    rapply respects_bind;
      [(rapply respects_put_disk; intros w; apply R_disk)|]. intros _.
    apply touches_setitem. }
  destruct files; [rapply respects_ret|exact Hbody..].
Qed.

Lemma touches_restage_inputs outdir :
  respects R any_event (restage_inputs X outdir).
Proof.
  unfold restage_inputs.
  rapply respects_bind; [rapply respects_get_self|]. intros s.
  rapply respects_for_each. intros info.
  rapply respects_bind; [apply touches_getitem|]. intros files.
  assert (forall infiles, respects R any_event
    (for_enumerate 0 infiles (fun i f =>
       bind get_disk (fun d =>
         bind (if os_path_exists X (fname_presuffix X f outdir) d
               then ret tt
               else
                 let (_, d') :=
                   copyfiles X f (VStr (fname_presuffix X f outdir))
                     (copy info) d in
                 bind (emit (EvCopyfiles f
                               (VStr (fname_presuffix X f outdir))
                               (copy info)))
                   (fun _ => put_disk d'))
           (fun _ =>
              if is_list files then
                bind (getitem (key info)) (fun cur =>
                  match cur with
                  | VList l =>
                      if bool_decide (i < length l)%nat then
                        setitem (key info)
                          (VList (<[i := VStr (fname_presuffix X f outdir)]> l))
                      else
                        raise (IndexError
                                 "list assignment index out of range")
                  | _ =>
                      raise (TypeError
                               "object does not support item assignment")
                  end)
              else
                setitem (key info) (VStr (fname_presuffix X f outdir)))))))
    as Hbody.
  { intros infiles. rapply respects_for_enumerate. intros i f.
    rapply respects_bind; [rapply respects_get_disk|]. intros d.
    rapply respects_bind.
    - destruct (os_path_exists X _ d); [rapply respects_ret|].
      destruct (copyfiles X f _ _ d) as [? d'].
      rapply respects_bind; [(rapply respects_emit; done)|]. intros _.
      rapply respects_put_disk. intros w. apply R_disk.
    - intros _. destruct (is_list files); [|apply touches_setitem].
      rapply respects_bind; [apply touches_getitem|]. intros cur.
      destruct cur; try rapply respects_raise.
      destruct (bool_decide _); [apply touches_setitem|rapply respects_raise]. }
  destruct files; [rapply respects_ret|apply Hbody..].
Qed.

Lemma touches_check_returncode hashfile inputstr :
  respects R any_event (check_returncode X hashfile inputstr).
Proof.
  unfold check_returncode. rapply respects_bind; [rapply respects_get_self|].
  intros s. destruct (_result s) as [res|]; [|rapply respects_raise].
  rapply respects_bind.
  { destruct (runtime res); [rapply respects_raise|rapply respects_ret..]. }
  intros rc. destruct (Z.eqb rc 0).
  - rapply respects_bind; [rapply respects_get_disk|]. intros d.
    rapply respects_bind; [(rapply respects_emit; done)|]. intros _.
    destruct (write_text X hashfile inputstr d);
      [rapply respects_put_disk; intros w; apply R_disk|rapply respects_ret].
  - destruct (runtime res); rapply respects_raise.
Qed.

Lemma touches_execute_path outdir hashfile inputstr :
  respects R any_event (execute_path X outdir hashfile inputstr).
Proof.
  unfold execute_path. rapply respects_bind; [rapply respects_get_disk|].
  intros d. rapply respects_bind; [(rapply respects_emit; done)|]. intros _.
  rapply respects_bind; [(rapply respects_put_disk; intros w; apply R_disk)|].
  intros _. rapply respects_bind; [apply touches_stage_inputs|]. intros _.
  rapply respects_bind; [apply touches_run_interface|]. intros _.
  apply touches_check_returncode.
Qed.

Lemma touches_skip_path outdir : respects R any_event (skip_path X outdir).
Proof.
  unfold skip_path. rapply respects_bind; [apply touches_restage_inputs|].
  intros _. apply touches_run_interface.
Qed.

(** All of [run] keeps the relation as soon as [_output_directory]
    does. *)
Lemma touches_run :
  respects R any_event (_output_directory X) -> respects R any_event (run X).
Proof.
  intros Hod. unfold run. rapply respects_bind; [rapply respects_get_self|].
  intros s. rapply respects_bind.
  2:{ intros _. rapply respects_bind; [rapply respects_get_self|].
      intros s'. rapply respects_ret. }
  destruct (disk_based s); [|apply touches_run_interface].
  unfold run_disk_based. rapply respects_bind.
  2:{ intros dec. destruct (d_execute dec);
        [apply touches_execute_path|apply touches_skip_path]. }
  unfold decide_run. rapply respects_bind.
  { unfold prepare_outdir. rapply respects_try_except.
    - rapply respects_bind; [exact Hod|]. intros outdir.
      rapply respects_try_except; [apply touches_make_output_dir|].
      intros e. rapply respects_ret.
    - intros e. rapply respects_raise. }
  intros outdir. rapply respects_bind; [apply touches_setitem|]. intros _.
  rapply respects_bind; [apply touches_hash_inputs|]. intros h.
  rapply respects_bind; [rapply respects_get_self|]. intros s1.
  cbn zeta. rapply respects_bind; [rapply respects_get_disk|]. intros d.
  rapply respects_ret.
Qed.

End Insensitive.

(** ** The output directory, exactly *)

Section OutputDirectory.
Context {FS : Type} (X : Externals FS).
Implicit Types w : World FS.

Lemma runs_output_directory_exact w :
  runs (_output_directory X) w (Ok (outdir_of X w)) (settled X w)
    match output_directory_base (self w) with
    | Some _ => []
    | None => [EvMkdtemp (root_of X w)]
    end.
Proof.
  unfold _output_directory, outdir_of, settled, root_of.
  destruct (output_directory_base (self w)) as [root|] eqn:Hb.
  - run_start.
    { run_step. rewrite Hb. run_step. run_prim. }
    reflexivity.
  - destruct (mkdtemp X (disk w)) as [root d'] eqn:Hm.
    run_start.
    { run_step. rewrite Hb. eapply runs_seq.
      - run_step. rewrite Hm. run_step. run_step. run_step. run_prim.
      - cbn beta. run_prim. }
    reflexivity.
Qed.

Lemma runs_make_output_dir_exact outdir w :
  runs (_make_output_dir X outdir) w
    (if os_path_exists X outdir (disk w)
     then Raise (IOError ("Directory " ++ outdir ++ " exists"))
     else match os_mkdir X outdir (disk w) with
          | Some _ => Ok outdir
          | None => Raise (OSError outdir)
          end)
    (if os_path_exists X outdir (disk w) then w
     else match os_mkdir X outdir (disk w) with
          | Some d' => {| self := self w; disk := d' |}
          | None => w
          end)
    (if os_path_exists X outdir (disk w) then []
     else match os_mkdir X outdir (disk w) with
          | Some _ => [EvMkdir outdir]
          | None => []
          end).
Proof.
  unfold _make_output_dir.
  destruct (os_path_exists X outdir (disk w)) eqn:Hex.
  - run_start.
    { run_step. rewrite Hex. run_prim. }
    reflexivity.
  - destruct (os_mkdir X outdir (disk w)) as [d'|] eqn:Hmk.
    + run_start.
      { run_step. rewrite Hex, Hmk. run_step. run_step. run_prim. }
      reflexivity.
    + run_start.
      { run_step. rewrite Hex, Hmk. run_prim. }
      reflexivity.
Qed.

Lemma runs_prepare_outdir_exact w :
  runs (prepare_outdir X) w (Ok (outdir_of X w)) (prepared X w)
    (log (_output_directory X w) ++
     log (_make_output_dir X (outdir_of X w) (settled X w))).
Proof.
  pose proof (runs_output_directory_exact w) as H0.
  pose proof (runs_make_output_dir_exact (outdir_of X w) (settled X w)) as H1.
  rewrite (runs_log _ _ _ _ _ H0), (runs_log _ _ _ _ _ H1).
  unfold prepare_outdir, prepared. cbn zeta. apply runs_try_ok.
  eapply runs_seq; [exact H0|]. cbn beta.
  destruct (os_path_exists X (outdir_of X w) (disk (settled X w))).
  - eapply runs_try_raise; [exact H1|apply runs_ret|apply app_nil_r].
  - destruct (os_mkdir X (outdir_of X w) (disk (settled X w))).
    + by apply runs_try_ok.
    + eapply runs_try_raise; [exact H1|apply runs_ret|apply app_nil_r].
Qed.

Lemma settled_inputs w : inputs (self (settled X w)) = inputs (self w).
Proof. unfold settled. by destruct (output_directory_base (self w)). Qed.

Lemma settled_result w : _result (self (settled X w)) = _result (self w).
Proof. unfold settled. by destruct (output_directory_base (self w)). Qed.

Lemma settled_configuration w :
  configuration (self (settled X w)) = configuration (self w).
Proof. unfold settled. by destruct (output_directory_base (self w)). Qed.

Lemma settled_base w :
  output_directory_base (self (settled X w)) = Some (root_of X w).
Proof.
  unfold settled, root_of.
  by destruct (output_directory_base (self w)) eqn:E.
Qed.

Lemma prepared_self w : self (prepared X w) = self (settled X w).
Proof.
  unfold prepared. cbn zeta. destruct (os_path_exists X _ _); [done|].
  by destruct (os_mkdir X _ _).
Qed.

Lemma runs_decide_run_exact w :
  let outdir := outdir_of X w in
  let ins' := bunch_set "cwd" (VStr outdir) (inputs (self w)) in
  let inputstr := str_bunch (repr X) ins' in
  let hashfile :=
    os_path_join X outdir (marker_name (md5_hexdigest X inputstr)) in
  runs (decide_run X) w
    (Ok {| d_outdir := outdir;
           d_hashfile := hashfile;
           d_inputstr := inputstr;
           d_execute :=
             overwrite_set (self w) ||
             negb (os_path_exists X hashfile (disk (prepared X w))) |})
    {| self := set_inputs ins' (self (settled X w));
       disk := disk (prepared X w) |}
    (log (prepare_outdir X w)).
Proof.
  cbn zeta. pose proof (runs_prepare_outdir_exact w) as Hp.
  rewrite (runs_log _ _ _ _ _ Hp).
  unfold decide_run. run_start.
  { eapply runs_seq; [exact Hp|]. cbn beta.
    run_head runs_setitem. run_head runs_hash_inputs.
    run_step. run_step. cbn [self disk].
    unfold str_inputs.
    change (inputs (set_inputs ?b ?n)) with b.
    rewrite prepared_self, settled_inputs.
    assert (overwrite_set (set_inputs
              (bunch_set "cwd" (VStr (outdir_of X w)) (inputs (self w)))
              (self (settled X w))) = overwrite_set (self w)) as ->.
    { unfold overwrite_set, settled.
      by destruct (output_directory_base (self w)). }
    run_prim. }
  by rewrite !app_nil_r.
Qed.

End OutputDirectory.

(** ** The node across a run *)

Section AcrossRun.
Context {FS : Type} (X : Externals FS).
Implicit Types w : World FS.

#[global] Instance same_base_preorder : PreOrder (@same_base FS).
Proof.
  split.
  - by intros w.
  - intros w1 w2 w3 H12 H23. unfold same_base in *. congruence.
Qed.

#[global] Instance same_configuration_preorder :
  PreOrder (@same_configuration FS).
Proof.
  split.
  - by intros w.
  - intros w1 w2 w3 H12 H23. unfold same_configuration in *. congruence.
Qed.

Lemma count_events_none (p : Event -> bool) (P : Event -> Prop) l :
  Forall P l -> (forall e, P e -> p e = false) -> count_events p l = 0%nat.
Proof.
  intros Hl HP. apply count_events_zero.
  eapply Forall_impl; [exact Hl|]. exact HP.
Qed.

(** A run that is not disk based is the call of [_run_interface]. *)
Lemma run_direct w :
  disk_based (self w) = false ->
  let ri := _run_interface true w in
  run X w =
  {| out := match out ri with
            | Ok _ => Ok (_result (self (world ri)))
            | Raise e => Raise e
            end;
     world := world ri;
     log := log ri |}.
Proof.
  intros Hdb. cbn zeta. pose proof (run_anatomy X w) as Han.
  cbn zeta in Han. pose proof (before_fanout_direct X w Hdb) as Hb.
  rewrite (runs_out _ _ _ _ _ Hb), (runs_world _ _ _ _ _ Hb),
    (runs_log _ _ _ _ _ Hb) in Han.
  cbn [execute_flag after_fanout] in Han.
  destruct (out (_run_interface true w)) as [[]|e]; rewrite Han; [|done].
  cbn [ret out world log app]. by rewrite app_nil_r.
Qed.

(** The world a disk-based run leaves is the one its branch leaves. *)
Lemma run_disk_world w dec w1 l1 :
  disk_based (self w) = true ->
  runs (decide_run X) w (Ok dec) w1 l1 ->
  world (run X w) =
  world ((if d_execute dec
          then execute_path X (d_outdir dec) (d_hashfile dec) (d_inputstr dec)
          else skip_path X (d_outdir dec)) w1).
Proof.
  intros Hdb Hd.
  set (rest := if d_execute dec
               then execute_path X (d_outdir dec) (d_hashfile dec)
                      (d_inputstr dec)
               else skip_path X (d_outdir dec)).
  pose proof (runs_intro rest w1) as Hr.
  destruct (out (rest w1)) as [[]|e] eqn:Ho.
  - eapply (runs_world (run X)). unfold run. run_start.
    { run_step. rewrite Hdb. eapply runs_seq.
      - unfold run_disk_based. eapply runs_seq; [exact Hd|]. cbn beta.
        exact Hr.
      - cbn beta. run_step. run_prim. }
    reflexivity.
  - eapply (runs_world (run X)). unfold run. run_start.
    { run_step. rewrite Hdb. eapply runs_bind_raise.
      unfold run_disk_based. eapply runs_seq; [exact Hd|]. cbn beta.
      exact Hr. }
    reflexivity.
Qed.

(** X1. [_output_directory] makes a temporary root only for a node
    without base directory, and remembers it: a second call returns the
    same directory, makes nothing and changes nothing. *)
Theorem output_directory_is_memoised w :
  let r1 := _output_directory X w in
  let r2 := _output_directory X (world r1) in
  out r1 = Ok (outdir_of X w) /\
  log r1 =
    match output_directory_base (self w) with
    | Some _ => []
    | None => [EvMkdtemp (root_of X w)]
    end /\
  output_directory_base (self (world r1)) = Some (root_of X w) /\
  out r2 = out r1 /\ world r2 = world r1 /\ log r2 = [].
Proof.
  cbn zeta. pose proof (runs_output_directory_exact X w) as H1.
  rewrite (runs_out _ _ _ _ _ H1), (runs_world _ _ _ _ _ H1),
    (runs_log _ _ _ _ _ H1).
  pose proof (runs_output_directory_exact X (settled X w)) as H2.
  rewrite (runs_out _ _ _ _ _ H2), (runs_world _ _ _ _ _ H2),
    (runs_log _ _ _ _ _ H2).
  rewrite settled_base. split_and!; try done.
  - f_equal. unfold outdir_of. rewrite settled_base.
    unfold settled, root_of.
    by destruct (output_directory_base (self w)).
  - unfold settled at 1. by rewrite settled_base.
Qed.

(** X2. The [try] block at the head of [run] never raises.  It returns
    the directory of the node; when that directory exists no [mkdir] is
    issued and the file system is left as it was, and when [mkdir] fails
    the failure is swallowed as well. *)
Theorem run_goes_on_when_directory_exists w :
  let w0 := world (_output_directory X w) in
  let outdir := outdir_of X w in
  let r := prepare_outdir X w in
  out r = Ok outdir /\
  self (world r) = self w0 /\
  count_events is_mkdir (log r) =
    (if os_path_exists X outdir (disk w0) then 0
     else match os_mkdir X outdir (disk w0) with
          | Some _ => 1
          | None => 0
          end)%nat /\
  (os_path_exists X outdir (disk w0) = true ->
   world r = w0 /\ log r = log (_output_directory X w)).
Proof.
  cbn zeta. pose proof (runs_prepare_outdir_exact X w) as Hp.
  pose proof (runs_output_directory_exact X w) as H0.
  pose proof (runs_make_output_dir_exact X (outdir_of X w) (settled X w))
    as H1.
  rewrite (runs_out _ _ _ _ _ Hp), (runs_world _ _ _ _ _ Hp),
    (runs_log _ _ _ _ _ Hp), (runs_world _ _ _ _ _ H0),
    (runs_log _ _ _ _ _ H1), (runs_log _ _ _ _ _ H0).
  split; [done|]. split; [apply prepared_self|]. split.
  - rewrite count_events_app.
    assert (count_events is_mkdir
              match output_directory_base (self w) with
              | Some _ => []
              | None => [EvMkdtemp (root_of X w)]
              end = 0%nat) as ->.
    { by destruct (output_directory_base (self w)). }
    destruct (os_path_exists X _ _); [done|].
    by destruct (os_mkdir X _ _).
  - intros Hex. unfold prepared. cbn zeta. rewrite Hex.
    by rewrite app_nil_r.
Qed.

Lemma output_directory_same_configuration :
  respects same_configuration any_event (_output_directory X).
Proof.
  intros w. pose proof (runs_output_directory_exact X w) as H0.
  rewrite (runs_world _ _ _ _ _ H0). split.
  - apply settled_configuration.
  - apply Forall_forall. done.
Qed.

Lemma run_respects_configuration :
  respects same_configuration any_event (run X).
Proof.
  apply touches_run; try apply _; try done.
  apply output_directory_same_configuration.
Qed.

(** X3. [run] never changes how the node is configured, whether it
    returns or raises: the iterables, the iterfield, the
    parameterization, the two flags, the name and the interface (its
    class and its operations) are those the node had.  Only the inputs,
    the result and the base directory are ever assigned. *)
Theorem run_keeps_configuration w :
  configuration (self (world (run X w))) = configuration (self w).
Proof.
  destruct (run_respects_configuration w) as [H _]. exact H.
Qed.

Lemma configuration_disk_based (n n' : NodeWrapper FS) :
  configuration n' = configuration n -> disk_based n' = disk_based n.
Proof. unfold configuration. by intros [= _ _ _ -> _ _ _ _ _ _ _]. Qed.

Lemma configuration_name (n n' : NodeWrapper FS) :
  configuration n' = configuration n -> name n' = name n.
Proof. unfold configuration. by intros [= _ _ _ _ _ -> _ _ _ _ _]. Qed.

Lemma run_settles_base w :
  disk_based (self w) = true ->
  output_directory_base (self (world (run X w))) = Some (root_of X w).
Proof.
  intros Hdb. pose proof (runs_decide_run_exact X w) as Hd. cbn zeta in Hd.
  rewrite (run_disk_world w _ _ _ Hdb Hd).
  match goal with |- context [world (?m ?w1)] =>
    assert (respects same_base any_event m) as Hm
  end.
  { destruct (d_execute _);
      [apply touches_execute_path|apply touches_skip_path];
      try apply _; done. }
  match goal with |- context [world (?m ?w1)] =>
    destruct (Hm w1) as [Hbase _]
  end.
  rewrite Hbase. cbn [self]. apply settled_base.
Qed.

Lemma mkdtemp_count_disk w :
  disk_based (self w) = true ->
  count_events is_mkdtemp (log (run X w)) =
    match output_directory_base (self w) with
    | Some _ => 0%nat
    | None => 1%nat
    end.
Proof.
  intros Hdb.
  destruct (run_log_disk X w Hdb)
    as (dec & w1 & l1 & l2 & l3 & l4 & Hdec & Hl1 & Hlog & Hl2 & Hl3 & Hlen &
        Hl4 & Hmark).
  pose proof (runs_decide_run_exact X w) as Hd. cbn zeta in Hd.
  destruct (runs_det _ _ _ _ _ _ _ _ Hdec Hd) as (_ & _ & ->).
  rewrite Hlog, !count_events_app.
  rewrite (count_events_none is_mkdtemp _ l2 Hl2) by (by intros []).
  rewrite (count_events_none is_mkdtemp _ l3 Hl3)
    by (intros e [ins ->]; by destruct (d_execute dec)).
  assert (count_events is_mkdtemp l4 = 0%nat) as ->.
  { by destruct Hl4 as [->|(_ & _ & ->)]. }
  assert (count_events is_mkdtemp
            (if d_execute dec then [EvCleandir (d_outdir dec)] else []) =
          0%nat) as ->.
  { by destruct (d_execute dec). }
  rewrite (runs_log _ _ _ _ _ (runs_prepare_outdir_exact X w)).
  rewrite count_events_app.
  rewrite (runs_log _ _ _ _ _ (runs_output_directory_exact X w)).
  rewrite (runs_log _ _ _ _ _
             (runs_make_output_dir_exact X (outdir_of X w) (settled X w))).
  assert (forall l : list Event,
            l = (if os_path_exists X (outdir_of X w) (disk (settled X w))
                 then []
                 else match os_mkdir X (outdir_of X w) (disk (settled X w))
                      with
                      | Some _ => [EvMkdir (outdir_of X w)]
                      | None => []
                      end) ->
            count_events is_mkdtemp l = 0%nat) as Hmk.
  { intros l ->.
    destruct (os_path_exists X (outdir_of X w) (disk (settled X w)));
      [done|].
    by destruct (os_mkdir X (outdir_of X w) (disk (settled X w))). }
  rewrite (Hmk _ eq_refl).
  by destruct (output_directory_base (self w)).
Qed.

(** X4. A disk-based node settles on one output directory.  The first
    [run] of a node without base directory makes a temporary root, once;
    the root is then the base directory of the node, so that the
    directory [run] works in is the same on every later run and no
    later run makes a temporary root again. *)
Theorem run_makes_temporary_root_once w :
  disk_based (self w) = true ->
  let w' := world (run X w) in
  output_directory_base (self w') = Some (root_of X w) /\
  outdir_of X w' = outdir_of X w /\
  count_events is_mkdtemp (log (run X w)) =
    match output_directory_base (self w) with
    | Some _ => 0%nat
    | None => 1%nat
    end /\
  count_events is_mkdtemp (log (run X w')) = 0%nat.
Proof.
  intros Hdb. cbn zeta.
  pose proof (run_settles_base w Hdb) as Hbase.
  destruct (run_respects_configuration w) as [Hconf _].
  unfold same_configuration in Hconf.
  split; [done|]. split; [|split].
  - unfold outdir_of at 1. rewrite Hbase.
    rewrite (configuration_name _ _ Hconf). done.
  - by apply mkdtemp_count_disk.
  - rewrite mkdtemp_count_disk.
    + by rewrite Hbase.
    + by rewrite (configuration_disk_based _ _ Hconf).
Qed.

End AcrossRun.

(** ** The fan-out, call by call *)

Section FanOutCalls.
Context {FS : Type} (X : Externals FS).
Implicit Types w : World FS.

Lemma run_interface_sets_result (execute : bool) w :
  out (_run_interface execute w) = Ok tt ->
  exists res, _result (self (world (_run_interface execute w))) = Some res.
Proof.
  intros Hok.
  destruct (decide (length (iterfield (self w)) = 1%nat)) as [Hlen|Hlen].
  - destruct (iterfield (self w)) as [|field [|? ?]] eqn:Hit; try done.
    destruct (bunch_get field (inputs (self w))) as [v|] eqn:Hget.
    + destruct (runs_run_interface_fanout execute w field v Hit Hget)
        as (w' & Hr & _ & _ & Hres).
      rewrite (runs_world _ _ _ _ _ Hr). eauto.
    + pose proof (runs_run_interface_unbound execute w field Hit Hget) as Hr.
      by rewrite (runs_out _ _ _ _ _ Hr) in Hok.
  - pose proof (runs_run_interface_single execute w Hlen) as Hr.
    cbn zeta in Hr. rewrite (runs_world _ _ _ _ _ Hr). cbn [self].
    eauto.
Qed.

Lemma iterations_inputs execute (i : Interface FS) field vs : forall ins d,
  it_inputs <$> iterations execute i field ins d vs =
  (fun x => bunch_set field x ins) <$> vs.
Proof.
  induction vs as [|v vs IH]; intros ins d; [done|].
  cbn [iterations]. cbn zeta. rewrite !fmap_cons. f_equal.
  - unfold pass. by destruct execute.
  - rewrite IH. apply list_fmap_ext. intros _ x _. apply bunch_set_set.
Qed.

Lemma omap_records {B} (f : RunResult -> B) (its : list Iteration) :
  omap (fun it => f <$> it_run it) its = f <$> omap it_run its.
Proof.
  induction its as [|it its IH]; [done|].
  cbn [omap list_omap]. destruct (it_run it); cbn; by rewrite IH.
Qed.

Lemma records_executing (i : Interface FS) field vs : forall ins d,
  length (omap it_run (iterations true i field ins d vs)) = length vs /\
  forall k x, vs !! k = Some x ->
    exists d',
      omap it_run (iterations true i field ins d vs) !! k =
      Some (i_run i (bunch_set field x ins) d').1.
Proof.
  induction vs as [|v vs IH]; intros ins d; [done|].
  cbn [iterations]. cbn zeta. cbn [pass fst snd omap list_omap it_run].
  destruct (IH (bunch_set field v ins) (i_run i (bunch_set field v ins) d).2)
    as [IH1 IH2].
  split.
  - cbn. by rewrite IH1.
  - intros [|k] x Hk; cbn in Hk.
    + injection Hk as ->. by exists d.
    + destruct (IH2 k x Hk) as [d' Hd']. exists d'.
      rewrite bunch_set_set in Hd'. exact Hd'.
Qed.

Lemma records_aggregating (i : Interface FS) field vs : forall ins d,
  omap it_run (iterations false i field ins d vs) = [].
Proof.
  induction vs as [|v vs IH]; intros ins d; [done|].
  cbn [iterations]. cbn zeta. cbn [pass fst snd omap list_omap it_run].
  apply IH.
Qed.

End FanOutCalls.

Section FanOutExtras.
Context {FS : Type} (X : Externals FS).
Implicit Types w : World FS.

(** X5. On a node that is not disk based, [run] is the call of the
    interface and nothing else: every event is an execution and no
    directory is resolved.  When [run] returns, there were as many
    executions as the fan-out has elements (one without a single
    iterfield) and the inputs are left as they were. *)
Theorem run_without_disk_only_calls_the_interface w :
  disk_based (self w) = false ->
  let w' := world (run X w) in
  Forall (fun e => is_execute e = true) (log (run X w)) /\
  output_directory_base (self w') = output_directory_base (self w) /\
  (is_ok (out (run X w)) ->
   length (log (run X w)) = fanout_calls (self w) /\
   inputs (self w') = inputs (self w)).
Proof.
  intros Hdb. cbn zeta. rewrite (run_direct X w Hdb). cbn [world log].
  destruct (run_interface_summary true w)
    as (o & wi & l & Hr & _ & Hin & Hmade & Hlen & _).
  rewrite (runs_world _ _ _ _ _ Hr), (runs_log _ _ _ _ _ Hr).
  split_and!; try done.
  - eapply Forall_impl; [exact Hmade|]. by intros e [ins ->].
  - assert (respects same_base any_event (_run_interface (FS:=FS) true))
      as Hb by (apply touches_run_interface; try apply _; done).
    destruct (Hb w) as [Hbase _]. by rewrite (runs_world _ _ _ _ _ Hr) in Hbase.
Qed.

(** What [run] returns is the result it has just stored. *)
Lemma run_returns_result w r :
  out (run X w) = Ok r ->
  r = _result (self (world (run X w))) /\ exists res, r = Some res.
Proof.
  intros Hok.
  pose proof (run_anatomy X w) as Han. cbn zeta in Han.
  remember (before_fanout X w) as rb eqn:Erb.
  destruct (out rb) as [b|e]; [|by rewrite Han in Hok].
  pose proof (run_interface_sets_result (execute_flag b) (world rb))
    as Hres.
  remember (_run_interface (execute_flag b) (world rb)) as ri eqn:Eri.
  destruct (out ri) as [[]|e]; [|by rewrite Han in Hok].
  destruct (Hres eq_refl) as [res Hres'].
  assert (self (world (after_fanout X b (world ri))) = self (world ri))
    as Hself.
  { destruct b; try done. cbn [after_fanout].
    destruct (check_returncode_summary X (d_hashfile dec) (d_inputstr dec)
                (world ri)) as (oa & wa & la & Ha & Hsa & _).
    by rewrite (runs_world _ _ _ _ _ Ha). }
  remember (after_fanout X b (world ri)) as ra eqn:Era.
  rewrite Han in Hok |- *. cbn [out world] in Hok |- *.
  destruct (out ra); [|done].
  injection Hok as <-. rewrite Hself. split; [done|]. eauto.
Qed.

(** X6. When [run] returns, what it returns is the result the node now
    holds, and it is never [None]; [get_output] then reads the outputs
    of that result, and reading changes nothing. *)
Theorem get_output_reads_the_result_of_run w r :
  out (run X w) = Ok r ->
  let w' := world (run X w) in
  exists res,
    r = Some res /\
    _result (self w') = Some res /\
    forall p v, bunch_get p (outputs res) = Some v ->
      get_output p w' = {| out := Ok v; world := w'; log := [] |}.
Proof.
  intros Hok. cbn zeta.
  destruct (run_returns_result w r Hok) as [Hr [res ->]].
  exists res. split; [done|]. split; [done|]. intros p v Hv.
  unfold get_output, bind, get_self. cbn [out world log].
  rewrite <- Hr, Hv. done.
Qed.

(** X7. A fan-out calls the interface once for each element of the
    sequence, in the order of the sequence (once for a scalar): the
    call for an element is made with the iterfield bound to that
    element and every other input as it was; afterwards the inputs are
    those the fan-out started from. *)
Theorem fanout_calls_follow_the_sequence (execute : bool) w field v :
  iterfield (self w) = [field] ->
  bunch_get field (inputs (self w)) = Some v ->
  let r := _run_interface execute w in
  out r = Ok tt /\
  log r =
    (fun x =>
       (if execute then EvExecute else EvAggregate)
         (bunch_set field x (inputs (self w)))) <$> itervals_of v /\
  inputs (self (world r)) = inputs (self w).
Proof.
  intros Hit Hget. cbn zeta.
  destruct (runs_run_interface_fanout execute w field v Hit Hget)
    as (w' & Hr & _ & Hin & _).
  rewrite (runs_out _ _ _ _ _ Hr), (runs_world _ _ _ _ _ Hr),
    (runs_log _ _ _ _ _ Hr).
  split; [done|]. split; [|done].
  trans ((if execute then EvExecute else EvAggregate) <$>
         (it_inputs <$>
          iterations execute (_interface (self w)) field (inputs (self w))
            (disk w) (itervals_of v))).
  - rewrite <- list_fmap_compose. apply list_fmap_ext.
    intros _ it _. unfold event_of. cbn. by destruct execute.
  - rewrite iterations_inputs. by rewrite <- list_fmap_compose.
Qed.

(** X8. The result of a fan-out holds two lists beside the outputs,
    [interface] and [runtime].  When the interface is executed they
    have one record for each element, the [i]-th being the record of
    the execution on the [i]-th element; when the outputs are only
    aggregated both lists are empty. *)
Theorem fanout_records_are_parallel (execute : bool) w field v :
  iterfield (self w) = [field] ->
  bunch_get field (inputs (self w)) = Some v ->
  exists res li lr,
    _result (self (world (_run_interface execute w))) = Some res /\
    interface res = SList li /\
    runtime res = SList lr /\
    length li = (if execute then length (itervals_of v) else 0%nat) /\
    length lr = (if execute then length (itervals_of v) else 0%nat) /\
    forall i x, execute = true -> itervals_of v !! i = Some x ->
      exists d,
        let rr :=
          (i_run (_interface (self w))
             (bunch_set field x (inputs (self w))) d).1 in
        li !! i = Some (r_interface rr) /\ lr !! i = Some (r_runtime rr).
Proof.
  intros Hit Hget.
  destruct (runs_run_interface_fanout execute w field v Hit Hget)
    as (w' & Hr & _ & _ & Hres).
  rewrite (runs_world _ _ _ _ _ Hr), Hres.
  eexists _, _, _. split; [done|]. cbn [interface runtime].
  split; [done|]. split; [done|].
  rewrite !omap_records, !length_fmap.
  destruct execute.
  - destruct (records_executing (_interface (self w)) field
                (itervals_of v) (inputs (self w)) (disk w)) as [Hlen Hlook].
    split; [done|]. split; [done|]. intros i x _ Hx.
    destruct (Hlook i x Hx) as [d Hd]. exists d. cbn zeta.
    by rewrite !list_lookup_fmap, Hd.
  - rewrite records_aggregating. done.
Qed.

(** X9. A scalar iterfield is run as a sequence of one: the interface is
    called once, on the inputs as they are, and the scalar is bound
    again afterwards; but the result has the shape of a fan-out, its
    records are lists of one (none when aggregating) and every output
    is a list of one value. *)
Theorem scalar_iterfield_gives_singleton_lists (execute : bool) w field v :
  iterfield (self w) = [field] ->
  bunch_get field (inputs (self w)) = Some v ->
  is_list v = false ->
  let p := pass execute (_interface (self w)) (inputs (self w)) (disk w) in
  let r := _run_interface execute w in
  bunch_wf (it_outputs p.1) ->
  out r = Ok tt /\
  log r = [event_of execute p.1] /\
  inputs (self (world r)) = inputs (self w) /\
  exists res,
    _result (self (world r)) = Some res /\
    interface res =
      SList match it_run p.1 with Some x => [r_interface x] | None => [] end /\
    runtime res =
      SList match it_run p.1 with Some x => [r_runtime x] | None => [] end /\
    forall k,
      bunch_get k (outputs res) =
      (fun val => VList [val]) <$> bunch_get k (it_outputs p.1).
Proof.
  intros Hit Hget Hnot. cbn zeta. intros Hwf.
  destruct (runs_run_interface_fanout execute w field v Hit Hget)
    as (w' & Hr & _ & Hin & Hres).
  assert (itervals_of v = [v]) as Hv by (by destruct v).
  rewrite Hv in Hr, Hres. cbn [iterations] in Hr, Hres. cbn zeta in Hr, Hres.
  rewrite (bunch_set_same _ _ _ Hget) in Hr, Hres.
  rewrite (runs_out _ _ _ _ _ Hr), (runs_world _ _ _ _ _ Hr),
    (runs_log _ _ _ _ _ Hr), Hres.
  split; [done|]. split; [done|]. split; [done|].
  eexists. split; [done|]. cbn [interface runtime outputs].
  cbn [omap list_omap fmap list_fmap merge_all].
  split; [by destruct (it_run _)|]. split; [by destruct (it_run _)|].
  intros k. rewrite (fold_merge_get 0 _ [] Hwf); [|by intros ? ?].
  by destruct (bunch_get k _).
Qed.

End FanOutExtras.

(** ** The return code, once more *)

Section ReturnCodeExtras.
Context {FS : Type} (X : Externals FS).
Implicit Types w : World FS.

Lemma fanout_returncode_cons r rs :
  fanout_returncode (r :: rs) =
  Z.max (Z.max (returncode r) 0) (fanout_returncode rs).
Proof.
  unfold fanout_returncode. cbn [fold_left].
  apply fanout_returncode_fold. lia.
Qed.

(** X10. The return code of a fan-out is the largest of the codes of its
    elements and zero: it is never negative, no element has a larger
    code, it is zero or the code of some element, and it is zero
    exactly when no element has a positive code (so that a negative
    code, which a process killed by a signal has, counts as zero). *)
Theorem fanout_returncode_is_largest_code_or_zero rs :
  0 <= fanout_returncode rs /\
  Forall (fun r => returncode r <= fanout_returncode rs) rs /\
  (fanout_returncode rs = 0 \/
   exists r, r ∈ rs /\ returncode r = fanout_returncode rs) /\
  (fanout_returncode rs = 0 <-> Forall (fun r => returncode r <= 0) rs).
Proof.
  split; [apply fanout_returncode_nonneg|].
  split; [|split; [|apply fanout_returncode_zero_iff]].
  - induction rs as [|r rs IH]; [constructor|].
    rewrite fanout_returncode_cons. constructor; [lia|].
    eapply Forall_impl; [exact IH|]. cbn. intros. lia.
  - induction rs as [|r rs IH]; [by left|].
    rewrite fanout_returncode_cons.
    pose proof (fanout_returncode_nonneg rs) as Hge.
    destruct (Z.max_spec (Z.max (returncode r) 0) (fanout_returncode rs))
      as [[Hlt ->]|[Hle ->]].
    + destruct IH as [IH|(r' & Hin & Hr')].
      * left. lia.
      * right. exists r'. split; [by right|done].
    + destruct (Z.max_spec (returncode r) 0) as [[Hlt' ->]|[Hle' ->]].
      * by left.
      * right. exists r. split; [left|done].
Qed.

(** X11. A disk-based run issues the write of a marker at most once, and
    exactly when it takes the execute branch and returns: a run that
    finds the marker, and a run that raises, write none. *)
Theorem marker_needs_execution_and_return w :
  disk_based (self w) = true ->
  exists dec,
    out (decide_run X w) = Ok dec /\
    count_events is_write_marker (log (run X w)) =
      (if d_execute dec
       then match out (run X w) with Ok _ => 1 | Raise _ => 0 end
       else 0)%nat.
Proof.
  intros Hdb.
  destruct (marker_written_iff_execute_returns X w Hdb)
    as (dec & Hdec & Hyes & Hno).
  exists dec. split; [done|].
  destruct (d_execute dec).
  - destruct (out (run X w)) as [r|e].
    + by apply Hyes.
    + apply Hno. by intros [_ []].
  - apply Hno. by intros [? _].
Qed.

(** X12. On a node without a single iterfield, the execute branch of a
    disk-based run ends on the return code of the one execution.  Zero:
    [run] returns the result and writes the marker.  Anything else:
    [run] raises the failure that names the node, its inputs as they
    then are and the captured stderr, and writes no marker.  In both
    cases the result of the execution stays on the node. *)
Theorem single_execution_ends_on_its_return_code w dec :
  length (iterfield (self w)) ≠ 1%nat ->
  out (before_fanout X w) = Ok (Executing dec) ->
  let wb := world (before_fanout X w) in
  let rr := (i_run (_interface (self wb)) (inputs (self wb)) (disk wb)).1 in
  let w' := world (run X w) in
  _result (self w') = Some (of_run rr) /\
  if Z.eqb (returncode (r_runtime rr)) 0 then
    out (run X w) = Ok (Some (of_run rr)) /\
    count_events is_write_marker (log (run X w)) = 1%nat
  else
    out (run X w) =
      Raise (StandardError
               (failure_message X (self w') (stderr (r_runtime rr)))) /\
    count_events is_write_marker (log (run X w)) = 0%nat.
Proof.
  intros Hlen Hout. cbn zeta.
  pose proof (runs_intro (before_fanout X) w) as Hb. rewrite Hout in Hb.
  set (wb := world (before_fanout X w)) in *.
  assert (length (iterfield (self wb)) ≠ 1%nat) as Hlen'.
  { unfold wb. by rewrite (static_iterfield _ _ (before_fanout_static X w)). }
  pose proof (runs_run_interface_single true wb Hlen') as Hi.
  cbn zeta in Hi. cbn [pass fst snd it_run] in Hi.
  set (rd := i_run (_interface (self wb)) (inputs (self wb)) (disk wb)) in *.
  pose proof (execute_branch_outcome X w dec wb _ (of_run rd.1)
                (returncode (r_runtime rd.1)) Hb) as Hend.
  rewrite (runs_out _ _ _ _ _ Hi), (runs_world _ _ _ _ _ Hi) in Hend.
  specialize (Hend eq_refl eq_refl eq_refl).
  assert (self (world (run X w)) = set_result (Some (of_run rd.1)) (self wb))
    as Hself.
  { pose proof (run_anatomy X w) as Han. cbn zeta in Han.
    rewrite Hout in Han. fold wb in Han. cbn [execute_flag] in Han.
    rewrite (runs_out _ _ _ _ _ Hi), (runs_world _ _ _ _ _ Hi) in Han.
    rewrite Han. cbn [world]. by rewrite (after_fanout_self X). }
  rewrite Hself. split; [done|].
  cbn [runtime of_run] in Hend.
  destruct (Z.eqb (returncode (r_runtime rd.1)) 0) eqn:Hrc.
  - destruct Hend as [Hok Hcount]. split; [|done].
    destruct (out (run X w)) as [r|e] eqn:Hr; [|done].
    destruct (run_returns_result X w r Hr) as [-> _].
    by rewrite Hself.
  - exact Hend.
Qed.

End ReturnCodeExtras.

(** ** The name of a node *)

Section Naming.
Context {FS : Type}.

Lemma string_app_cons c (s1 s2 : string) :
  (String c s1 ++ s2)%string = String c (s1 ++ s2).
Proof. reflexivity. Qed.

Lemma string_app_nil_r (s : string) : (s ++ "")%string = s.
Proof.
  induction s as [|c s IH]; [done|]. by rewrite string_app_cons, IH.
Qed.

Lemma string_app_assoc (s1 s2 s3 : string) :
  ((s1 ++ s2) ++ s3)%string = (s1 ++ s2 ++ s3)%string.
Proof.
  induction s1 as [|c s1 IH]; [done|]. by rewrite !string_app_cons, IH.
Qed.

Lemma last_component_no_dot q : forall acc,
  no_dot q = true -> last_component acc q = (acc ++ q)%string.
Proof.
  induction q as [|c q IH]; intros acc Hq.
  - by rewrite string_app_nil_r.
  - cbn [no_dot last_component] in *.
    apply andb_true_iff in Hq as [Hc Hq].
    apply negb_true_iff in Hc. rewrite Hc, IH by done.
    by rewrite string_app_assoc.
Qed.

Lemma last_component_dot p q : forall acc,
  last_component acc (p ++ "." ++ q) = last_component EmptyString q.
Proof.
  induction p as [|c p IH]; intros acc.
  - done.
  - rewrite string_app_cons. cbn [last_component].
    destruct (Ascii.eqb c "."%char); apply IH.
Qed.

(** X13. A node that is given no name is named after the class of its
    interface and the module of that class: the class name, a dot, and
    what follows the last dot of the module path (the whole path when
    it has no dot). *)
Theorem default_name_is_class_then_module (i : Interface FS) iterables
  iterfield diskbased base ow n p q :
  __init__ (Some i) iterables iterfield diskbased base ow None = Ok n ->
  no_dot q = true ->
  i_class_module i = (p ++ "." ++ q)%string \/ i_class_module i = q ->
  name n = (i_class_name i ++ "." ++ q)%string.
Proof.
  unfold __init__. intros Hn Hq Hmod.
  destruct (negb diskbased && bool_decide (base ≠ None)); [done|].
  injection Hn as <-. cbn [name]. do 2 f_equal.
  destruct Hmod as [-> | ->].
  - rewrite last_component_dot. by apply last_component_no_dot.
  - by apply last_component_no_dot.
Qed.

End Naming.

(** ** Staging *)

Section StagingFacts.
Context {FS : Type} (X : Externals FS).
Implicit Types w : World FS.

Lemma stage_inputs_unfold outdir :
  stage_inputs X outdir =
  bind get_self (fun s =>
    for_each (i_get_input_info (_interface s)) (stage_body X outdir)).
Proof. reflexivity. Qed.

Lemma restage_inputs_unfold outdir :
  restage_inputs X outdir =
  bind get_self (fun s =>
    for_each (i_get_input_info (_interface s)) (restage_body X outdir)).
Proof. reflexivity. Qed.

#[global] Instance same_binding_preorder k : PreOrder (@same_binding FS k).
Proof.
  split.
  - by intros w.
  - intros w1 w2 w3 H12 H23. unfold same_binding in *. congruence.
Qed.

Lemma respects_for_each_Forall {A} (R : relation (World FS)) `{!PreOrder R}
  P (l : list A) (body : A -> M FS unit) :
  Forall (fun x => respects R P (body x)) l -> respects R P (for_each l body).
Proof.
  induction 1 as [|x l Hx _ IH]; cbn [for_each].
  - rapply respects_ret.
  - rapply respects_bind; [exact Hx|]. intros _. exact IH.
Qed.

Section Frame.
Variable k : string.

Lemma frame_getitem k' : respects (same_binding k) any_event (getitem (FS:=FS) k').
Proof.
  unfold getitem. rapply respects_bind; [rapply respects_get_self|].
  intros s. destruct (bunch_get k' (inputs s));
    [rapply respects_ret|rapply respects_raise].
Qed.

Lemma frame_setitem k' v :
  k' ≠ k -> respects (same_binding k) any_event (setitem (FS:=FS) k' v).
Proof.
  intros Hne. unfold setitem. rapply respects_modify_self. intros w.
  unfold same_binding. cbn [self].
  change (inputs (set_inputs ?b ?n)) with b.
  by apply bunch_get_set_ne.
Qed.

Lemma frame_put_disk d : respects (same_binding k) any_event (put_disk (FS:=FS) d).
Proof. rapply respects_put_disk. by intros w. Qed.

Lemma frame_stage_body outdir info :
  key info ≠ k -> respects (same_binding k) any_event (stage_body X outdir info).
Proof.
  intros Hne. unfold stage_body.
  rapply respects_bind; [apply frame_getitem|]. intros files.
  assert (respects (same_binding k) any_event
    (bind get_disk (fun d =>
       let (newfiles, d') :=
         copyfiles X (filename_to_list X files) (VList [VStr outdir])
           (copy info) d in
       bind (emit (EvCopyfiles (filename_to_list X files)
                     (VList [VStr outdir]) (copy info)))
         (fun _ => bind (put_disk d')
            (fun _ => setitem (key info) (list_to_filename X newfiles))))))
    as Hbody.
  { rapply respects_bind; [rapply respects_get_disk|]. intros d.
    destruct (copyfiles X _ _ _ d) as [newfiles d'].
    rapply respects_bind; [(rapply respects_emit; done)|]. intros _.
    rapply respects_bind; [apply frame_put_disk|]. intros _.
    by apply frame_setitem. }
  destruct files; [rapply respects_ret|exact Hbody..].
Qed.

Lemma frame_restage_file outdir info files i f :
  key info ≠ k ->
  respects (same_binding k) any_event (restage_file X outdir info files i f).
Proof.
  intros Hne. unfold restage_file. cbn zeta.
  rapply respects_bind; [rapply respects_get_disk|]. intros d.
  rapply respects_bind.
  - destruct (os_path_exists X _ d); [rapply respects_ret|].
    destruct (copyfiles X f _ _ d) as [? d'].
    rapply respects_bind; [(rapply respects_emit; done)|]. intros _.
    apply frame_put_disk.
  - intros _. destruct (is_list files); [|by apply frame_setitem].
    rapply respects_bind; [apply frame_getitem|]. intros cur.
    destruct cur; try rapply respects_raise.
    destruct (bool_decide _); [by apply frame_setitem|rapply respects_raise].
Qed.

Lemma frame_restage_body outdir info :
  key info ≠ k ->
  respects (same_binding k) any_event (restage_body X outdir info).
Proof.
  intros Hne. unfold restage_body.
  rapply respects_bind; [apply frame_getitem|]. intros files.
  destruct files; [rapply respects_ret|..];
    (rapply respects_for_enumerate; intros; by apply frame_restage_file).
Qed.

Lemma frame_stage_inputs outdir w :
  k ∉ (key <$> i_get_input_info (_interface (self w))) ->
  same_binding k w (world (stage_inputs X outdir w)).
Proof.
  intros Hk. rewrite stage_inputs_unfold.
  unfold bind at 1. cbn [get_self out world].
  assert (respects (same_binding k) any_event
            (for_each (i_get_input_info (_interface (self w)))
               (stage_body X outdir))) as H.
  { rapply respects_for_each_Forall. apply Forall_forall.
    intros info Hin. apply frame_stage_body. intros <-.
    apply Hk, list_elem_of_fmap. by exists info. }
  by destruct (H w).
Qed.

Lemma frame_restage_inputs outdir w :
  k ∉ (key <$> i_get_input_info (_interface (self w))) ->
  same_binding k w (world (restage_inputs X outdir w)).
Proof.
  intros Hk. rewrite restage_inputs_unfold.
  unfold bind at 1. cbn [get_self out world].
  assert (respects (same_binding k) any_event
            (for_each (i_get_input_info (_interface (self w)))
               (restage_body X outdir))) as H.
  { rapply respects_for_each_Forall. apply Forall_forall.
    intros info Hin. apply frame_restage_body. intros <-.
    apply Hk, list_elem_of_fmap. by exists info. }
  by destruct (H w).
Qed.

End Frame.

End StagingFacts.

Section StageLoop.
Context {FS : Type} (X : Externals FS).
Implicit Types w : World FS.

Lemma runs_stage_body outdir info w files :
  bunch_get (key info) (inputs (self w)) = Some files ->
  let cf :=
    copyfiles X (filename_to_list X files) (VList [VStr outdir]) (copy info)
      (disk w) in
  runs (stage_body X outdir info) w (Ok tt)
    match files with
    | VNone => w
    | _ =>
        {| self :=
             set_inputs
               (bunch_set (key info) (list_to_filename X cf.1)
                  (inputs (self w))) (self w);
           disk := cf.2 |}
    end
    match files with
    | VNone => []
    | _ =>
        [EvCopyfiles (filename_to_list X files) (VList [VStr outdir])
           (copy info)]
    end.
Proof.
  intros Hget. cbn zeta. unfold stage_body.
  pose proof (runs_getitem (key info) w) as Hg. rewrite Hget in Hg.
  assert (runs
    (bind get_disk (fun d =>
       let (newfiles, d') :=
         copyfiles X (filename_to_list X files) (VList [VStr outdir])
           (copy info) d in
       bind (emit (EvCopyfiles (filename_to_list X files)
                     (VList [VStr outdir]) (copy info)))
         (fun _ => bind (put_disk d')
            (fun _ => setitem (key info) (list_to_filename X newfiles)))))
    w (Ok tt)
    {| self :=
         set_inputs
           (bunch_set (key info)
              (list_to_filename X
                 (copyfiles X (filename_to_list X files)
                    (VList [VStr outdir]) (copy info) (disk w)).1)
              (inputs (self w))) (self w);
       disk := (copyfiles X (filename_to_list X files)
                  (VList [VStr outdir]) (copy info) (disk w)).2 |}
    [EvCopyfiles (filename_to_list X files) (VList [VStr outdir])
       (copy info)]) as Hbody.
  { destruct (copyfiles X (filename_to_list X files) (VList [VStr outdir])
                (copy info) (disk w)) as [newfiles d'] eqn:Hcf.
    cbn [fst snd]. run_start.
    { run_step. rewrite Hcf. run_step. run_step.
      exact (runs_setitem (key info) (list_to_filename X newfiles)
               {| self := self w; disk := d' |}). }
    reflexivity. }
  destruct files;
    (eapply runs_conv;
     [eapply runs_seq; [exact Hg|]; cbn beta; first [run_prim|exact Hbody]
     |reflexivity]).
Qed.

Lemma stage_loop outdir l : forall w,
  NoDup (key <$> l) ->
  Forall (fun info => is_Some (bunch_get (key info) (inputs (self w)))) l ->
  let r := for_each l (stage_body X outdir) w in
  out r = Ok tt /\
  log r = omap (copy_event_of X outdir (inputs (self w))) l /\
  (forall info, info ∈ l ->
     bunch_get (key info) (inputs (self w)) = Some VNone ->
     bunch_get (key info) (inputs (self (world r))) = Some VNone) /\
  (forall info files, info ∈ l ->
     bunch_get (key info) (inputs (self w)) = Some files ->
     files ≠ VNone ->
     exists d,
       bunch_get (key info) (inputs (self (world r))) =
       Some (list_to_filename X
               (copyfiles X (filename_to_list X files) (VList [VStr outdir])
                  (copy info) d).1)).
Proof.
  induction l as [|info l IH]; intros w Hnd Hbound; cbn zeta.
  { cbn. split_and!; try done; intros ? ?; by rewrite ?elem_of_nil. }
  rewrite fmap_cons in Hnd. apply NoDup_cons in Hnd as [Hnotin Hnd].
  apply Forall_cons in Hbound as [[files Hfiles] Hbound].
  pose proof (runs_stage_body outdir info w files Hfiles) as Hstep.
  cbn zeta in Hstep.
  match type of Hstep with runs _ _ _ ?w1' ?l1' =>
    set (w1 := w1') in *; set (l1 := l1') in *
  end.
  assert (forall info', key info' ≠ key info ->
            bunch_get (key info') (inputs (self w1)) =
            bunch_get (key info') (inputs (self w))) as Hframe1.
  { intros info' Hne. unfold w1. destruct files; try done; cbn [self];
      change (inputs (set_inputs ?b ?n)) with b;
      apply bunch_get_set_ne; congruence. }
  assert (forall info', info' ∈ l -> key info' ≠ key info) as Hkeys.
  { intros info' Hin Heq. apply Hnotin. rewrite <- Heq.
    apply list_elem_of_fmap. by exists info'. }
  assert (Forall (fun info' =>
            is_Some (bunch_get (key info') (inputs (self w1)))) l) as Hbound1.
  { rewrite Forall_forall in Hbound |- *. intros info' Hin.
    rewrite Hframe1 by auto. auto. }
  destruct (IH w1 Hnd Hbound1) as (Hout & Hlog & Hnone & Hsome).
  pose proof (runs_intro (for_each l (stage_body X outdir)) w1) as Hrest.
  pose proof (runs_seq _ (fun _ => for_each l (stage_body X outdir))
                _ _ _ _ _ _ _ Hstep Hrest) as Hall.
  change (bind (stage_body X outdir info)
            (fun _ => for_each l (stage_body X outdir)))
    with (for_each (info :: l) (stage_body X outdir)) in Hall.
  rewrite (runs_out _ _ _ _ _ Hall), (runs_log _ _ _ _ _ Hall),
    (runs_world _ _ _ _ _ Hall).
  assert (same_binding (key info) w1
            (world (for_each l (stage_body X outdir) w1))) as Hhead.
  { assert (respects (same_binding (key info)) any_event
              (for_each l (stage_body X outdir))) as H.
    { rapply respects_for_each_Forall. apply Forall_forall.
      intros info' Hin. apply frame_stage_body. by apply Hkeys. }
    by destruct (H w1). }
  unfold same_binding in Hhead.
  assert (bunch_get (key info) (inputs (self w1)) =
          match files with
          | VNone => Some VNone
          | _ =>
              Some (list_to_filename X
                      (copyfiles X (filename_to_list X files)
                         (VList [VStr outdir]) (copy info) (disk w)).1)
          end) as Hnew.
  { unfold w1. destruct files; try done; cbn [self];
      change (inputs (set_inputs ?b ?n)) with b; apply bunch_get_set_eq. }
  split; [done|]. split; [|split].
  - rewrite Hlog. cbn [omap list_omap]. unfold copy_event_of at 2.
    rewrite Hfiles.
    assert (omap (copy_event_of X outdir (inputs (self w1))) l =
            omap (copy_event_of X outdir (inputs (self w))) l) as ->.
    { clear -Hframe1 Hkeys. induction l as [|info' l IH]; [done|].
      cbn [omap list_omap]. rewrite IH.
      - unfold copy_event_of. rewrite Hframe1; [done|]. apply Hkeys. left.
      - intros ? ?. apply Hkeys. by right. }
    unfold l1. by destruct files.
  - intros info' Hin Hv. apply elem_of_cons in Hin as [->|Hin].
    + rewrite Hhead, Hnew. rewrite Hfiles in Hv. by injection Hv as ->.
    + apply Hnone; [done|]. rewrite Hframe1 by auto. done.
  - intros info' files' Hin Hv Hne. apply elem_of_cons in Hin as [->|Hin].
    + rewrite Hhead, Hnew. rewrite Hfiles in Hv. injection Hv as ->.
      exists (disk w). by destruct files'.
    + apply Hsome; [done| |done]. rewrite Hframe1 by auto. done.
Qed.

End StageLoop.

Section RestageLoop.
Context {FS : Type} (X : Externals FS).
Implicit Types w : World FS.

Lemma runs_restage_copy outdir info f w :
  let new := fname_presuffix X f outdir in
  runs
    (if os_path_exists X new (disk w) then ret tt
     else
       let (_, d') := copyfiles X f (VStr new) (copy info) (disk w) in
       bind (emit (EvCopyfiles f (VStr new) (copy info)))
         (fun _ => put_disk d'))
    w (Ok tt)
    {| self := self w;
       disk := if os_path_exists X new (disk w) then disk w
               else (copyfiles X f (VStr new) (copy info) (disk w)).2 |}
    (if os_path_exists X new (disk w) then []
     else [EvCopyfiles f (VStr new) (copy info)]).
Proof.
  cbn zeta. destruct (os_path_exists X _ (disk w)).
  - destruct w. apply runs_ret.
  - destruct (copyfiles X f _ (copy info) (disk w)) as [x d'].
    cbn [snd]. run_start.
    { run_step. run_prim. }
    reflexivity.
Qed.

Lemma runs_restage_file outdir info files i f w :
  let new := fname_presuffix X f outdir in
  (if is_list files
   then exists l, bunch_get (key info) (inputs (self w)) = Some (VList l) /\
                  (i < length l)%nat
   else True) ->
  runs (restage_file X outdir info files i f) w (Ok tt)
    {| self :=
         set_inputs
           (bunch_set (key info)
              (if is_list files
               then match bunch_get (key info) (inputs (self w)) with
                    | Some (VList l) => VList (<[i := VStr new]> l)
                    | _ => VNone
                    end
               else VStr new)
              (inputs (self w))) (self w);
       disk := if os_path_exists X new (disk w) then disk w
               else (copyfiles X f (VStr new) (copy info) (disk w)).2 |}
    (if os_path_exists X new (disk w) then []
     else [EvCopyfiles f (VStr new) (copy info)]).
Proof.
  cbn zeta. intros Hcur. unfold restage_file. cbn zeta.
  pose proof (runs_restage_copy outdir info f w) as Hcopy. cbn zeta in Hcopy.
  match type of Hcopy with runs _ _ _ ?w1' _ => set (w1 := w1') in * end.
  destruct (is_list files).
  - destruct Hcur as (l & Hl & Hi). rewrite Hl.
    pose proof (runs_getitem (key info) w1) as Hg.
    change (inputs (self w1)) with (inputs (self w)) in Hg.
    rewrite Hl in Hg.
    eapply runs_conv.
    { run_step. eapply runs_seq; [exact Hcopy|]. cbn beta.
      eapply runs_seq; [exact Hg|]. cbv beta iota.
      rewrite bool_decide_eq_true_2 by done.
      exact (runs_setitem (key info) _ w1). }
    by rewrite !app_nil_r.
  - eapply runs_conv.
    { run_step. eapply runs_seq; [exact Hcopy|]. cbn beta.
      exact (runs_setitem (key info) _ w1). }
    by rewrite !app_nil_r.
Qed.

Lemma restage_list_loop outdir info files l : forall pre w,
  is_list files = true ->
  bunch_get (key info) (inputs (self w)) = Some (VList (pre ++ l)) ->
  let staged := fun f => VStr (fname_presuffix X f outdir) in
  let r := for_enumerate (length pre) l (restage_file X outdir info files) w in
  out r = Ok tt /\
  inputs (self (world r)) =
    bunch_set (key info) (VList (pre ++ (staged <$> l))) (inputs (self w)) /\
  Forall (restage_copy X outdir [info]) (log r) /\
  (Forall (fun f => os_path_exists X (fname_presuffix X f outdir) (disk w)
                    = true) l ->
   log r = [] /\ disk (world r) = disk w).
Proof.
  induction l as [|f l IH]; intros pre w Hlist Hcur; cbn zeta.
  - cbn [for_enumerate ret out world log fmap list_fmap].
    split; [done|]. split; [by rewrite bunch_set_same|]. done.
  - pose proof (runs_restage_file outdir info files (length pre) f w) as Hstep.
    cbn zeta in Hstep. rewrite Hlist, Hcur in Hstep.
    assert (length pre < length (pre ++ f :: l))%nat as Hlt.
    { rewrite length_app. cbn. lia. }
    specialize (Hstep (ex_intro _ _ (conj eq_refl Hlt))).
    match type of Hstep with runs _ _ _ ?w1' ?l1' =>
      set (w1 := w1') in *; set (l1 := l1') in *
    end.
    assert (<[length pre := VStr (fname_presuffix X f outdir)]> (pre ++ f :: l)
            = (pre ++ [VStr (fname_presuffix X f outdir)]) ++ l) as Hins.
    { rewrite insert_app_r_alt by lia. rewrite Nat.sub_diag. cbn.
      by rewrite <- app_assoc. }
    assert (bunch_get (key info) (inputs (self w1)) =
            Some (VList ((pre ++ [VStr (fname_presuffix X f outdir)]) ++ l)))
      as Hcur1.
    { unfold w1. cbn [self]. change (inputs (set_inputs ?b ?n)) with b.
      by rewrite bunch_get_set_eq, Hins. }
    destruct (IH (pre ++ [VStr (fname_presuffix X f outdir)]) w1 Hlist Hcur1)
      as (Hout & Hin & Hshape & Hnone).
    cbn zeta in Hout, Hin, Hshape, Hnone.
    assert (length (pre ++ [VStr (fname_presuffix X f outdir)]) =
            S (length pre)) as Hlen by (rewrite length_app; cbn; lia).
    rewrite Hlen in Hout, Hin, Hshape, Hnone.
    pose proof (runs_intro
                  (for_enumerate (S (length pre)) l
                     (restage_file X outdir info files)) w1) as Hrest.
    pose proof (runs_seq _
                  (fun _ => for_enumerate (S (length pre)) l
                              (restage_file X outdir info files))
                  _ _ _ _ _ _ _ Hstep Hrest) as Hall.
    change (bind (restage_file X outdir info files (length pre) f)
              (fun _ => for_enumerate (S (length pre)) l
                          (restage_file X outdir info files)))
      with (for_enumerate (length pre) (f :: l)
              (restage_file X outdir info files)) in Hall.
    rewrite (runs_out _ _ _ _ _ Hall), (runs_log _ _ _ _ _ Hall),
      (runs_world _ _ _ _ _ Hall).
    split; [done|]. split; [|split].
    + rewrite Hin. unfold w1. cbn [self].
      change (inputs (set_inputs ?b ?n)) with b.
      rewrite bunch_set_set. rewrite fmap_cons.
      by rewrite <- app_assoc.
    + apply Forall_app. split.
      * unfold l1. destruct (os_path_exists X _ _); [constructor|].
        repeat constructor. exists info, f. split; [left|done].
      * exact Hshape.
    + intros Hall'. apply Forall_cons in Hall' as [Hf Hl].
      unfold l1, w1 in *. rewrite Hf in *. cbn [disk] in Hnone.
      destruct (Hnone Hl) as [-> ->]. done.
Qed.

End RestageLoop.

Section RestageInputs.
Context {FS : Type} (X : Externals FS).
Implicit Types w : World FS.

Lemma bind_silent {A B} (m : M FS A) (K : A -> M FS B) w a :
  runs m w (Ok a) w [] -> bind m K w = K a w.
Proof.
  unfold runs, bind. intros ->. cbn [out world log app]. by destruct (K a w).
Qed.

Lemma restage_copy_mono outdir (l l' : list InputInfo) e :
  l ⊆ l' -> restage_copy X outdir l e -> restage_copy X outdir l' e.
Proof. intros Hsub (info & f & Hin & ->). exists info, f. auto. Qed.

Lemma restage_body_spec outdir info w files :
  bunch_get (key info) (inputs (self w)) = Some files ->
  let r := restage_body X outdir info w in
  out r = Ok tt /\
  inputs (self (world r)) =
    bunch_set (key info) (restaged X outdir files) (inputs (self w)) /\
  Forall (restage_copy X outdir [info]) (log r) /\
  (all_staged X outdir (disk w) files ->
   log r = [] /\ disk (world r) = disk w).
Proof.
  intros Hget. cbn zeta. unfold restage_body.
  pose proof (runs_getitem (key info) w) as Hg. rewrite Hget in Hg.
  rewrite (bind_silent _ _ _ _ Hg).
  assert (forall f, is_list f = false -> files = f ->
    let r := for_enumerate 0 [f] (restage_file X outdir info files) w in
    out r = Ok tt /\
    inputs (self (world r)) =
      bunch_set (key info) (VStr (fname_presuffix X f outdir))
        (inputs (self w)) /\
    Forall (restage_copy X outdir [info]) (log r) /\
    (Forall (fun f => os_path_exists X (fname_presuffix X f outdir) (disk w)
                      = true) [f] ->
     log r = [] /\ disk (world r) = disk w)) as Hscalar.
  { intros f Hf ->. cbn zeta.
    pose proof (runs_restage_file X outdir info f 0 f w) as Hstep.
    cbn zeta in Hstep. rewrite Hf in Hstep. specialize (Hstep I).
    pose proof (runs_seq _ (fun _ => ret tt) _ _ _ _ _ _ _ Hstep
                  (runs_ret tt _)) as Hall.
    change (bind (restage_file X outdir info f 0 f) (fun _ => ret tt))
      with (for_enumerate 0 [f] (restage_file X outdir info f)) in Hall.
    rewrite (runs_out _ _ _ _ _ Hall), (runs_log _ _ _ _ _ Hall),
      (runs_world _ _ _ _ _ Hall). cbn [self disk].
    split; [done|]. split; [done|]. rewrite app_nil_r. split.
    - destruct (os_path_exists X _ _); [constructor|].
      repeat constructor. exists info, f. split; [left|done].
    - intros Hall'. apply Forall_cons in Hall' as [Hex _].
      by rewrite Hex. }
  destruct files as [|b|n|s|l].
  - cbn [ret out world log restaged all_staged].
    split; [done|]. split; [by rewrite bunch_set_same|]. done.
  - apply (Hscalar (VBool b)); done.
  - apply (Hscalar (VInt n)); done.
  - apply (Hscalar (VStr s)); done.
  - apply (restage_list_loop X outdir info (VList l) l [] w); done.
Qed.

Lemma restage_loop outdir l : forall w,
  NoDup (key <$> l) ->
  Forall (fun info => is_Some (bunch_get (key info) (inputs (self w)))) l ->
  let r := for_each l (restage_body X outdir) w in
  out r = Ok tt /\
  (forall info files, info ∈ l ->
     bunch_get (key info) (inputs (self w)) = Some files ->
     bunch_get (key info) (inputs (self (world r))) =
       Some (restaged X outdir files)) /\
  Forall (restage_copy X outdir l) (log r) /\
  ((forall info files, info ∈ l ->
      bunch_get (key info) (inputs (self w)) = Some files ->
      all_staged X outdir (disk w) files) ->
   log r = [] /\ disk (world r) = disk w).
Proof.
  induction l as [|info l IH]; intros w Hnd Hbound; cbn zeta.
  { cbn. split_and!; try done. intros ? ? Hin. by apply elem_of_nil in Hin. }
  rewrite fmap_cons in Hnd. apply NoDup_cons in Hnd as [Hnotin Hnd].
  apply Forall_cons in Hbound as [[files Hfiles] Hbound].
  destruct (restage_body_spec outdir info w files Hfiles)
    as (Hout1 & Hin1 & Hshape1 & Hnone1). cbn zeta in *.
  pose proof (runs_intro (restage_body X outdir info) w) as Hstep.
  rewrite Hout1 in Hstep.
  set (w1 := world (restage_body X outdir info w)) in *.
  assert (forall info', key info' ≠ key info ->
            bunch_get (key info') (inputs (self w1)) =
            bunch_get (key info') (inputs (self w))) as Hframe1.
  { intros info' Hne. rewrite Hin1. apply bunch_get_set_ne. congruence. }
  assert (forall info', info' ∈ l -> key info' ≠ key info) as Hkeys.
  { intros info' Hin Heq. apply Hnotin. rewrite <- Heq.
    apply list_elem_of_fmap. by exists info'. }
  assert (Forall (fun info' =>
            is_Some (bunch_get (key info') (inputs (self w1)))) l) as Hbound1.
  { rewrite Forall_forall in Hbound |- *. intros info' Hin.
    rewrite Hframe1 by auto. auto. }
  destruct (IH w1 Hnd Hbound1) as (Hout & Hsome & Hshape & Hnone).
  cbn zeta in *.
  pose proof (runs_intro (for_each l (restage_body X outdir)) w1) as Hrest.
  pose proof (runs_seq _ (fun _ => for_each l (restage_body X outdir))
                _ _ _ _ _ _ _ Hstep Hrest) as Hall.
  change (bind (restage_body X outdir info)
            (fun _ => for_each l (restage_body X outdir)))
    with (for_each (info :: l) (restage_body X outdir)) in Hall.
  rewrite (runs_out _ _ _ _ _ Hall), (runs_log _ _ _ _ _ Hall),
    (runs_world _ _ _ _ _ Hall).
  assert (same_binding (key info) w1
            (world (for_each l (restage_body X outdir) w1))) as Hhead.
  { assert (respects (same_binding (key info)) any_event
              (for_each l (restage_body X outdir))) as H.
    { rapply respects_for_each_Forall. apply Forall_forall.
      intros info' Hin. apply frame_restage_body. by apply Hkeys. }
    by destruct (H w1). }
  unfold same_binding in Hhead.
  split; [done|]. split; [|split].
  - intros info' files' Hin Hv. apply elem_of_cons in Hin as [->|Hin].
    + rewrite Hhead, Hin1, bunch_get_set_eq. congruence.
    + apply Hsome; [done|]. rewrite Hframe1 by auto. done.
  - apply Forall_app. split.
    + eapply Forall_impl; [exact Hshape1|]. intros e.
      apply restage_copy_mono. set_solver.
    + eapply Forall_impl; [exact Hshape|]. intros e.
      apply restage_copy_mono. set_solver.
  - intros Hstaged.
    destruct (Hnone1 (Hstaged info files ltac:(left) Hfiles)) as [Hl1 Hd1].
    rewrite Hl1. cbn [app].
    destruct Hnone as [Hl Hd].
    { intros info' files' Hin Hv. rewrite Hd1.
      apply (Hstaged info' files'); [by right|].
      rewrite <- Hframe1 by auto. done. }
    by rewrite Hl, Hd.
Qed.

(** X14. On the execute branch, staging makes one copy for each file
    input that is set, in the order the interface declares them: the
    files of the input, into the output directory, with the input's own
    copy flag.  The input is then bound to what the copy returned, an
    input that is [None] is skipped and stays [None], and no other input
    is touched. *)
Theorem staging_copies_each_set_file_input_once outdir w :
  let infos := i_get_input_info (_interface (self w)) in
  let ins := inputs (self w) in
  let r := stage_inputs X outdir w in
  NoDup (key <$> infos) ->
  Forall (fun info => is_Some (bunch_get (key info) ins)) infos ->
  out r = Ok tt /\
  log r = omap (copy_event_of X outdir ins) infos /\
  (forall k, k ∉ (key <$> infos) ->
     bunch_get k (inputs (self (world r))) = bunch_get k ins) /\
  (forall info, info ∈ infos -> bunch_get (key info) ins = Some VNone ->
     bunch_get (key info) (inputs (self (world r))) = Some VNone) /\
  (forall info files, info ∈ infos ->
     bunch_get (key info) ins = Some files -> files ≠ VNone ->
     exists d,
       bunch_get (key info) (inputs (self (world r))) =
       Some (list_to_filename X
               (copyfiles X (filename_to_list X files) (VList [VStr outdir])
                  (copy info) d).1)).
Proof.
  cbn zeta. intros Hnd Hbound.
  assert (forall k, k ∉ (key <$> i_get_input_info (_interface (self w))) ->
            bunch_get k (inputs (self (world (stage_inputs X outdir w)))) =
            bunch_get k (inputs (self w))) as Hframe.
  { intros k Hk. apply (frame_stage_inputs X k outdir w Hk). }
  rewrite stage_inputs_unfold in *.
  rewrite (bind_silent _ _ _ _ (runs_get_self w)) in *.
  destruct (stage_loop X outdir _ w Hnd Hbound)
    as (Hout & Hlog & Hnone & Hsome).
  done.
Qed.

End RestageInputs.

(** ** Two runs in a row *)

Section TwoRuns.
Context {FS : Type} (X : Externals FS).
Implicit Types w : World FS.

Lemma stage_nothing outdir l : forall w,
  Forall (fun info => bunch_get (key info) (inputs (self w)) = Some VNone) l ->
  runs (for_each l (stage_body X outdir)) w (Ok tt) w [].
Proof.
  induction l as [|info l IH]; intros w Hl; [apply runs_ret|].
  apply Forall_cons in Hl as [Hinfo Hl].
  pose proof (runs_stage_body X outdir info w VNone Hinfo) as Hstep.
  cbn zeta in Hstep.
  exact (runs_seq _ (fun _ => for_each l (stage_body X outdir))
           _ _ _ _ _ _ _ Hstep (IH w Hl)).
Qed.

Lemma restage_nothing outdir l : forall w,
  Forall (fun info => bunch_get (key info) (inputs (self w)) = Some VNone) l ->
  runs (for_each l (restage_body X outdir)) w (Ok tt) w [].
Proof.
  induction l as [|info l IH]; intros w Hl; [apply runs_ret|].
  apply Forall_cons in Hl as [Hinfo Hl].
  assert (runs (restage_body X outdir info) w (Ok tt) w []) as Hstep.
  { unfold restage_body.
    pose proof (runs_getitem (key info) w) as Hg. rewrite Hinfo in Hg.
    eapply runs_conv; [eapply runs_seq; [exact Hg|]; apply runs_ret|done]. }
  exact (runs_seq _ (fun _ => for_each l (restage_body X outdir))
           _ _ _ _ _ _ _ Hstep (IH w Hl)).
Qed.

Lemma decide_run_world w :
  let w1 := world (decide_run X w) in
  inputs (self w1) =
    bunch_set "cwd" (VStr (outdir_of X w)) (inputs (self w)) /\
  configuration (self w1) = configuration (self w) /\
  _result (self w1) = _result (self w) /\
  output_directory_base (self w1) = Some (root_of X w) /\
  disk w1 = disk (prepared X w).
Proof.
  cbn zeta. pose proof (runs_decide_run_exact X w) as Hd. cbn zeta in Hd.
  rewrite (runs_world _ _ _ _ _ Hd). cbn [self disk].
  change (inputs (set_inputs ?b ?n)) with b.
  split; [done|]. split; [apply settled_configuration|].
  split; [apply settled_result|]. split; [apply settled_base|done].
Qed.

Lemma configuration_infos (n n' : NodeWrapper FS) :
  configuration n' = configuration n ->
  i_get_input_info (_interface n') = i_get_input_info (_interface n).
Proof. unfold configuration. by intros [= _ _ _ _ _ _ _ _ -> _ _]. Qed.

Lemma configuration_overwrite_set (n n' : NodeWrapper FS) :
  configuration n' = configuration n -> overwrite_set n' = overwrite_set n.
Proof.
  unfold configuration, overwrite_set. by intros [= _ _ _ _ -> _ _ _ _ _ _].
Qed.

Lemma configuration_iterfield (n n' : NodeWrapper FS) :
  configuration n' = configuration n -> iterfield n' = iterfield n.
Proof. unfold configuration. by intros [= _ -> _ _ _ _ _ _ _ _ _]. Qed.

(** Before the fan-out, when staging has nothing to do. *)
Lemma before_fanout_nothing_to_stage w dec :
  disk_based (self w) = true ->
  nothing_to_stage (self w) ->
  out (decide_run X w) = Ok dec ->
  let w1 := world (decide_run X w) in
  runs (before_fanout X) w
    (Ok (if d_execute dec then Executing dec else Skipping dec))
    {| self := self w1;
       disk := if d_execute dec then cleandir X (d_outdir dec) (disk w1)
               else disk w1 |}
    (log (decide_run X w) ++
     if d_execute dec then [EvCleandir (d_outdir dec)] else []).
Proof.
  intros Hdb Hnone Hout. cbn zeta.
  pose proof (runs_intro (decide_run X) w) as Hd. rewrite Hout in Hd.
  destruct (decide_run_world w) as (Hin & Hconf & _).
  set (w1 := world (decide_run X w)) in *.
  assert (forall d,
            Forall (fun info =>
                      bunch_get (key info)
                        (inputs (self {| self := self w1; disk := d |})) =
                      Some VNone)
              (i_get_input_info (_interface (self w1)))) as Hnone1.
  { intros d. cbn [self]. rewrite (configuration_infos _ _ Hconf), Hin.
    eapply Forall_impl; [exact Hnone|]. intros info [Hne Hv]. cbn beta.
    rewrite bunch_get_set_ne by done. done. }
  unfold before_fanout. destruct (d_execute dec) eqn:Hgo.
  - eapply runs_conv.
    { run_step. rewrite Hdb. eapply runs_seq; [exact Hd|]. cbn beta.
      rewrite Hgo. run_step. run_step. run_step.
      eapply runs_seq.
      - rewrite stage_inputs_unfold. run_step. cbn [self].
        apply stage_nothing. apply Hnone1.
      - cbn beta. run_prim. }
    cbn [app]. by rewrite ?app_nil_r.
  - eapply runs_conv.
    { run_step. rewrite Hdb. eapply runs_seq; [exact Hd|]. cbn beta.
      rewrite Hgo.
      eapply runs_seq.
      - rewrite restage_inputs_unfold. run_step.
        apply restage_nothing.
        specialize (Hnone1 (disk w1)). by destruct w1.
      - cbn beta. destruct w1. run_prim. }
    cbn [app]. by rewrite ?app_nil_r.
Qed.

(** The inputs a run leaves when staging has nothing to do: those it
    was given, with [cwd] set. *)
Lemma run_inputs_nothing_to_stage w :
  disk_based (self w) = true ->
  nothing_to_stage (self w) ->
  inputs (self (world (run X w))) =
    bunch_set "cwd" (VStr (outdir_of X w)) (inputs (self w)).
Proof.
  intros Hdb Hnone.
  pose proof (runs_decide_run_exact X w) as Hd. cbn zeta in Hd.
  pose proof (before_fanout_nothing_to_stage w _ Hdb Hnone
                (runs_out _ _ _ _ _ Hd)) as Hb. cbn zeta in Hb.
  destruct (decide_run_world w) as (Hin & _).
  pose proof (run_anatomy X w) as Han. cbn zeta in Han.
  rewrite (runs_out _ _ _ _ _ Hb), (runs_world _ _ _ _ _ Hb) in Han.
  match type of Han with context [_run_interface ?e ?wb] =>
    destruct (run_interface_summary e wb)
      as (o & wi & li & Hi & _ & Hini & _);
    rewrite (runs_out _ _ _ _ _ Hi), (runs_world _ _ _ _ _ Hi) in Han
  end.
  cbn [self] in Hini.
  destruct o as [[]|e]; rewrite Han; cbn [world].
  - rewrite (after_fanout_self X). by rewrite Hini.
  - by rewrite Hini.
Qed.

End TwoRuns.

Section CacheHit.
Context {FS : Type} (X : Externals FS).
Implicit Types w : World FS.

Lemma settled_with_base w root :
  output_directory_base (self w) = Some root -> settled X w = w.
Proof. unfold settled. by intros ->. Qed.

Lemma prepare_outdir_existing w root :
  output_directory_base (self w) = Some root ->
  os_path_exists X (outdir_of X w) (disk w) = true ->
  prepared X w = w /\ log (prepare_outdir X w) = [].
Proof.
  intros Hbase Hex.
  pose proof (runs_prepare_outdir_exact X w) as Hp.
  rewrite (runs_log _ _ _ _ _ Hp).
  rewrite (runs_log _ _ _ _ _ (runs_output_directory_exact X w)).
  rewrite (runs_log _ _ _ _ _
             (runs_make_output_dir_exact X (outdir_of X w) (settled X w))).
  unfold prepared. cbn zeta.
  rewrite (settled_with_base w root Hbase), Hbase, Hex. done.
Qed.

(** X17. The cache, from one run to the next.  Take a disk-based node
    without [overwrite] whose staging has nothing to do.  Whatever the
    first run did, it leaves the inputs it hashed, so that the hash of
    the inputs is still the one its marker is named after; and if the
    output directory and that marker are on disk when it ends, the
    next run is a cache hit that only aggregates: it makes no
    directory, cleans, copies, executes and writes nothing, calls
    [aggregate_outputs] once for each element of the fan-out, and
    leaves the inputs as they are. *)
Theorem second_run_only_aggregates w :
  disk_based (self w) = true ->
  overwrite_set (self w) = false ->
  nothing_to_stage (self w) ->
  let w' := world (run X w) in
  let outdir := outdir_of X w in
  let inputstr :=
    str_bunch (repr X)
      (bunch_set "cwd" (VStr outdir) (inputs (self w))) in
  let hashfile :=
    os_path_join X outdir (marker_name (md5_hexdigest X inputstr)) in
  os_path_exists X outdir (disk w') = true ->
  os_path_exists X hashfile (disk w') = true ->
  out (hash_inputs X w') = Ok (md5_hexdigest X inputstr) /\
  Forall (fun e => is_aggregate e = true) (log (run X w')) /\
  length (log (run X w')) = fanout_calls (self w') /\
  inputs (self (world (run X w'))) = inputs (self w').
Proof.
  intros Hdb How Hnone. cbn zeta. intros Hdir Hmark.
  pose proof (run_inputs_nothing_to_stage X w Hdb Hnone) as Hin.
  destruct (run_respects_configuration X w) as [Hconf _].
  unfold same_configuration in Hconf.
  pose proof (run_settles_base X w Hdb) as Hbase.
  set (w' := world (run X w)) in *.
  assert (outdir_of X w' = outdir_of X w) as Hout.
  { unfold outdir_of at 1. rewrite Hbase.
    by rewrite (configuration_name _ _ Hconf). }
  assert (disk_based (self w') = true) as Hdb'
    by (by rewrite (configuration_disk_based _ _ Hconf)).
  assert (nothing_to_stage (self w')) as Hnone'.
  { unfold nothing_to_stage. rewrite (configuration_infos _ _ Hconf), Hin.
    eapply Forall_impl; [exact Hnone|]. intros info [Hne Hv]. cbn beta.
    split; [done|]. by rewrite bunch_get_set_ne. }
  assert (bunch_set "cwd" (VStr (outdir_of X w')) (inputs (self w')) =
          inputs (self w')) as Hsame.
  { rewrite Hout, Hin. apply bunch_set_set. }
  split.
  { rewrite (runs_out _ _ _ _ _ (runs_hash_inputs X w')).
    unfold str_inputs. by rewrite Hin. }
  rewrite <- Hout in Hdir.
  destruct (prepare_outdir_existing w' _ Hbase Hdir) as [Hprep Hlog0].
  pose proof (runs_decide_run_exact X w') as Hd. cbn zeta in Hd.
  rewrite Hsame, Hprep, Hlog0, (settled_with_base w' _ Hbase) in Hd.
  rewrite set_inputs_same in Hd.
  rewrite Hout, Hin in Hd at 1 2.
  rewrite (configuration_overwrite_set _ _ Hconf), How in Hd.
  rewrite Hout in Hd. rewrite Hin in Hd at 1. rewrite Hmark in Hd.
  cbn [orb negb] in Hd.
  pose proof (before_fanout_nothing_to_stage X w' _ Hdb' Hnone'
                (runs_out _ _ _ _ _ Hd)) as Hb.
  cbn zeta in Hb. cbn [d_execute d_outdir] in Hb.
  rewrite (runs_world _ _ _ _ _ Hd), (runs_log _ _ _ _ _ Hd) in Hb.
  cbn [app] in Hb.
  pose proof (run_anatomy X w') as Han. cbn zeta in Han.
  rewrite (runs_out _ _ _ _ _ Hb), (runs_world _ _ _ _ _ Hb),
    (runs_log _ _ _ _ _ Hb) in Han.
  cbn [execute_flag after_fanout] in Han.
  match type of Han with context [_run_interface false ?wb] =>
    destruct (run_interface_summary false wb)
      as (o & wi & li & Hi & _ & Hini & Hmade & Hlen & _);
    rewrite (runs_out _ _ _ _ _ Hi), (runs_world _ _ _ _ _ Hi),
      (runs_log _ _ _ _ _ Hi) in Han
  end.
  cbn [self] in Hini, Hlen.
  assert (log (run X w') = li /\
          inputs (self (world (run X w'))) = inputs (self w')) as [-> ->].
  { destruct o as [[]|e]; rewrite Han; cbn [log world ret app].
    - by rewrite app_nil_r.
    - done. }
  split; [|done].
  eapply Forall_impl; [exact Hmade|]. by intros e [ins ->].
Qed.

End CacheHit.

(** ** The working directory *)

Section WorkingDirectory.
Context {FS : Type} (X : Externals FS).
Implicit Types w : World FS.

Lemma before_fanout_world w dec :
  disk_based (self w) = true ->
  out (decide_run X w) = Ok dec ->
  let w1 := world (decide_run X w) in
  world (before_fanout X w) =
  if d_execute dec
  then world (stage_inputs X (d_outdir dec)
                {| self := self w1;
                   disk := cleandir X (d_outdir dec) (disk w1) |})
  else world (restage_inputs X (d_outdir dec) w1).
Proof.
  intros Hdb Hout. cbn zeta.
  pose proof (runs_intro (decide_run X) w) as Hd. rewrite Hout in Hd.
  set (w1 := world (decide_run X w)) in *.
  destruct (d_execute dec) eqn:Hgo.
  - set (wc := {| self := self w1;
                  disk := cleandir X (d_outdir dec) (disk w1) |}).
    pose proof (runs_intro (stage_inputs X (d_outdir dec)) wc) as Hst.
    apply (runs_world (before_fanout X) w
             (match out (stage_inputs X (d_outdir dec) wc) with
              | Ok _ => Ok (Executing dec)
              | Raise e => Raise e
              end) _
             (log (decide_run X w) ++ EvCleandir (d_outdir dec) ::
              log (stage_inputs X (d_outdir dec) wc))).
    unfold before_fanout.
    destruct (out (stage_inputs X (d_outdir dec) wc)) as [[]|e].
    + eapply runs_conv.
      { run_step. rewrite Hdb. eapply runs_seq; [exact Hd|]. cbn beta.
        rewrite Hgo. run_step. run_step. run_step.
        eapply runs_seq; [exact Hst|]. cbn beta. run_prim. }
      cbn [app]. by rewrite ?app_nil_r.
    + eapply runs_conv.
      { run_step. rewrite Hdb. eapply runs_seq; [exact Hd|]. cbn beta.
        rewrite Hgo. run_step. run_step. run_step.
        eapply runs_bind_raise. exact Hst. }
      cbn [app]. by rewrite ?app_nil_r.
  - pose proof (runs_intro (restage_inputs X (d_outdir dec)) w1) as Hst.
    apply (runs_world (before_fanout X) w
             (match out (restage_inputs X (d_outdir dec) w1) with
              | Ok _ => Ok (Skipping dec)
              | Raise e => Raise e
              end) _
             (log (decide_run X w) ++
              log (restage_inputs X (d_outdir dec) w1))).
    unfold before_fanout.
    destruct (out (restage_inputs X (d_outdir dec) w1)) as [[]|e].
    + eapply runs_conv.
      { run_step. rewrite Hdb. eapply runs_seq; [exact Hd|]. cbn beta.
        rewrite Hgo. eapply runs_seq; [exact Hst|]. cbn beta. run_prim. }
      cbn [app]. by rewrite ?app_nil_r.
    + eapply runs_conv.
      { run_step. rewrite Hdb. eapply runs_seq; [exact Hd|]. cbn beta.
        rewrite Hgo. eapply runs_bind_raise. exact Hst. }
      cbn [app]. by rewrite ?app_nil_r.
Qed.

(** The calls of a fan-out are made with every scalar input as it is
    bound. *)
Lemma run_interface_sees k v (execute : bool) w :
  bunch_get k (inputs (self w)) = Some v ->
  is_list v = false ->
  Forall (sees k v) (log (_run_interface execute w)).
Proof.
  intros Hk Hv.
  destruct (decide (length (iterfield (self w)) = 1%nat)) as [Hlen|Hlen].
  - destruct (iterfield (self w)) as [|field [|? ?]] eqn:Hit; try done.
    destruct (bunch_get field (inputs (self w))) as [v0|] eqn:Hget.
    + destruct (runs_run_interface_fanout execute w field v0 Hit Hget)
        as (w' & Hr & _).
      rewrite (runs_log _ _ _ _ _ Hr).
      apply Forall_fmap, Forall_forall. intros it Hin ins Hins.
      assert (ins = it_inputs it) as ->.
      { unfold event_of in Hins.
        destruct execute, Hins as [Hins|Hins]; congruence. }
      assert (it_inputs it ∈
              it_inputs <$>
              iterations execute (_interface (self w)) field
                (inputs (self w)) (disk w) (itervals_of v0)) as Hin'.
      { apply list_elem_of_fmap. by exists it. }
      rewrite iterations_inputs in Hin'.
      apply list_elem_of_fmap in Hin' as (x & -> & Hx).
      destruct (decide (field = k)) as [->|Hne].
      * rewrite bunch_get_set_eq. rewrite Hget in Hk. injection Hk as ->.
        assert (itervals_of v = [v]) as Hone by (by destruct v).
        rewrite Hone in Hx. by apply list_elem_of_singleton in Hx as ->.
      * by rewrite bunch_get_set_ne.
    + pose proof (runs_run_interface_unbound execute w field Hit Hget) as Hr.
      rewrite (runs_log _ _ _ _ _ Hr). constructor.
  - pose proof (runs_run_interface_single execute w Hlen) as Hr.
    cbn zeta in Hr. rewrite (runs_log _ _ _ _ _ Hr).
    repeat constructor. intros ins Hins.
    assert (ins = inputs (self w)) as ->; [|done].
    unfold event_of, pass in Hins.
    destruct execute, Hins as [Hins|Hins]; cbn in Hins; congruence.
Qed.

(** X16. A disk-based run binds [cwd] to the output directory of the
    node before anything else: unless the interface declares [cwd] as a
    file input, every call of the interface that the run makes, be it
    an execution or an aggregation, sees [cwd] bound to that directory,
    and so does whoever reads the inputs afterwards, whether the run
    returned or raised. *)
Theorem run_binds_cwd_to_the_output_directory w :
  disk_based (self w) = true ->
  "cwd" ∉ (key <$> i_get_input_info (_interface (self w))) ->
  let outdir := VStr (outdir_of X w) in
  bunch_get "cwd" (inputs (self (world (run X w)))) = Some outdir /\
  Forall (sees "cwd" outdir) (log (run X w)).
Proof.
  intros Hdb Hcwd. cbn zeta.
  pose proof (runs_decide_run_exact X w) as Hd. cbn zeta in Hd.
  destruct (decide_run_world X w) as (Hin & Hconf & _).
  pose proof (before_fanout_world w _ Hdb (runs_out _ _ _ _ _ Hd)) as Hwb.
  cbn zeta in Hwb. cbn [d_execute d_outdir] in Hwb.
  set (w1 := world (decide_run X w)) in *.
  assert ("cwd" ∉ (key <$> i_get_input_info (_interface (self w1)))) as Hcwd1
    by (by rewrite (configuration_infos _ _ Hconf)).
  assert (bunch_get "cwd" (inputs (self (world (before_fanout X w)))) =
          Some (VStr (outdir_of X w))) as Hb.
  { rewrite Hwb.
    match goal with |- context [if ?c then _ else _] => destruct c end.
    - match goal with |- context [stage_inputs X ?o ?wc] =>
        pose proof (frame_stage_inputs X "cwd" o wc Hcwd1) as Hf
      end.
      unfold same_binding in Hf. rewrite Hf. cbn [self].
      rewrite Hin. apply bunch_get_set_eq.
    - match goal with |- context [restage_inputs X ?o ?wc] =>
        pose proof (frame_restage_inputs X "cwd" o wc Hcwd1) as Hf
      end.
      unfold same_binding in Hf. rewrite Hf.
      rewrite Hin. apply bunch_get_set_eq. }
  destruct (before_fanout_disk X w Hdb)
    as (dec & w1' & l1 & o & w2 & l2 & _ & Hl1 & Hrb & Hl2 & _).
  assert (Forall (sees "cwd" (VStr (outdir_of X w)))
            (log (before_fanout X w))) as Hlb.
  { rewrite (runs_log _ _ _ _ _ Hrb). rewrite !Forall_app. split_and!.
    - eapply Forall_impl; [exact Hl1|]. intros e He ins' [->| ->]; done.
    - destruct (d_execute dec); repeat constructor.
      intros ins [?|?]; done.
    - eapply Forall_impl; [exact Hl2|]. intros e He ins' [->| ->]; done. }
  pose proof (run_anatomy X w) as Han. cbn zeta in Han.
  remember (before_fanout X w) as rb eqn:Erb.
  destruct (out rb) as [b|e].
  2:{ rewrite Han. cbn [world log]. done. }
  pose proof (run_interface_sees "cwd" (VStr (outdir_of X w))
                (execute_flag b) (world rb) Hb eq_refl) as Hli.
  destruct (run_interface_summary (execute_flag b) (world rb))
    as (oi & wi & li & Hi & _ & Hini & _).
  rewrite (runs_log _ _ _ _ _ Hi) in Hli.
  rewrite (runs_out _ _ _ _ _ Hi), (runs_world _ _ _ _ _ Hi),
    (runs_log _ _ _ _ _ Hi) in Han.
  destruct oi as [[]|e].
  2:{ rewrite Han. cbn [world log]. rewrite Hini.
      split; [done|]. by apply Forall_app. }
  assert (Forall (sees "cwd" (VStr (outdir_of X w)))
            (log (after_fanout X b wi))) as Hla.
  { destruct b; try (by constructor). cbn [after_fanout].
    destruct (check_returncode_summary X (d_hashfile dec0) (d_inputstr dec0)
                wi) as (oa & wa & la & Ha & _ & Hla).
    rewrite (runs_log _ _ _ _ _ Ha).
    destruct Hla as [[_ ->]|[_ ->]]; repeat constructor.
    intros ins [?|?]; done. }
  pose proof (after_fanout_self X b wi) as Hself.
  remember (after_fanout X b wi) as ra eqn:Era.
  rewrite Han. cbn [world log]. rewrite Hself, Hini.
  split; [done|]. rewrite !Forall_app. done.
Qed.

End WorkingDirectory.

(** ** Edges of the fan-out *)

Section Edges.
Context {FS : Type} (X : Externals FS).
Implicit Types w : World FS.

(** X18. When the iterfield names an input that is not bound, a run that
    is not disk based fails before it has done anything: no call is
    made, and the node, its previous result included, and the file
    system are as they were. *)
Theorem unbound_iterfield_fails_before_any_call w field :
  disk_based (self w) = false ->
  iterfield (self w) = [field] ->
  bunch_get field (inputs (self w)) = None ->
  ~ is_ok (out (run X w)) /\ world (run X w) = w /\ log (run X w) = [].
Proof.
  intros Hdb Hit Hget. rewrite (run_direct X w Hdb).
  pose proof (runs_run_interface_unbound true w field Hit Hget) as Hr.
  rewrite (runs_out _ _ _ _ _ Hr), (runs_world _ _ _ _ _ Hr),
    (runs_log _ _ _ _ _ Hr).
  cbn [out world log]. split; [|done]. by intros [].
Qed.

(** X19. A fan-out over the empty sequence calls nothing and succeeds:
    the result has no record and no output, the inputs are as they
    were, and the return code [run] reads off that result is zero. *)
Theorem empty_fanout_succeeds_without_a_call (execute : bool) w field :
  iterfield (self w) = [field] ->
  bunch_get field (inputs (self w)) = Some (VList []) ->
  let r := _run_interface execute w in
  out r = Ok tt /\
  log r = [] /\
  inputs (self (world r)) = inputs (self w) /\
  exists res,
    _result (self (world r)) = Some res /\
    interface res = SList [] /\ runtime res = SList [] /\
    outputs res = [] /\
    result_returncode res = Some 0.
Proof.
  intros Hit Hget. cbn zeta.
  destruct (runs_run_interface_fanout execute w field _ Hit Hget)
    as (w' & Hr & _ & Hin & Hres).
  rewrite (runs_out _ _ _ _ _ Hr), (runs_world _ _ _ _ _ Hr),
    (runs_log _ _ _ _ _ Hr).
  split; [done|]. split; [done|]. split; [done|].
  eexists. split; [exact Hres|]. done.
Qed.

(** X20. On a node without a single iterfield, a run that takes the skip
    branch returns a result made of the aggregated outputs alone: its
    [interface] and [runtime] are [None], so that no return code can be
    read off it, and the one call made is to [aggregate_outputs]. *)
Theorem cache_hit_result_has_no_runtime w dec :
  length (iterfield (self w)) ≠ 1%nat ->
  out (before_fanout X w) = Ok (Skipping dec) ->
  let wb := world (before_fanout X w) in
  let res :=
    {| interface := SNone; runtime := SNone;
       outputs :=
         i_aggregate_outputs (_interface (self wb)) (inputs (self wb))
           (disk wb) |} in
  out (run X w) = Ok (Some res) /\
  result_returncode res = None /\
  log (run X w) = log (before_fanout X w) ++ [EvAggregate (inputs (self wb))].
Proof.
  intros Hlen Hout. cbn zeta.
  set (wb := world (before_fanout X w)).
  assert (length (iterfield (self wb)) ≠ 1%nat) as Hlen'.
  { unfold wb. by rewrite (static_iterfield _ _ (before_fanout_static X w)). }
  pose proof (runs_run_interface_single false wb Hlen') as Hi.
  cbn zeta in Hi. cbn [pass fst snd it_run it_outputs] in Hi.
  pose proof (run_anatomy X w) as Han. cbn zeta in Han.
  rewrite Hout in Han. fold wb in Han. cbn [execute_flag after_fanout] in Han.
  rewrite (runs_out _ _ _ _ _ Hi), (runs_world _ _ _ _ _ Hi),
    (runs_log _ _ _ _ _ Hi) in Han.
  rewrite Han. cbn [out world log ret self]. split; [done|]. split; [done|].
  unfold event_of. cbn [it_inputs]. by rewrite app_nil_r.
Qed.

End Edges.

(** ** A disk-based run, branch by branch *)

Section Branches.
Context {FS : Type} (X : Externals FS).
Implicit Types w : World FS.

(** What a disk-based run does before the fan-out: the decision, then
    the directory is cleaned and the inputs staged from the cleaned file
    system, or the inputs are restaged from the file system as the
    decision left it. *)
Lemma before_fanout_exact w dec :
  disk_based (self w) = true ->
  out (decide_run X w) = Ok dec ->
  let w1 := world (decide_run X w) in
  let rs :=
    if d_execute dec
    then stage_inputs X (d_outdir dec)
           {| self := self w1;
              disk := cleandir X (d_outdir dec) (disk w1) |}
    else restage_inputs X (d_outdir dec) w1 in
  before_fanout X w =
  {| out := match out rs with
            | Ok _ => Ok (if d_execute dec then Executing dec
                          else Skipping dec)
            | Raise e => Raise e
            end;
     world := world rs;
     log := log (decide_run X w) ++
            (if d_execute dec then [EvCleandir (d_outdir dec)] else []) ++
            log rs |}.
Proof.
  intros Hdb Hout. cbn zeta.
  pose proof (runs_intro (decide_run X) w) as Hd. rewrite Hout in Hd.
  set (w1 := world (decide_run X w)) in *.
  destruct (d_execute dec) eqn:Hgo.
  - set (wc := {| self := self w1;
                  disk := cleandir X (d_outdir dec) (disk w1) |}).
    pose proof (runs_intro (stage_inputs X (d_outdir dec)) wc) as Hst.
    unfold before_fanout.
    destruct (out (stage_inputs X (d_outdir dec) wc)) as [[]|e].
    + eapply runs_conv.
      { run_step. rewrite Hdb. eapply runs_seq; [exact Hd|]. cbn beta.
        rewrite Hgo. run_step. run_step. run_step.
        eapply runs_seq; [exact Hst|]. cbn beta. run_prim. }
      cbn [app]. by rewrite ?app_nil_r.
    + eapply runs_conv.
      { run_step. rewrite Hdb. eapply runs_seq; [exact Hd|]. cbn beta.
        rewrite Hgo. run_step. run_step. run_step.
        eapply runs_bind_raise. exact Hst. }
      cbn [app]. by rewrite ?app_nil_r.
  - pose proof (runs_intro (restage_inputs X (d_outdir dec)) w1) as Hst.
    unfold before_fanout.
    destruct (out (restage_inputs X (d_outdir dec) w1)) as [[]|e].
    + eapply runs_conv.
      { run_step. rewrite Hdb. eapply runs_seq; [exact Hd|]. cbn beta.
        rewrite Hgo. eapply runs_seq; [exact Hst|]. cbn beta. run_prim. }
      cbn [app]. by rewrite ?app_nil_r.
    + eapply runs_conv.
      { run_step. rewrite Hdb. eapply runs_seq; [exact Hd|]. cbn beta.
        rewrite Hgo. eapply runs_bind_raise. exact Hst. }
      cbn [app]. by rewrite ?app_nil_r.
Qed.

Lemma bunch_set_keeps_bound k k' v (b : Bunch) :
  is_Some (bunch_get k b) -> is_Some (bunch_get k (bunch_set k' v b)).
Proof.
  intros Hk. destruct (decide (k' = k)) as [->|Hne].
  - rewrite bunch_get_set_eq. eauto.
  - by rewrite bunch_get_set_ne.
Qed.

(** Staging returns when every file input is bound. *)
Lemma stage_loop_returns outdir l : forall w,
  Forall (fun info => is_Some (bunch_get (key info) (inputs (self w)))) l ->
  out (for_each l (stage_body X outdir) w) = Ok tt.
Proof.
  induction l as [|info l IH]; intros w Hl; [done|].
  apply Forall_cons in Hl as [[files Hfiles] Hl].
  pose proof (runs_stage_body X outdir info w files Hfiles) as Hstep.
  cbn zeta in Hstep.
  match type of Hstep with runs _ _ _ ?w1' _ => set (w1 := w1') in * end.
  assert (Forall (fun info' =>
            is_Some (bunch_get (key info') (inputs (self w1)))) l) as Hl1.
  { eapply Forall_impl; [exact Hl|]. intros info' Hb. cbn beta in *.
    unfold w1. destruct files; try done; cbn [self];
      change (inputs (set_inputs ?b ?n)) with b;
      by apply bunch_set_keeps_bound. }
  pose proof (runs_intro (for_each l (stage_body X outdir)) w1) as Hrest.
  rewrite (IH w1 Hl1) in Hrest.
  exact (runs_out _ _ _ _ _
           (runs_seq _ (fun _ => for_each l (stage_body X outdir))
              _ _ _ _ _ _ _ Hstep Hrest)).
Qed.

Lemma restage_loop_returns outdir l : forall w,
  Forall (fun info => is_Some (bunch_get (key info) (inputs (self w)))) l ->
  out (for_each l (restage_body X outdir) w) = Ok tt.
Proof.
  induction l as [|info l IH]; intros w Hl; [done|].
  apply Forall_cons in Hl as [[files Hfiles] Hl].
  destruct (restage_body_spec X outdir info w files Hfiles)
    as (Hout1 & Hin1 & _). cbn zeta in *.
  pose proof (runs_intro (restage_body X outdir info) w) as Hstep.
  rewrite Hout1 in Hstep.
  set (w1 := world (restage_body X outdir info w)) in *.
  assert (Forall (fun info' =>
            is_Some (bunch_get (key info') (inputs (self w1)))) l) as Hl1.
  { eapply Forall_impl; [exact Hl|]. intros info' Hb. cbn beta in *.
    rewrite Hin1. by apply bunch_set_keeps_bound. }
  pose proof (runs_intro (for_each l (restage_body X outdir)) w1) as Hrest.
  rewrite (IH w1 Hl1) in Hrest.
  exact (runs_out _ _ _ _ _
           (runs_seq _ (fun _ => for_each l (restage_body X outdir))
              _ _ _ _ _ _ _ Hstep Hrest)).
Qed.

(** Before the fan-out nothing raises when the file inputs are bound. *)
Lemma before_fanout_returns w :
  Forall (fun info => is_Some (bunch_get (key info) (inputs (self w))))
    (i_get_input_info (_interface (self w))) ->
  is_ok (out (before_fanout X w)).
Proof.
  intros Hbound. destruct (disk_based (self w)) eqn:Hdb.
  2:{ by rewrite (runs_out _ _ _ _ _ (before_fanout_direct X w Hdb)). }
  pose proof (runs_decide_run_exact X w) as Hd. cbn zeta in Hd.
  rewrite (before_fanout_exact w _ Hdb (runs_out _ _ _ _ _ Hd)).
  cbn [out d_execute d_outdir].
  destruct (decide_run_world X w) as (Hin & Hconf & _).
  set (w1 := world (decide_run X w)) in *.
  assert (forall d,
            Forall (fun info =>
                      is_Some (bunch_get (key info)
                                 (inputs (self {| self := self w1;
                                                  disk := d |}))))
              (i_get_input_info (_interface (self w1)))) as Hbound1.
  { intros d. cbn [self]. rewrite (configuration_infos _ _ Hconf), Hin.
    eapply Forall_impl; [exact Hbound|]. intros info Hb. cbn beta.
    by apply bunch_set_keeps_bound. }
  match goal with |- context [if ?c then _ else _] => destruct c end.
  - rewrite stage_inputs_unfold.
    rewrite (bind_silent _ _ _ _ (runs_get_self _)). cbn [self].
    by rewrite (stage_loop_returns _ _ _ (Hbound1 _)).
  - rewrite restage_inputs_unfold.
    rewrite (bind_silent _ _ _ _ (runs_get_self _)).
    specialize (Hbound1 (disk w1)). destruct w1 as [s1 d1].
    by rewrite (restage_loop_returns _ _ _ Hbound1).
Qed.

(** The calls that are due, spelled out. *)
Lemma calls_due_explicit w :
  calls_due X w =
  match out (before_fanout X w) with
  | Raise _ => 0%nat
  | Ok _ =>
      match iterfield (self w) with
      | [field] =>
          match bunch_get field (inputs (self (world (before_fanout X w))))
          with
          | Some v => length (itervals_of v)
          | None => 0%nat
          end
      | _ => 1%nat
      end
  end.
Proof.
  unfold calls_due, fanout_calls.
  by rewrite (static_iterfield _ _ (before_fanout_static X w)).
Qed.

End Branches.

(** * The claims on a disk-based run *)

Section DiskBasedClaims.
Context {FS : Type} (X : Externals FS).
Implicit Types w : World FS.

(** The fan-out and what follows it leave the inputs as staging left
    them. *)
Lemma run_inputs_after_fanout w :
  inputs (self (world (run X w))) =
  inputs (self (world (before_fanout X w))).
Proof.
  pose proof (run_anatomy X w) as Han. cbn zeta in Han.
  remember (before_fanout X w) as rb eqn:Erb.
  destruct (out rb) as [b|e]; [|by rewrite Han].
  destruct (run_interface_summary (execute_flag b) (world rb))
    as (oi & wi & li & Hi & _ & Hini & _).
  rewrite (runs_out _ _ _ _ _ Hi), (runs_world _ _ _ _ _ Hi),
    (runs_log _ _ _ _ _ Hi) in Han.
  destruct oi as [[]|e].
  - pose proof (after_fanout_self X b wi) as Hself.
    remember (after_fanout X b wi) as ra eqn:Era.
    rewrite Han. cbn [world]. by rewrite Hself.
  - rewrite Han. cbn [world]. done.
Qed.

(** Before the fan-out, a disk-based run leaves alone every input but
    [cwd] and the file inputs. *)
Lemma before_fanout_keeps_binding k w :
  disk_based (self w) = true ->
  k ≠ "cwd" ->
  k ∉ (key <$> i_get_input_info (_interface (self w))) ->
  bunch_get k (inputs (self (world (before_fanout X w)))) =
  bunch_get k (inputs (self w)).
Proof.
  intros Hdb Hcwd Hk.
  pose proof (runs_decide_run_exact X w) as Hd. cbn zeta in Hd.
  rewrite (before_fanout_exact X w _ Hdb (runs_out _ _ _ _ _ Hd)).
  cbn [world d_execute d_outdir].
  destruct (decide_run_world X w) as (Hin & Hconf & _).
  set (w1 := world (decide_run X w)) in *.
  assert (k ∉ (key <$> i_get_input_info (_interface (self w1)))) as Hk1
    by (by rewrite (configuration_infos _ _ Hconf)).
  assert (bunch_get k (inputs (self w1)) = bunch_get k (inputs (self w)))
    as Hk0 by (rewrite Hin; by apply bunch_get_set_ne).
  match goal with |- context [if ?c then _ else _] => destruct c end.
  - match goal with |- context [stage_inputs X ?o ?wc] =>
      pose proof (frame_stage_inputs X k o wc Hk1) as Hf
    end.
    unfold same_binding in Hf. by rewrite Hf.
  - match goal with |- context [restage_inputs X ?o ?wc] =>
      pose proof (frame_restage_inputs X k o wc Hk1) as Hf
    end.
    unfold same_binding in Hf. by rewrite Hf.
Qed.

Lemma run_keeps_binding k w :
  disk_based (self w) = true ->
  k ≠ "cwd" ->
  k ∉ (key <$> i_get_input_info (_interface (self w))) ->
  bunch_get k (inputs (self (world (run X w)))) =
  bunch_get k (inputs (self w)).
Proof.
  intros Hdb Hcwd Hk. rewrite run_inputs_after_fanout.
  by apply before_fanout_keeps_binding.
Qed.

(** C1 (amended). On a disk-based node [run] settles the marker file
    [_0x<hash>.txt] from the hash of the inputs and takes the execute
    branch exactly when [overwrite] is true or that file is missing from
    the output directory.  Staging comes before any call: it returns
    when every declared file input is bound, and when it raises no call
    is made at all.  Once staging has returned, the execute branch calls
    the interface's [run] once for each element of the sequence the
    iterfield is bound to at that point (once for a scalar, exactly once
    when the node has no single iterfield, never when the iterfield is
    not bound) and [aggregate_outputs] never; the skip branch calls
    [aggregate_outputs] that many times and [run] never.  For an
    iterfield that is neither [cwd] nor a declared file input, the
    sequence is the one it was bound to when [run] was called. *)
Theorem run_decision w :
  disk_based (self w) = true ->
  exists dec,
    out (decide_run X w) = Ok dec /\
    d_hashfile dec =
      os_path_join X (d_outdir dec)
        (marker_name (md5_hexdigest X (d_inputstr dec))) /\
    d_inputstr dec = str_inputs X (self (world (decide_run X w))) /\
    d_execute dec =
      overwrite_set (self w) ||
      negb (os_path_exists X (d_hashfile dec) (disk (world (decide_run X w)))) /\
    (Forall (fun info => is_Some (bunch_get (key info) (inputs (self w))))
       (i_get_input_info (_interface (self w))) ->
     is_ok (out (before_fanout X w))) /\
    let calls :=
      match out (before_fanout X w) with
      | Raise _ => 0%nat
      | Ok _ =>
          match iterfield (self w) with
          | [field] =>
              match bunch_get field
                      (inputs (self (world (before_fanout X w))))
              with
              | Some v => length (itervals_of v)
              | None => 0%nat
              end
          | _ => 1%nat
          end
      end in
    count_events is_execute (log (run X w)) =
      (if d_execute dec then calls else 0%nat) /\
    count_events is_aggregate (log (run X w)) =
      (if d_execute dec then 0%nat else calls) /\
    (forall field,
       iterfield (self w) = [field] ->
       field ≠ "cwd" ->
       field ∉ (key <$> i_get_input_info (_interface (self w))) ->
       is_ok (out (before_fanout X w)) ->
       calls = fanout_calls (self w)).
Proof.
  intros Hdb.
  destruct (run_log_disk X w Hdb)
    as (dec & w1 & l1 & l2 & l3 & l4 & Hdec & Hl1 & Hlog & Hl2 & Hl3 & Hlen &
        Hl4 & _).
  destruct (decide_run_spec X w dec w1 l1 Hdec)
    as (Hout & Hstr & Hhash & Hgo & Hin).
  exists dec.
  rewrite (runs_out _ _ _ _ _ Hdec), (runs_world _ _ _ _ _ Hdec).
  split; [done|]. split; [done|]. split.
  { unfold str_inputs. by rewrite Hin. }
  split; [done|]. split; [apply before_fanout_returns|].
  cbn zeta.
  assert (forall field,
    iterfield (self w) = [field] ->
    field ≠ "cwd" ->
    field ∉ (key <$> i_get_input_info (_interface (self w))) ->
    is_ok (out (before_fanout X w)) ->
    match out (before_fanout X w) with
    | Raise _ => 0%nat
    | Ok _ =>
        match iterfield (self w) with
        | [field] =>
            match bunch_get field
                    (inputs (self (world (before_fanout X w))))
            with
            | Some v => length (itervals_of v)
            | None => 0%nat
            end
        | _ => 1%nat
        end
    end = fanout_calls (self w)) as Hsame.
  { intros field Hit Hcwd Hkey Hok.
    pose proof (before_fanout_keeps_binding field w Hdb Hcwd Hkey) as Hkeep.
    unfold fanout_calls. rewrite Hit.
    remember (before_fanout X w) as rb eqn:Erb.
    destruct (out rb); [|done]. by rewrite Hkeep. }
  rewrite <- calls_due_explicit in *.
  cut (count_events is_execute (log (run X w)) =
         (if d_execute dec then calls_due X w else 0%nat) /\
       count_events is_aggregate (log (run X w)) =
         (if d_execute dec then 0%nat else calls_due X w)).
  { intros [? ?]. done. }
  assert (forall p,
    (forall e, is_setup e -> p e = false) ->
    (forall e, is_copy e -> p e = false) ->
    p (EvCleandir (d_outdir dec)) = false ->
    p (EvWriteMarker (d_hashfile dec) (d_inputstr dec)) = false ->
    count_events p (log (run X w)) = count_events p l3) as Hcount.
  { intros p Hp1 Hp2 Hp3 Hp4. rewrite Hlog, !count_events_app.
    rewrite (count_events_zero p l1), (count_events_zero p l2).
    - assert (count_events p l4 = 0%nat) as ->.
      { destruct Hl4 as [->|(_ & _ & ->)]; [done|].
        unfold count_events. rewrite filter_cons_False; [done|].
        by rewrite Hp4. }
      assert (count_events p
                (if d_execute dec then [EvCleandir (d_outdir dec)] else [])
              = 0%nat) as ->.
      { destruct (d_execute dec); [|done].
        unfold count_events. rewrite filter_cons_False; [done|].
        by rewrite Hp3. }
      lia.
    - eapply Forall_impl; [exact Hl2|]. auto.
    - eapply Forall_impl; [exact Hl1|]. auto. }
  rewrite !Hcount; try done;
    try (intros e He; by destruct (setup_event e He) as (? & ? & ? & ? & ?));
    try (intros e He; by destruct (copy_event e He) as (? & ? & ? & ?)).
  rewrite <- Hlen. destruct (d_execute dec).
  - split.
    + apply count_events_length. eapply Forall_impl; [exact Hl3|].
      intros e He. by destruct (made_by_event _ e He) as (? & ? & ? & ? & ?).
    + apply count_events_zero. eapply Forall_impl; [exact Hl3|].
      intros e He. by destruct (made_by_event _ e He) as (? & ? & ? & ? & ?).
  - split.
    + apply count_events_zero. eapply Forall_impl; [exact Hl3|].
      intros e He. by destruct (made_by_event _ e He) as (? & ? & ? & ? & ?).
    + apply count_events_length. eapply Forall_impl; [exact Hl3|].
      intros e He. by destruct (made_by_event _ e He) as (? & ? & ? & ? & ?).
Qed.


(** C5 (amended). With one iterfield, the fan-out gives the binding of
    that input back as it found it: a scalar as that scalar, a sequence
    as the full sequence.  So when [run] returns, the binding is the one
    the fan-out started from, with the same shape.  On a node that is
    not disk based this is the binding [run] was called with.  On a
    disk-based node whose iterfield is neither [cwd] nor a declared file
    input, the binding after [run] has the shape and the length it had
    when [run] was called, and it is that very value whenever the
    execute branch was taken, the value is not a list, or no declared
    file input is bound to a list.  (The skip branch assigns to the
    positions of a list-valued file input where the list is, line 172;
    a list that the iterfield shares with such an input is rewritten
    with it, which leaves shape and length alone.) *)
Theorem run_restores_iterfield w field :
  iterfield (self w) = [field] ->
  (forall execute v,
     bunch_get field (inputs (self w)) = Some v ->
     out (_run_interface execute w) = Ok tt /\
     bunch_get field (inputs (self (world (_run_interface execute w)))) =
       Some v) /\
  (forall res,
     out (run X w) = Ok res ->
     exists v,
       bunch_get field (inputs (self (world (before_fanout X w)))) = Some v /\
       bunch_get field (inputs (self (world (run X w)))) = Some v /\
       is_list <$> bunch_get field (inputs (self (world (run X w)))) =
         Some (is_list v)) /\
  (disk_based (self w) = false ->
   world (before_fanout X w) = w /\
   forall res, out (run X w) = Ok res ->
     bunch_get field (inputs (self (world (run X w)))) =
     bunch_get field (inputs (self w))) /\
  (disk_based (self w) = true ->
   field ≠ "cwd" ->
   field ∉ (key <$> i_get_input_info (_interface (self w))) ->
   forall res v dec,
     out (run X w) = Ok res ->
     bunch_get field (inputs (self w)) = Some v ->
     out (decide_run X w) = Ok dec ->
     (exists v',
        bunch_get field (inputs (self (world (run X w)))) = Some v' /\
        is_list v' = is_list v /\
        length (itervals_of v') = length (itervals_of v)) /\
     (d_execute dec = true \/ is_list v = false \/
      Forall (fun info =>
                forall l, bunch_get (key info) (inputs (self w)) ≠
                          Some (VList l))
        (i_get_input_info (_interface (self w))) ->
      bunch_get field (inputs (self (world (run X w)))) = Some v)).
Proof.
  intros Hit. split; [|split; [|split]].
  - intros execute v Hget.
    destruct (runs_run_interface_fanout execute w field v Hit Hget)
      as (w' & Hr & _ & Hin & _).
    rewrite (runs_out _ _ _ _ _ Hr), (runs_world _ _ _ _ _ Hr).
    by rewrite Hin.
  - intros res Hout.
    pose proof (run_anatomy X w) as Han. cbn zeta in Han.
    pose proof (before_fanout_static X w) as Hs.
    destruct (out (before_fanout X w)) as [b|e];
      [|rewrite Han in Hout; done].
    set (wb := world (before_fanout X w)) in *.
    assert (iterfield (self wb) = [field]) as Hit'.
    { by rewrite (static_iterfield _ _ Hs). }
    destruct (bunch_get field (inputs (self wb))) as [v|] eqn:Hget.
    + destruct (runs_run_interface_fanout (execute_flag b) wb field v
                  Hit' Hget) as (wi & Hr & _ & Hin & _).
      rewrite (runs_out _ _ _ _ _ Hr), (runs_world _ _ _ _ _ Hr) in Han.
      exists v. split; [done|].
      rewrite Han. cbn [world]. rewrite (after_fanout_self X), Hin, Hget.
      done.
    + pose proof (runs_run_interface_unbound (execute_flag b) wb field
                    Hit' Hget) as Hr.
      rewrite (runs_out _ _ _ _ _ Hr) in Han.
      rewrite Han in Hout. done.
  - intros Hdb.
    pose proof (runs_world _ _ _ _ _ (before_fanout_direct X w Hdb)) as Hw.
    split; [done|]. intros res _.
    by rewrite run_inputs_after_fanout, Hw.
  - intros Hdb Hcwd Hkey res v dec _ Hget _.
    pose proof (run_keeps_binding field w Hdb Hcwd Hkey) as Hkeep.
    rewrite Hget in Hkeep. split; [by exists v|]. done.
Qed.

End DiskBasedClaims.

Section DiskBasedInstances.

Lemma run_decision_witness :
  let X := Sim.X in
  let w := Sim.w_fan in
  disk_based (self w) = true /\
  exists dec,
    out (decide_run X w) = Ok dec /\
    d_hashfile dec =
      os_path_join X (d_outdir dec)
        (marker_name (md5_hexdigest X (d_inputstr dec))) /\
    d_inputstr dec = str_inputs X (self (world (decide_run X w))) /\
    d_execute dec =
      overwrite_set (self w) ||
      negb (os_path_exists X (d_hashfile dec) (disk (world (decide_run X w)))) /\
    (Forall (fun info => is_Some (bunch_get (key info) (inputs (self w))))
       (i_get_input_info (_interface (self w))) ->
     is_ok (out (before_fanout X w))) /\
    let calls :=
      match out (before_fanout X w) with
      | Raise _ => 0%nat
      | Ok _ =>
          match iterfield (self w) with
          | [field] =>
              match bunch_get field
                      (inputs (self (world (before_fanout X w))))
              with
              | Some v => length (itervals_of v)
              | None => 0%nat
              end
          | _ => 1%nat
          end
      end in
    count_events is_execute (log (run X w)) =
      (if d_execute dec then calls else 0%nat) /\
    count_events is_aggregate (log (run X w)) =
      (if d_execute dec then 0%nat else calls) /\
    (forall field,
       iterfield (self w) = [field] ->
       field ≠ "cwd" ->
       field ∉ (key <$> i_get_input_info (_interface (self w))) ->
       is_ok (out (before_fanout X w)) ->
       calls = fanout_calls (self w)).
Proof.
  cbv zeta. split; [reflexivity|].
  exact (run_decision Sim.X Sim.w_fan eq_refl).
Defined.

(** A declared file input that is not bound makes staging raise: the
    execute branch is taken and nothing is executed. *)
Lemma unbound_file_input_executes_nothing :
  d_execute (Cases.decision_of Cases.w_unstaged) = true /\
  out (before_fanout Sim.X Cases.w_unstaged) = Raise (KeyError "infile") /\
  count_events is_execute (log (run Sim.X Cases.w_unstaged)) = 0%nat /\
  count_events is_aggregate (log (run Sim.X Cases.w_unstaged)) = 0%nat.
Proof. vm_compute. done. Qed.


(** A file left in the output directory by an earlier run is gone when
    the fan-out of an executing run starts, and is still there when the
    run skips. *)
Lemma stale_file_is_cleaned_only_when_executing :
  let stale := "/base/Echo.sim/stale.txt" in
  os_path_exists Sim.X stale (disk Cases.w_stale) = true /\
  d_execute (Cases.decision_of Cases.w_stale) = true /\
  os_path_exists Sim.X stale
    (disk (world (before_fanout Sim.X Cases.w_stale))) = false /\
  os_path_exists Sim.X stale (disk Cases.w_stale_cached) = true /\
  d_execute (Cases.decision_of Cases.w_stale_cached) = false /\
  os_path_exists Sim.X stale
    (disk (world (run Sim.X Cases.w_stale_cached))) = true.
Proof. vm_compute. done. Qed.

Lemma run_restores_iterfield_witness :
  let X := Sim.X in
  let w := Sim.w_fan in
  let field := "x" in
  iterfield (self w) = [field] /\
  (forall execute v,
     bunch_get field (inputs (self w)) = Some v ->
     out (_run_interface execute w) = Ok tt /\
     bunch_get field (inputs (self (world (_run_interface execute w)))) =
       Some v) /\
  (forall res,
     out (run X w) = Ok res ->
     exists v,
       bunch_get field (inputs (self (world (before_fanout X w)))) = Some v /\
       bunch_get field (inputs (self (world (run X w)))) = Some v /\
       is_list <$> bunch_get field (inputs (self (world (run X w)))) =
         Some (is_list v)) /\
  (disk_based (self w) = false ->
   world (before_fanout X w) = w /\
   forall res, out (run X w) = Ok res ->
     bunch_get field (inputs (self (world (run X w)))) =
     bunch_get field (inputs (self w))) /\
  (disk_based (self w) = true ->
   field ≠ "cwd" ->
   field ∉ (key <$> i_get_input_info (_interface (self w))) ->
   forall res v dec,
     out (run X w) = Ok res ->
     bunch_get field (inputs (self w)) = Some v ->
     out (decide_run X w) = Ok dec ->
     (exists v',
        bunch_get field (inputs (self (world (run X w)))) = Some v' /\
        is_list v' = is_list v /\
        length (itervals_of v') = length (itervals_of v)) /\
     (d_execute dec = true \/ is_list v = false \/
      Forall (fun info =>
                forall l, bunch_get (key info) (inputs (self w)) ≠
                          Some (VList l))
        (i_get_input_info (_interface (self w))) ->
      bunch_get field (inputs (self (world (run X w)))) = Some v)).
Proof.
  cbv zeta. split; [reflexivity|].
  exact (run_restores_iterfield Sim.X Sim.w_fan "x" eq_refl).
Defined.

(** On [w_fan], a disk-based node, the sequence bound to [x] is the
    same before and after the run. *)
Lemma run_of_fan_keeps_its_sequence :
  disk_based (self Sim.w_fan) = true /\
  is_ok (out (run Sim.X Sim.w_fan)) /\
  bunch_get "x" (inputs (self Sim.w_fan)) =
    Some (VList [VStr "a"; VStr "b"]) /\
  bunch_get "x" (inputs (self (world (run Sim.X Sim.w_fan)))) =
    Some (VList [VStr "a"; VStr "b"]).
Proof. vm_compute. done. Qed.

End DiskBasedInstances.

(** * Lists shared between inputs on the skip branch *)

Section SharedLists.
Import Store.
Context {FS : Type} (X : Externals FS).
Implicit Types s : shared FS.

Lemma hbunch_get_set_ne k k' v (b : hbunch) :
  k ≠ k' -> hbunch_get k (hbunch_set k' v b) = hbunch_get k b.
Proof.
  intros Hne. induction b as [|[k0 v0] b IH]; cbn.
  - destruct (String.eqb_spec k' k); congruence.
  - destruct (String.eqb_spec k0 k') as [->|Hk0]; cbn.
    + destruct (String.eqb_spec k' k); congruence.
    + destruct (String.eqb_spec k0 k); congruence.
Qed.

Lemma reify_atom fuel (h : heap) v p :
  atom v = Some p -> reify fuel h v = Some p.
Proof. destruct v, fuel; cbn; congruence. Qed.

Lemma omap_atom_Forall2 (items : list hval) :
  Forall (fun v => is_Some (atom v)) items ->
  Forall2 (fun v p => atom v = Some p) items (omap atom items).
Proof.
  induction 1 as [|v items [p Hp] _ IH]; cbn; [constructor|].
  rewrite Hp. by constructor.
Qed.

(** The walk over the list an input is bound to: the list is updated
    where it is. *)
Lemma restage_files_list fuel outdir info l l0 : forall rest pre s fs,
  hbunch_get (key info) (bound s) = Some (HRef l) ->
  objects s !! l = Some (pre ++ rest) ->
  Forall2 (fun v p => atom v = Some p) rest fs ->
  exists d' copies,
    Store.restage_files X fuel outdir info (HRef l0) (length pre) rest s =
      Some (Ok tt,
            {| objects :=
                 <[l := pre ++
                        ((fun p => HStr (fname_presuffix X p outdir)) <$> fs)]>
                   (objects s);
               bound := bound s;
               on_disk := d' |},
            copies) /\
    Forall (restage_copy X outdir [info]) copies /\
    (Forall (fun p => os_path_exists X (fname_presuffix X p outdir)
                        (on_disk s) = true) fs ->
     copies = [] /\ d' = on_disk s).
Proof.
  induction rest as [|f rest IH]; intros pre s fs Hb Hl Hfs.
  - apply Forall2_nil_inv_l in Hfs as ->. exists (on_disk s), [].
    cbn [Store.restage_files fmap list_fmap]. rewrite app_nil_r in Hl |- *.
    rewrite (insert_id _ _ _ Hl). destruct s. done.
  - apply Forall2_cons_inv_l in Hfs as (p & fs' & Hp & Hfs & ->).
    cbn [Store.restage_files]. unfold Store.restage_file.
    rewrite (reify_atom _ _ _ _ Hp), Hb, Hl.
    rewrite bool_decide_eq_true_2
      by (rewrite length_app; cbn [length]; lia).
    set (newfile := fname_presuffix X p outdir).
    set (d1 := if os_path_exists X newfile (on_disk s) then on_disk s
               else (copyfiles X p (VStr newfile) (copy info) (on_disk s)).2).
    set (t1 := if os_path_exists X newfile (on_disk s) then []
               else [EvCopyfiles p (VStr newfile) (copy info)]).
    set (s1 := {| objects := <[l := <[length pre := HStr newfile]>
                                      (pre ++ f :: rest)]> (objects s);
                  bound := bound s; on_disk := d1 |}).
    assert (<[length pre := HStr newfile]> (pre ++ f :: rest) =
            (pre ++ [HStr newfile]) ++ rest) as Hins.
    { rewrite insert_app_r_alt by lia. rewrite Nat.sub_diag. cbn.
      by rewrite <- app_assoc. }
    destruct (IH (pre ++ [HStr newfile]) s1 fs') as (d' & t2 & Hrun & Hsh & Hno).
    { done. }
    { unfold s1. cbn [objects]. rewrite lookup_insert_eq. by rewrite Hins. }
    { done. }
    rewrite length_app in Hrun. cbn [length] in Hrun.
    rewrite Nat.add_1_r in Hrun. rewrite Hrun.
    exists d', (t1 ++ t2). split; [|split].
    + f_equal. f_equal. f_equal. unfold s1. cbn [objects bound].
      rewrite insert_insert_eq. f_equal.
      rewrite fmap_cons, <- app_assoc. done.
    + apply Forall_app. split; [|done]. unfold t1.
      destruct (os_path_exists X newfile (on_disk s)); [constructor|].
      repeat constructor. exists info, p. split; [left|done].
    + intros Hall. apply Forall_cons in Hall as [Hex Hall].
      fold newfile in Hex.
      assert (d1 = on_disk s) as Hd1 by (unfold d1; by rewrite Hex).
      assert (t1 = []) as -> by (unfold t1; by rewrite Hex).
      change (on_disk s1) with d1 in Hno. rewrite Hd1 in Hno.
      destruct (Hno Hall) as [-> ->]. done.
Qed.

(** One file input. *)
Lemma restage_input_spec fuel outdir info s :
  names_files s (key info) ->
  exists s' copies,
    Store.restage_input X fuel outdir info s = Some (Ok tt, s', copies) /\
    (forall k, k ≠ key info ->
       hbunch_get k (bound s') = hbunch_get k (bound s)) /\
    hbunch_get (key info) (bound s') =
      rebound X outdir <$> hbunch_get (key info) (bound s) /\
    (forall l, list_of s (key info) = Some l ->
       objects s' !! l =
       Some ((fun p => HStr (fname_presuffix X p outdir)) <$>
               named_files s (key info))) /\
    (forall l, list_of s (key info) ≠ Some l ->
       objects s' !! l = objects s !! l) /\
    Forall (restage_copy X outdir [info]) copies /\
    (Forall (fun p => os_path_exists X (fname_presuffix X p outdir)
                        (on_disk s) = true) (named_files s (key info)) ->
     copies = [] /\ on_disk s' = on_disk s).
Proof.
  unfold names_files, named_files, list_of, Store.restage_input.
  destruct (hbunch_get (key info) (bound s)) as [v|] eqn:Hb; [|done].
  assert (forall p, atom v = Some p -> v ≠ HNone ->
    rebound X outdir v = HStr (fname_presuffix X p outdir) ->
    exists s' copies,
      Store.restage_files X fuel outdir info v 0 [v] s =
        Some (Ok tt, s', copies) /\
      (forall k, k ≠ key info ->
         hbunch_get k (bound s') = hbunch_get k (bound s)) /\
      hbunch_get (key info) (bound s') = Some (rebound X outdir v) /\
      (forall l : loc, objects s' !! l = objects s !! l) /\
      Forall (restage_copy X outdir [info]) copies /\
      (Forall (fun p => os_path_exists X (fname_presuffix X p outdir)
                          (on_disk s) = true) [p] ->
       copies = [] /\ on_disk s' = on_disk s)) as Hone.
  { intros p Hp Hnone Hre. cbn [Store.restage_files].
    unfold Store.restage_file. rewrite (reify_atom _ _ _ _ Hp).
    cbv zeta. set (newfile := fname_presuffix X p outdir) in *.
    assert (forall d t,
      match v with
      | HRef _ =>
          match hbunch_get (key info) (bound s) with
          | Some (HRef l) =>
              match objects s !! l with
              | Some items =>
                  if bool_decide (0 < length items)%nat
                  then Some (Ok tt,
                             {| objects :=
                                  <[l := <[0%nat := HStr newfile]> items]>
                                    (objects s);
                                bound := bound s; on_disk := d |}, t)
                  else Some (Raise (IndexError
                                      "list assignment index out of range"),
                             {| objects := objects s; bound := bound s;
                                on_disk := d |}, t)
              | None => None
              end
          | Some _ =>
              Some (Raise (TypeError
                             "object does not support item assignment"),
                    {| objects := objects s; bound := bound s;
                       on_disk := d |}, t)
          | None =>
              Some (Raise (KeyError (key info)),
                    {| objects := objects s; bound := bound s;
                       on_disk := d |}, t)
          end
      | _ =>
          Some (Ok tt,
                {| objects := objects s;
                   bound := hbunch_set (key info) (HStr newfile) (bound s);
                   on_disk := d |}, t)
      end =
      Some (Ok tt,
            {| objects := objects s;
               bound := hbunch_set (key info) (HStr newfile) (bound s);
               on_disk := d |}, t)) as -> by (by destruct v).
    eexists _, _. split; [reflexivity|]. cbn [bound objects on_disk].
    split; [intros k Hk; by apply hbunch_get_set_ne|].
    split; [by rewrite Hre, hbunch_get_set_eq|]. split; [done|].
    rewrite app_nil_r. split.
    - destruct (os_path_exists X newfile (on_disk s)); [constructor|].
      repeat constructor. exists info, p. split; [left|done].
    - intros Hall. apply Forall_cons in Hall as [Hex _].
      fold newfile in Hex. by rewrite Hex. }
  intros Hnames. destruct v as [|b|n|f|l].
  - exists s, []. split_and!; done.
  - destruct (Hone (VBool b)) as (s' & t & ? & ? & ? & ? & ? & ?); try done.
    exists s', t. split_and!; try done.
  - destruct (Hone (VInt n)) as (s' & t & ? & ? & ? & ? & ? & ?); try done.
    exists s', t. split_and!; try done.
  - destruct (Hone (VStr f)) as (s' & t & ? & ? & ? & ? & ? & ?); try done.
    exists s', t. split_and!; try done.
  - destruct Hnames as (items & Hl & Hatoms). rewrite Hl.
    destruct (restage_files_list fuel outdir info l l items [] s
                (omap atom items) Hb Hl (omap_atom_Forall2 _ Hatoms))
      as (d' & t & Hrun & Hsh & Hno).
    cbn [length app] in Hrun. rewrite Hrun.
    eexists _, _. split; [reflexivity|]. cbn [bound objects on_disk].
    split_and!; try done.
    + intros l' [= <-]. by rewrite lookup_insert_eq.
    + intros l' Hne. rewrite lookup_insert_ne; [done|]. congruence.
Qed.

Lemma omap_ext_in {A B} (f g : A -> option B) (l : list A) :
  (forall x, x ∈ l -> f x = g x) -> omap f l = omap g l.
Proof.
  induction l as [|x l IH]; intros H; [done|]. cbn.
  rewrite (H x) by left. rewrite IH; [done|]. intros y Hy. apply H. by right.
Qed.

(** The whole loop. *)
Lemma restage_inputs_spec fuel outdir infos : forall s,
  NoDup (key <$> infos) ->
  Forall (fun info => names_files s (key info)) infos ->
  NoDup (omap (fun info => list_of s (key info)) infos) ->
  exists s' copies,
    Store.restage_inputs X fuel outdir infos s = Some (Ok tt, s', copies) /\
    (forall k, k ∉ (key <$> infos) ->
       hbunch_get k (bound s') = hbunch_get k (bound s)) /\
    (forall info, info ∈ infos ->
       hbunch_get (key info) (bound s') =
       rebound X outdir <$> hbunch_get (key info) (bound s)) /\
    (forall info l, info ∈ infos -> list_of s (key info) = Some l ->
       objects s' !! l =
       Some ((fun p => HStr (fname_presuffix X p outdir)) <$>
               named_files s (key info))) /\
    (forall l, (forall info, info ∈ infos -> list_of s (key info) ≠ Some l) ->
       objects s' !! l = objects s !! l) /\
    Forall (restage_copy X outdir infos) copies /\
    ((forall info p, info ∈ infos -> p ∈ named_files s (key info) ->
        os_path_exists X (fname_presuffix X p outdir) (on_disk s) = true) ->
     copies = [] /\ on_disk s' = on_disk s).
Proof.
  induction infos as [|info rest IH]; intros s Hnd Hnames Hlocs.
  { exists s, []. split_and!; try done.
    - intros ? Hin. by apply elem_of_nil in Hin.
    - intros ? ? Hin. by apply elem_of_nil in Hin. }
  rewrite fmap_cons in Hnd. apply NoDup_cons in Hnd as [Hnotin Hnd].
  apply Forall_cons in Hnames as [Hname Hnames].
  destruct (restage_input_spec fuel outdir info s Hname)
    as (s1 & t1 & Hrun1 & F1 & F2 & F3 & F4 & F5 & F6).
  assert (forall info', info' ∈ rest -> key info' ≠ key info) as Hkeys.
  { intros info' Hin Heq. apply Hnotin. rewrite <- Heq.
    apply list_elem_of_fmap. by exists info'. }
  assert (forall info' l, info' ∈ rest -> list_of s (key info') = Some l ->
            list_of s (key info) ≠ Some l) as Hapart.
  { intros info' l Hin Hl Hhead. cbn [omap list_omap] in Hlocs. rewrite Hhead in Hlocs.
    apply NoDup_cons in Hlocs as [Hl' _]. apply Hl'.
    apply list_elem_of_omap. by exists info'. }
  assert (forall info', info' ∈ rest ->
            list_of s1 (key info') = list_of s (key info')) as Hlist1.
  { intros info' Hin. unfold list_of. by rewrite F1 by auto. }
  assert (forall info', info' ∈ rest ->
            named_files s1 (key info') = named_files s (key info')) as Hfiles1.
  { intros info' Hin. unfold named_files. rewrite F1 by auto.
    destruct (hbunch_get (key info') (bound s)) as [[| | | |l]|] eqn:Hb;
      try done.
    rewrite F4; [done|]. apply (Hapart info'); [done|].
    unfold list_of. by rewrite Hb. }
  assert (Forall (fun info' => names_files s1 (key info')) rest) as Hnames1.
  { rewrite Forall_forall in Hnames |- *. intros info' Hin.
    specialize (Hnames info' Hin). unfold names_files in *.
    rewrite F1 by auto.
    destruct (hbunch_get (key info') (bound s)) as [[| | | |l]|] eqn:Hb;
      try done.
    rewrite F4; [done|]. apply (Hapart info'); [done|].
    unfold list_of. by rewrite Hb. }
  assert (NoDup (omap (fun info' => list_of s1 (key info')) rest)) as Hlocs1.
  { rewrite (omap_ext_in _ (fun info' => list_of s (key info'))) by done.
    cbn [omap list_omap] in Hlocs. destruct (list_of s (key info)); [|done].
    by apply NoDup_cons in Hlocs as [_ ?]. }
  destruct (IH s1 Hnd Hnames1 Hlocs1)
    as (s' & t2 & Hrun & C1 & C2 & C3 & C4 & C5 & C6).
  exists s', (t1 ++ t2). cbn [Store.restage_inputs]. rewrite Hrun1, Hrun.
  split; [done|]. split_and!.
  - intros k Hk. rewrite fmap_cons in Hk.
    apply not_elem_of_cons in Hk as [Hk1 Hk2]. rewrite C1 by done. by apply F1.
  - intros info0 Hin. apply elem_of_cons in Hin as [->|Hin].
    + rewrite C1 by done. done.
    + rewrite C2 by done. by rewrite F1 by auto.
  - intros info0 l Hin Hl. apply elem_of_cons in Hin as [->|Hin].
    + rewrite C4; [by apply F3|]. intros info' Hin' Hl'.
      rewrite Hlist1 in Hl' by done. by apply (Hapart info' l).
    + rewrite <- Hfiles1 by done. apply C3; [done|]. by rewrite Hlist1.
  - intros l Hl. rewrite C4.
    + apply F4. apply Hl. left.
    + intros info' Hin. rewrite Hlist1 by done. apply Hl. by right.
  - apply Forall_app. split.
    + eapply Forall_impl; [exact F5|]. intros e.
      apply restage_copy_mono. set_solver.
    + eapply Forall_impl; [exact C5|]. intros e.
      apply restage_copy_mono. set_solver.
  - intros Hstaged. destruct F6 as [-> Hd1].
    { apply Forall_forall. intros p Hp. apply (Hstaged info); [left|done]. }
    destruct C6 as [-> Hd].
    { intros info' p Hin Hp. rewrite Hd1.
      apply (Hstaged info'); [by right|]. by rewrite <- Hfiles1. }
    by rewrite Hd, Hd1.
Qed.

(** Reading an input that is bound to a list of names. *)
Lemma reads_names fuel s k l (names : list string) :
  hbunch_get k (bound s) = Some (HRef l) ->
  objects s !! l = Some (HStr <$> names) ->
  reads (S fuel) s k = Some (VList (VStr <$> names)).
Proof.
  intros Hb Hl. unfold reads. rewrite Hb. cbn [mbind option_bind].
  rewrite reify_cons_ref, Hl.
  assert (mapM (reify fuel (objects s)) (HStr <$> names) =
          Some (VStr <$> names)) as ->; [|done].
  apply mapM_Some. apply Forall2_fmap. apply Forall_Forall2_diag.
  apply Forall_forall. intros p _. by apply reify_atom.
Qed.

(** X15. On the skip branch every file input that is set is rewritten
    to the places of its files in the output directory.  A single file
    is bound anew, to its place.  A list is rewritten where it is,
    position by position: the input stays bound to the same object, that
    object now holds the places, and so every input that holds the list,
    declared file input or not, reads the places afterwards.  [None]
    stays [None], no other binding changes and no other object is
    touched.  The only copies made are of files of these inputs to their
    places, and when every place exists already nothing is copied and
    the file system is left as it was.  This is for file inputs that are
    bound to [None], to a file or to a list of files, no two of them to
    the same list. *)
Theorem restaging_rewrites_and_copies_only_what_is_missing
    fuel outdir infos s :
  let place := fun p => fname_presuffix X p outdir in
  NoDup (key <$> infos) ->
  Forall (fun info => names_files s (key info)) infos ->
  NoDup (omap (fun info => list_of s (key info)) infos) ->
  exists s' copies,
    Store.restage_inputs X fuel outdir infos s = Some (Ok tt, s', copies) /\
    (forall k, k ∉ (key <$> infos) ->
       hbunch_get k (bound s') = hbunch_get k (bound s)) /\
    (forall info, info ∈ infos ->
       hbunch_get (key info) (bound s') =
       rebound X outdir <$> hbunch_get (key info) (bound s)) /\
    (forall l, (forall info, info ∈ infos -> list_of s (key info) ≠ Some l) ->
       objects s' !! l = objects s !! l) /\
    (forall info k l,
       info ∈ infos -> list_of s (key info) = Some l ->
       list_of s k = Some l ->
       list_of s' k = Some l /\
       objects s' !! l =
         Some (HStr <$> (place <$> named_files s (key info))) /\
       reads 1 s' k =
         Some (VList (VStr <$> (place <$> named_files s (key info))))) /\
    Forall (restage_copy X outdir infos) copies /\
    ((forall info p, info ∈ infos -> p ∈ named_files s (key info) ->
        os_path_exists X (place p) (on_disk s) = true) ->
     copies = [] /\ on_disk s' = on_disk s).
Proof.
  cbn zeta. intros Hnd Hnames Hlocs.
  destruct (restage_inputs_spec fuel outdir infos s Hnd Hnames Hlocs)
    as (s' & copies & Hrun & C1 & C2 & C3 & C4 & C5 & C6).
  exists s', copies. split_and!; try done.
  intros info k l Hin Hl Hk.
  assert (hbunch_get k (bound s') = Some (HRef l)) as Hb.
  { assert (hbunch_get k (bound s) = Some (HRef l)) as Hb0.
    { unfold list_of in Hk.
      by destruct (hbunch_get k (bound s)) as [[| | | |?]|]; simplify_eq. }
    destruct (decide (k ∈ key <$> infos)) as [Hkin|Hkout].
    - apply list_elem_of_fmap in Hkin as (info' & -> & Hin').
      by rewrite C2, Hb0.
    - by rewrite C1. }
  assert (objects s' !! l =
          Some (HStr <$> ((fun p => fname_presuffix X p outdir) <$>
                            named_files s (key info)))) as Hobj.
  { rewrite (C3 info l Hin Hl). by rewrite <- list_fmap_compose. }
  split; [by unfold list_of; rewrite Hb|]. split; [done|].
  by apply (reads_names 0 s' k l).
Qed.

End SharedLists.



(** * The skip branch on values and on objects *)

Section ValuesAndObjects.
Context {FS : Type} (X : Externals FS).
Implicit Types (s : Store.shared FS) (w : World FS).

(** The walk over a list of files, on values and on Store.objects at once. *)
Lemma restage_files_agree fuel outdir info files l l0 :
  is_list files = true ->
  forall hrest vrest hpre vpre w s,
  bunch_get (key info) (inputs (self w)) = Some (VList (vpre ++ vrest)) ->
  Store.hbunch_get (key info) (Store.bound s) = Some (Store.HRef l) ->
  Store.objects s !! l = Some (hpre ++ hrest) ->
  length hpre = length vpre ->
  Forall2 (fun h v => Store.atom h = Some v) hrest vrest ->
  Store.on_disk s = disk w ->
  exists s' w' t,
    Store.restage_files X fuel outdir info (Store.HRef l0) (length hpre) hrest s =
      Some (Ok tt, s', t) /\
    runs (for_enumerate (length vpre) vrest
            (restage_file X outdir info files)) w (Ok tt) w' t /\
    Store.on_disk s' = disk w' /\
    Store.bound s' = Store.bound s /\
    Store.objects s' =
      <[l := hpre ++ ((fun v => Store.HStr (fname_presuffix X v outdir)) <$> vrest)]>
        (Store.objects s) /\
    inputs (self w') =
      bunch_set (key info)
        (VList (vpre ++ ((fun v => VStr (fname_presuffix X v outdir)) <$> vrest)))
        (inputs (self w)).
Proof.
  intros Hlist.
  induction hrest as [|h hrest IH];
    intros vrest hpre vpre w s Hcur Hb Hl Hlen Hrel Hdisk.
  - apply Forall2_nil_inv_l in Hrel as ->.
    exists s, w, []. cbn [Store.restage_files for_enumerate fmap list_fmap].
    rewrite !app_nil_r in *. split; [done|]. split; [apply runs_ret|].
    split; [done|]. split; [done|].
    split; [by rewrite (insert_id _ _ _ Hl)|].
    by rewrite (bunch_set_same _ _ _ Hcur).
  - apply Forall2_cons_inv_l in Hrel as (v & vrest' & Hv & Hrel & ->).
    set (newfile := fname_presuffix X v outdir).
    (* the step on values *)
    pose proof (runs_restage_file X outdir info files (length vpre) v w)
      as Hstep.
    cbn zeta in Hstep. rewrite Hlist, Hcur in Hstep.
    assert (length vpre < length (vpre ++ v :: vrest'))%nat as Hlt
      by (rewrite length_app; cbn [length]; lia).
    specialize (Hstep (ex_intro _ _ (conj eq_refl Hlt))).
    fold newfile in Hstep.
    match type of Hstep with runs _ _ _ ?w1' ?t1' =>
      set (w1 := w1') in *; set (t1 := t1') in *
    end.
    (* the step on Store.objects *)
    set (s1 := {| Store.objects := <[l := <[length hpre := Store.HStr newfile]>
                                      (hpre ++ h :: hrest)]> (Store.objects s);
                  Store.bound := Store.bound s; Store.on_disk := disk w1 |}).
    assert (Store.restage_file X fuel outdir info (Store.HRef l0) (length hpre) h s
            = Some (Ok tt, s1, t1)) as Hobj.
    { unfold Store.restage_file.
      rewrite (reify_atom _ _ _ _ Hv), Hb, Hl. cbv zeta.
      rewrite bool_decide_eq_true_2
        by (rewrite length_app; cbn [length]; lia).
      fold newfile. unfold s1, w1, t1. cbn [disk]. by rewrite Hdisk. }
    assert (<[length hpre := Store.HStr newfile]> (hpre ++ h :: hrest) =
            (hpre ++ [Store.HStr newfile]) ++ hrest) as Hhins.
    { rewrite insert_app_r_alt by lia. rewrite Nat.sub_diag. cbn.
      by rewrite <- app_assoc. }
    assert (<[length vpre := VStr newfile]> (vpre ++ v :: vrest') =
            (vpre ++ [VStr newfile]) ++ vrest') as Hvins.
    { rewrite insert_app_r_alt by lia. rewrite Nat.sub_diag. cbn.
      by rewrite <- app_assoc. }
    assert (inputs (self w1) =
            bunch_set (key info) (VList ((vpre ++ [VStr newfile]) ++ vrest'))
              (inputs (self w))) as Hin1.
    { unfold w1. cbn [self]. change (inputs (set_inputs ?b ?n)) with b.
      by rewrite Hvins. }
    destruct (IH vrest' (hpre ++ [Store.HStr newfile]) (vpre ++ [VStr newfile]) w1 s1)
      as (s' & w' & t2 & Hrun & Hval & Hd & Hbound & Hobjs & Hins).
    { by rewrite Hin1, bunch_get_set_eq. }
    { done. }
    { unfold s1. cbn [Store.objects]. by rewrite lookup_insert_eq, Hhins. }
    { rewrite !length_app. cbn [length]. lia. }
    { done. }
    { done. }
    rewrite !length_app in Hrun, Hval. cbn [length] in Hrun, Hval.
    rewrite !Nat.add_1_r in Hrun, Hval.
    exists s', w', (t1 ++ t2). split; [|split; [|split; [|split; [|split]]]].
    + cbn [Store.restage_files]. by rewrite Hobj, Hrun.
    + exact (runs_seq _ (fun _ => for_enumerate (S (length vpre)) vrest'
                                    (restage_file X outdir info files))
               _ _ _ _ _ _ _ Hstep Hval).
    + done.
    + by rewrite Hbound.
    + rewrite Hobjs. unfold s1. cbn [Store.objects]. rewrite insert_insert_eq.
      by rewrite fmap_cons, <- app_assoc.
    + rewrite Hins, Hin1, bunch_set_set. by rewrite fmap_cons, <- app_assoc.
Qed.

Lemma reify_zero (h : Store.heap) v : Store.reify 0 h v = Store.atom v.
Proof. by destruct v. Qed.

(** What is read through an input, within one reference. *)
Lemma reads_one s k :
  Store.reads 1 s k =
  match Store.hbunch_get k (Store.bound s) with
  | Some (Store.HRef l) =>
      match Store.objects s !! l with
      | Some items => VList <$> mapM Store.atom items
      | None => None
      end
  | Some a => Store.atom a
  | None => None
  end.
Proof.
  unfold Store.reads.
  by destruct (Store.hbunch_get k (Store.bound s)) as [[| | | |l]|].
Qed.

Lemma mapM_atom_names (vs : list pyval) (f : pyval -> string) :
  mapM Store.atom ((fun v => Store.HStr (f v)) <$> vs) =
  Some ((fun v => VStr (f v)) <$> vs).
Proof.
  apply mapM_Some. apply Forall2_fmap. apply Forall_Forall2_diag.
  by apply Forall_forall.
Qed.

(** One file input, on values and on objects at once. *)
Lemma restage_input_agree fuel outdir info w s :
  Store.on_disk s = disk w ->
  Store.read_as s (inputs (self w)) ->
  is_Some (bunch_get (key info) (inputs (self w))) ->
  Store.unshared s (key info) ->
  exists s' w' t,
    Store.restage_input X fuel outdir info s = Some (Ok tt, s', t) /\
    runs (restage_body X outdir info) w (Ok tt) w' t /\
    Store.on_disk s' = disk w' /\
    Store.read_as s' (inputs (self w')) /\
    (forall k, k ≠ key info ->
       bunch_get k (inputs (self w')) = bunch_get k (inputs (self w))) /\
    (forall k, k ≠ key info -> Store.list_of s' k = Store.list_of s k) /\
    (Store.list_of s' (key info) = Store.list_of s (key info) \/
     Store.list_of s' (key info) = None).
Proof.
  intros Hdisk Hread [files Hfiles] Hun.
  pose proof (Hread (key info)) as Hkey. rewrite Hfiles, reads_one in Hkey.
  pose proof (runs_getitem (key info) w) as Hg. rewrite Hfiles in Hg.
  unfold Store.restage_input, restage_body.
  (* a single file *)
  assert (forall a, Store.hbunch_get (key info) (Store.bound s) = Some a ->
    Store.atom a = Some files -> files ≠ VNone ->
    exists s' w' t,
      Store.restage_files X fuel outdir info a 0 [a] s = Some (Ok tt, s', t) /\
      runs (for_enumerate 0 [files] (restage_file X outdir info files)) w
        (Ok tt) w' t /\
      Store.on_disk s' = disk w' /\
      Store.read_as s' (inputs (self w')) /\
      (forall k, k ≠ key info ->
         bunch_get k (inputs (self w')) = bunch_get k (inputs (self w))) /\
      (forall k, k ≠ key info -> Store.list_of s' k = Store.list_of s k) /\
      (Store.list_of s' (key info) = Store.list_of s (key info) \/
       Store.list_of s' (key info) = None)) as Hone.
  { intros a Hb Ha Hnone.
    assert (is_list files = false) as Hnl by (destruct a; cbn in Ha; by simplify_eq).
    set (newfile := fname_presuffix X files outdir).
    pose proof (runs_restage_file X outdir info files 0 files w) as Hstep.
    cbn zeta in Hstep. rewrite Hnl in Hstep. specialize (Hstep I).
    fold newfile in Hstep.
    match type of Hstep with runs _ _ _ ?w1' ?t1' =>
      set (w1 := w1') in *; set (t1 := t1') in *
    end.
    set (s1 := {| Store.objects := Store.objects s;
                  Store.bound :=
                    Store.hbunch_set (key info) (Store.HStr newfile)
                      (Store.bound s);
                  Store.on_disk := disk w1 |}).
    assert (Store.restage_file X fuel outdir info a 0 a s
            = Some (Ok tt, s1, t1)) as Hobj.
    { unfold Store.restage_file. rewrite (reify_atom _ _ _ _ Ha). cbv zeta.
      fold newfile. unfold s1, w1, t1. cbn [disk]. rewrite Hdisk.
      by destruct a. }
    exists s1, w1, (t1 ++ []).
    split; [by cbn [Store.restage_files]; rewrite Hobj|].
    split.
    { exact (runs_seq _ (fun _ => ret tt) _ _ _ _ _ _ _ Hstep
               (runs_ret tt _)). }
    split; [done|]. split; [|split; [|split]].
    - intros k. rewrite reads_one. unfold s1, w1. cbn [Store.bound self].
      change (inputs (set_inputs ?b ?n)) with b. cbn [Store.objects].
      destruct (decide (k = key info)) as [->|Hk].
      + by rewrite hbunch_get_set_eq, bunch_get_set_eq.
      + rewrite hbunch_get_set_ne, bunch_get_set_ne by done.
        rewrite <- (Hread k). by rewrite reads_one.
    - intros k Hk. unfold w1. cbn [self].
      change (inputs (set_inputs ?b ?n)) with b.
      by rewrite bunch_get_set_ne.
    - intros k Hk. unfold Store.list_of, s1. cbn [Store.bound].
      by rewrite hbunch_get_set_ne.
    - right. unfold Store.list_of, s1. cbn [Store.bound].
      by rewrite hbunch_get_set_eq. }
  destruct (Store.hbunch_get (key info) (Store.bound s)) as [a|] eqn:Hb;
    [|done].
  destruct a as [|b|n|f|l].
  - injection Hkey as <-. exists s, w, [].
    split; [done|]. split.
    { eapply runs_conv; [eapply runs_seq; [exact Hg|]; apply runs_ret|done]. }
    split_and!; try done. by left.
  - destruct (Hone (Store.HBool b)) as (s' & w' & t & ? & Hv & ?);
      try done.
    { by injection Hkey as <-. }
    injection Hkey as <-. exists s', w', t. split; [done|]. split; [|done].
    eapply runs_conv; [eapply runs_seq; [exact Hg|]; exact Hv|done].
  - destruct (Hone (Store.HInt n)) as (s' & w' & t & ? & Hv & ?);
      try done.
    { by injection Hkey as <-. }
    injection Hkey as <-. exists s', w', t. split; [done|]. split; [|done].
    eapply runs_conv; [eapply runs_seq; [exact Hg|]; exact Hv|done].
  - destruct (Hone (Store.HStr f)) as (s' & w' & t & ? & Hv & ?);
      try done.
    { by injection Hkey as <-. }
    injection Hkey as <-. exists s', w', t. split; [done|]. split; [|done].
    eapply runs_conv; [eapply runs_seq; [exact Hg|]; exact Hv|done].
  - destruct (Store.objects s !! l) as [items|] eqn:Hl; [|done].
    destruct (mapM Store.atom items) as [vs|] eqn:Hvs; [|done].
    injection Hkey as <-.
    apply mapM_Some in Hvs.
    destruct (restage_files_agree fuel outdir info (VList vs) l l eq_refl
                items vs [] [] w s Hfiles Hb Hl eq_refl Hvs Hdisk)
      as (s' & w' & t & Hrun & Hval & Hd & Hbound & Hobjs & Hins).
    cbn [length app] in Hrun, Hval, Hobjs, Hins.
    exists s', w', t. split; [done|]. split.
    { eapply runs_conv; [eapply runs_seq; [exact Hg|]; exact Hval|done]. }
    split; [done|]. split; [|split; [|split]].
    + intros k. rewrite reads_one, Hbound, Hobjs, Hins.
      destruct (decide (k = key info)) as [->|Hk].
      * rewrite Hb, lookup_insert_eq, bunch_get_set_eq.
        by rewrite mapM_atom_names.
      * rewrite bunch_get_set_ne by done. rewrite <- (Hread k), reads_one.
        destruct (Store.hbunch_get k (Store.bound s)) as [[| | | |l']|] eqn:Hbk;
          try done.
        rewrite lookup_insert_ne; [done|]. intros <-. apply Hk.
        apply (Hun k l); unfold Store.list_of; by rewrite ?Hb, ?Hbk.
    + intros k Hk. rewrite Hins. by rewrite bunch_get_set_ne.
    + intros k _. unfold Store.list_of. by rewrite Hbound.
    + left. unfold Store.list_of. by rewrite Hbound.
Qed.

(** The loop, on values and on objects at once. *)
Lemma restage_loop_agree fuel outdir infos : forall w s,
  Store.on_disk s = disk w ->
  Store.read_as s (inputs (self w)) ->
  NoDup (key <$> infos) ->
  Forall (fun info => is_Some (bunch_get (key info) (inputs (self w)))) infos ->
  Forall (fun info => Store.unshared s (key info)) infos ->
  exists s' w' t,
    Store.restage_inputs X fuel outdir infos s = Some (Ok tt, s', t) /\
    runs (for_each infos (restage_body X outdir)) w (Ok tt) w' t /\
    Store.on_disk s' = disk w' /\
    Store.read_as s' (inputs (self w')).
Proof.
  induction infos as [|info rest IH]; intros w s Hdisk Hread Hnd Hbound Hun.
  { exists s, w, []. split; [done|]. split; [apply runs_ret|]. done. }
  rewrite fmap_cons in Hnd. apply NoDup_cons in Hnd as [Hnotin Hnd].
  apply Forall_cons in Hbound as [Hb Hbound].
  apply Forall_cons in Hun as [Hu Hun].
  destruct (restage_input_agree fuel outdir info w s Hdisk Hread Hb Hu)
    as (s1 & w1 & t1 & Hobj1 & Hval1 & Hdisk1 & Hread1 & Hframe & Hother &
        Hown).
  assert (forall info', info' ∈ rest -> key info' ≠ key info) as Hkeys.
  { intros info' Hin Heq. apply Hnotin. rewrite <- Heq.
    apply list_elem_of_fmap. by exists info'. }
  destruct (IH w1 s1 Hdisk1 Hread1 Hnd) as (s' & w' & t2 & Hobj & Hval & ? & ?).
  { rewrite Forall_forall in Hbound |- *. intros info' Hin.
    rewrite Hframe by auto. auto. }
  { rewrite Forall_forall in Hun |- *. intros info' Hin k l Hl Hk.
    specialize (Hun info' Hin).
    rewrite Hother in Hl by auto.
    destruct (decide (k = key info)) as [->|Hne].
    - destruct Hown as [Hown|Hown]; rewrite Hown in Hk; [|done].
      by apply (Hun (key info) l).
    - rewrite Hother in Hk by done. by apply (Hun k l). }
  exists s', w', (t1 ++ t2). cbn [Store.restage_inputs].
  rewrite Hobj1, Hobj. split; [done|]. split; [|done].
  exact (runs_seq _ (fun _ => for_each rest (restage_body X outdir))
           _ _ _ _ _ _ _ Hval1 Hval).
Qed.

(** The loop on values does what the loop on objects does, as long as
    no other input holds the list of a file input: same outcome, the
    same copies in the same order, the same file system, and every
    input reads the same afterwards. *)
Lemma restage_inputs_agree fuel outdir w s :
  let infos := i_get_input_info (_interface (self w)) in
  let r := restage_inputs X outdir w in
  Store.on_disk s = disk w ->
  Store.read_as s (inputs (self w)) ->
  NoDup (key <$> infos) ->
  Forall (fun info => is_Some (bunch_get (key info) (inputs (self w)))) infos ->
  Forall (fun info => Store.unshared s (key info)) infos ->
  exists s',
    Store.restage_inputs X fuel outdir infos s = Some (Ok tt, s', log r) /\
    out r = Ok tt /\
    Store.on_disk s' = disk (world r) /\
    Store.read_as s' (inputs (self (world r))).
Proof.
  cbn zeta. intros Hdisk Hread Hnd Hbound Hun.
  destruct (restage_loop_agree fuel outdir _ w s Hdisk Hread Hnd Hbound Hun)
    as (s' & w' & t & Hobj & Hval & Hd & Hr).
  rewrite restage_inputs_unfold.
  rewrite (bind_silent _ _ _ _ (runs_get_self w)).
  rewrite (runs_out _ _ _ _ _ Hval), (runs_log _ _ _ _ _ Hval),
    (runs_world _ _ _ _ _ Hval).
  by exists s'.
Qed.

End ValuesAndObjects.

Section SharedInstances.
Import Store.

Lemma restaging_rewrites_and_copies_only_what_is_missing_witness :
  let X := Sim.X in
  let s := Cases.s_shared in
  let outdir := "/base/Copier.sim" in
  let infos := i_get_input_info Sim.copier in
  let place := fun p => fname_presuffix X p outdir in
  NoDup (key <$> infos) /\
  Forall (fun info => names_files s (key info)) infos /\
  NoDup (omap (fun info => list_of s (key info)) infos) /\
  exists s' copies,
    Store.restage_inputs X 1 outdir infos s = Some (Ok tt, s', copies) /\
    (forall k, k ∉ (key <$> infos) ->
       hbunch_get k (bound s') = hbunch_get k (bound s)) /\
    (forall info, info ∈ infos ->
       hbunch_get (key info) (bound s') =
       rebound X outdir <$> hbunch_get (key info) (bound s)) /\
    (forall l, (forall info, info ∈ infos -> list_of s (key info) ≠ Some l) ->
       objects s' !! l = objects s !! l) /\
    (forall info k l,
       info ∈ infos -> list_of s (key info) = Some l ->
       list_of s k = Some l ->
       list_of s' k = Some l /\
       objects s' !! l =
         Some (HStr <$> (place <$> named_files s (key info))) /\
       reads 1 s' k =
         Some (VList (VStr <$> (place <$> named_files s (key info))))) /\
    Forall (restage_copy X outdir infos) copies /\
    ((forall info p, info ∈ infos -> p ∈ named_files s (key info) ->
        os_path_exists X (place p) (on_disk s) = true) ->
     copies = [] /\ on_disk s' = on_disk s).
Proof.
  cbv zeta.
  assert (NoDup (key <$> i_get_input_info Sim.copier)) as H1
    by (vm_compute; apply NoDup_singleton).
  assert (Forall (fun info => names_files Cases.s_shared (key info))
            (i_get_input_info Sim.copier)) as H2.
  { repeat constructor.
    exists [HStr "/data/a.nii"; HStr "/data/b.nii"].
    split; [reflexivity|]. repeat constructor; eexists; reflexivity. }
  assert (NoDup (omap (fun info => list_of Cases.s_shared (key info))
                   (i_get_input_info Sim.copier))) as H3
    by (vm_compute; apply NoDup_singleton).
  split; [exact H1|]. split; [exact H2|]. split; [exact H3|].
  exact (restaging_rewrites_and_copies_only_what_is_missing Sim.X 1
           "/base/Copier.sim" (i_get_input_info Sim.copier)
           Cases.s_shared H1 H2 H3).
Defined.

(** The list that [infile] and [other] share is rewritten where it is:
    both inputs read the places afterwards, and each file was copied. *)
Lemma shared_list_is_rewritten_for_both_inputs :
  exists s' copies,
    Store.restage_inputs Sim.X 1 "/base/Copier.sim"
      (i_get_input_info Sim.copier) Cases.s_shared =
      Some (Ok tt, s', copies) /\
    reads 1 Cases.s_shared "other" =
      Some (VList [VStr "/data/a.nii"; VStr "/data/b.nii"]) /\
    reads 1 s' "infile" =
      Some (VList [VStr "/base/Copier.sim/a.nii";
                   VStr "/base/Copier.sim/b.nii"]) /\
    reads 1 s' "other" =
      Some (VList [VStr "/base/Copier.sim/a.nii";
                   VStr "/base/Copier.sim/b.nii"]) /\
    length copies = 2%nat.
Proof. eexists _, _. split; [vm_compute; reflexivity|]. vm_compute. done. Qed.

End SharedInstances.

Section ValuesAndObjectsInstances.

(** On values the sharing is not seen: the same inputs, taken as trees,
    give the same copies and the same reading of [infile], but [other]
    keeps the names it had. *)
Lemma values_do_not_see_the_shared_list :
  let r := restage_inputs Sim.X "/base/Copier.sim" Cases.w_shared in
  Store.reads 1 Cases.s_shared "infile" =
    bunch_get "infile" (inputs (self Cases.w_shared)) /\
  Store.reads 1 Cases.s_shared "other" =
    bunch_get "other" (inputs (self Cases.w_shared)) /\
  out r = Ok tt /\
  length (log r) = 2%nat /\
  bunch_get "infile" (inputs (self (world r))) =
    Some (VList [VStr "/base/Copier.sim/a.nii";
                 VStr "/base/Copier.sim/b.nii"]) /\
  bunch_get "other" (inputs (self (world r))) =
    Some (VList [VStr "/data/a.nii"; VStr "/data/b.nii"]).
Proof. vm_compute. done. Qed.

End ValuesAndObjectsInstances.

(** ** The further properties on the simulated platform *)

Section FurtherInstances.

Lemma run_makes_temporary_root_once_witness :
  let X := Sim.X in
  let w := Cases.w_temp in
  disk_based (self w) = true /\
  let w' := world (run X w) in
  output_directory_base (self w') = Some (root_of X w) /\
  outdir_of X w' = outdir_of X w /\
  count_events is_mkdtemp (log (run X w)) =
    match output_directory_base (self w) with
    | Some _ => 0%nat
    | None => 1%nat
    end /\
  count_events is_mkdtemp (log (run X w')) = 0%nat.
Proof.
  cbv zeta. split; [reflexivity|].
  exact (run_makes_temporary_root_once Sim.X Cases.w_temp eq_refl).
Defined.

Lemma run_without_disk_only_calls_the_interface_witness :
  let X := Sim.X in
  let w := Sim.w_scalar in
  disk_based (self w) = false /\
  let w' := world (run X w) in
  Forall (fun e => is_execute e = true) (log (run X w)) /\
  output_directory_base (self w') = output_directory_base (self w) /\
  (is_ok (out (run X w)) ->
   length (log (run X w)) = fanout_calls (self w) /\
   inputs (self w') = inputs (self w)).
Proof.
  cbv zeta. split; [reflexivity|].
  exact (run_without_disk_only_calls_the_interface Sim.X Sim.w_scalar eq_refl).
Defined.

Lemma get_output_reads_the_result_of_run_witness :
  let X := Sim.X in
  let w := Sim.w_fan in
  let r := _result (self (world (run X w))) in
  out (run X w) = Ok r /\
  let w' := world (run X w) in
  exists res,
    r = Some res /\
    _result (self w') = Some res /\
    forall p v, bunch_get p (outputs res) = Some v ->
      get_output p w' = {| out := Ok v; world := w'; log := [] |}.
Proof.
  cbv zeta.
  assert (out (run Sim.X Sim.w_fan) =
          Ok (_result (self (world (run Sim.X Sim.w_fan))))) as H
    by (vm_compute; reflexivity).
  split; [exact H|].
  exact (get_output_reads_the_result_of_run Sim.X Sim.w_fan _ H).
Defined.

Lemma fanout_calls_follow_the_sequence_witness :
  let w := Sim.w_fan in
  let field := "x" in
  let v := VList [VStr "a"; VStr "b"] in
  iterfield (self w) = [field] /\
  bunch_get field (inputs (self w)) = Some v /\
  let r := _run_interface false w in
  out r = Ok tt /\
  log r =
    (fun x => EvAggregate (bunch_set field x (inputs (self w)))) <$>
    itervals_of v /\
  inputs (self (world r)) = inputs (self w).
Proof.
  cbv zeta. split; [reflexivity|]. split; [reflexivity|].
  exact (fanout_calls_follow_the_sequence false Sim.w_fan "x"
           (VList [VStr "a"; VStr "b"]) eq_refl eq_refl).
Defined.

Lemma fanout_records_are_parallel_witness :
  let w := Sim.w_fan in
  let field := "x" in
  let v := VList [VStr "a"; VStr "b"] in
  iterfield (self w) = [field] /\
  bunch_get field (inputs (self w)) = Some v /\
  exists res li lr,
    _result (self (world (_run_interface true w))) = Some res /\
    interface res = SList li /\
    runtime res = SList lr /\
    length li = length (itervals_of v) /\
    length lr = length (itervals_of v) /\
    forall i x, true = true -> itervals_of v !! i = Some x ->
      exists d,
        let rr :=
          (i_run (_interface (self w))
             (bunch_set field x (inputs (self w))) d).1 in
        li !! i = Some (r_interface rr) /\ lr !! i = Some (r_runtime rr).
Proof.
  cbv zeta. split; [reflexivity|]. split; [reflexivity|].
  exact (fanout_records_are_parallel true Sim.w_fan "x"
           (VList [VStr "a"; VStr "b"]) eq_refl eq_refl).
Defined.

Lemma scalar_iterfield_gives_singleton_lists_witness :
  let w := Sim.w_scalar in
  let field := "x" in
  let v := VStr "a" in
  iterfield (self w) = [field] /\
  bunch_get field (inputs (self w)) = Some v /\
  is_list v = false /\
  let p := pass true (_interface (self w)) (inputs (self w)) (disk w) in
  let r := _run_interface true w in
  bunch_wf (it_outputs p.1) /\
  out r = Ok tt /\
  log r = [event_of true p.1] /\
  inputs (self (world r)) = inputs (self w) /\
  exists res,
    _result (self (world r)) = Some res /\
    interface res =
      SList match it_run p.1 with Some x => [r_interface x] | None => [] end /\
    runtime res =
      SList match it_run p.1 with Some x => [r_runtime x] | None => [] end /\
    forall k,
      bunch_get k (outputs res) =
      (fun val => VList [val]) <$> bunch_get k (it_outputs p.1).
Proof.
  cbv zeta. split; [reflexivity|]. split; [reflexivity|].
  split; [reflexivity|].
  assert (bunch_wf
            (it_outputs
               (pass true (_interface (self Sim.w_scalar))
                  (inputs (self Sim.w_scalar)) (disk Sim.w_scalar)).1)) as Hwf.
  { vm_compute. apply NoDup_singleton. }
  split; [exact Hwf|].
  exact (scalar_iterfield_gives_singleton_lists true Sim.w_scalar "x"
           (VStr "a") eq_refl eq_refl eq_refl Hwf).
Defined.

Lemma marker_needs_execution_and_return_witness :
  let X := Sim.X in
  let w := Sim.w_fail_single in
  disk_based (self w) = true /\
  exists dec,
    out (decide_run X w) = Ok dec /\
    count_events is_write_marker (log (run X w)) =
      (if d_execute dec
       then match out (run X w) with Ok _ => 1 | Raise _ => 0 end
       else 0)%nat.
Proof.
  cbv zeta. split; [reflexivity|].
  exact (marker_needs_execution_and_return Sim.X Sim.w_fail_single eq_refl).
Defined.

Lemma single_execution_ends_on_its_return_code_witness :
  let X := Sim.X in
  let w := Sim.w_fail_single in
  let dec := Cases.decision_of w in
  length (iterfield (self w)) ≠ 1%nat /\
  out (before_fanout X w) = Ok (Executing dec) /\
  let wb := world (before_fanout X w) in
  let rr := (i_run (_interface (self wb)) (inputs (self wb)) (disk wb)).1 in
  let w' := world (run X w) in
  _result (self w') = Some (of_run rr) /\
  if Z.eqb (returncode (r_runtime rr)) 0 then
    out (run X w) = Ok (Some (of_run rr)) /\
    count_events is_write_marker (log (run X w)) = 1%nat
  else
    out (run X w) =
      Raise (StandardError
               (failure_message X (self w') (stderr (r_runtime rr)))) /\
    count_events is_write_marker (log (run X w)) = 0%nat.
Proof.
  cbv zeta.
  assert (length (iterfield (self Sim.w_fail_single)) ≠ 1%nat) as H1
    by (vm_compute; lia).
  assert (out (before_fanout Sim.X Sim.w_fail_single) =
          Ok (Executing (Cases.decision_of Sim.w_fail_single))) as H2
    by (vm_compute; reflexivity).
  split; [exact H1|]. split; [exact H2|].
  exact (single_execution_ends_on_its_return_code Sim.X Sim.w_fail_single
           _ H1 H2).
Defined.

Lemma default_name_is_class_then_module_witness :
  let i := Sim.echo in
  let n := Sim.node_of Sim.echo ["x"] false None false in
  let p := "nipype.interfaces" in
  let q := "sim" in
  __init__ (Some i) [] ["x"] false None false None = Ok n /\
  no_dot q = true /\
  (i_class_module i = (p ++ "." ++ q)%string \/ i_class_module i = q) /\
  name n = (i_class_name i ++ "." ++ q)%string.
Proof.
  cbv zeta. split; [reflexivity|]. split; [reflexivity|].
  split; [left; reflexivity|].
  exact (default_name_is_class_then_module Sim.echo [] ["x"] false None false
           (Sim.node_of Sim.echo ["x"] false None false)
           "nipype.interfaces" "sim" eq_refl eq_refl (or_introl eq_refl)).
Defined.

Lemma staging_copies_each_set_file_input_once_witness :
  let X := Sim.X in
  let w := Sim.w_stage in
  let outdir := "/base/Copier.sim" in
  let infos := i_get_input_info (_interface (self w)) in
  let ins := inputs (self w) in
  let r := stage_inputs X outdir w in
  NoDup (key <$> infos) /\
  Forall (fun info => is_Some (bunch_get (key info) ins)) infos /\
  out r = Ok tt /\
  log r = omap (copy_event_of X outdir ins) infos /\
  (forall k, k ∉ (key <$> infos) ->
     bunch_get k (inputs (self (world r))) = bunch_get k ins) /\
  (forall info, info ∈ infos -> bunch_get (key info) ins = Some VNone ->
     bunch_get (key info) (inputs (self (world r))) = Some VNone) /\
  (forall info files, info ∈ infos ->
     bunch_get (key info) ins = Some files -> files ≠ VNone ->
     exists d,
       bunch_get (key info) (inputs (self (world r))) =
       Some (list_to_filename X
               (copyfiles X (filename_to_list X files) (VList [VStr outdir])
                  (copy info) d).1)).
Proof.
  cbv zeta.
  assert (NoDup (key <$> i_get_input_info (_interface (self Sim.w_stage))))
    as H1 by (vm_compute; apply NoDup_singleton).
  assert (Forall (fun info =>
                    is_Some (bunch_get (key info) (inputs (self Sim.w_stage))))
            (i_get_input_info (_interface (self Sim.w_stage)))) as H2
    by (repeat constructor; vm_compute; eauto).
  split; [exact H1|]. split; [exact H2|].
  exact (staging_copies_each_set_file_input_once Sim.X "/base/Copier.sim"
           Sim.w_stage H1 H2).
Defined.

Lemma run_binds_cwd_to_the_output_directory_witness :
  let X := Sim.X in
  let w := Sim.w_stage in
  disk_based (self w) = true /\
  ("cwd" ∉ (key <$> i_get_input_info (_interface (self w)))) /\
  let outdir := VStr (outdir_of X w) in
  bunch_get "cwd" (inputs (self (world (run X w)))) = Some outdir /\
  Forall (sees "cwd" outdir) (log (run X w)).
Proof.
  cbv zeta.
  assert ("cwd" ∉ (key <$> i_get_input_info (_interface (self Sim.w_stage))))
    as H2.
  { vm_compute. intros H. apply list_elem_of_singleton in H. discriminate. }
  split; [reflexivity|]. split; [exact H2|].
  exact (run_binds_cwd_to_the_output_directory Sim.X Sim.w_stage eq_refl H2).
Defined.

Lemma second_run_only_aggregates_witness :
  let X := Sim.X in
  let w := Sim.w_fan in
  disk_based (self w) = true /\
  overwrite_set (self w) = false /\
  nothing_to_stage (self w) /\
  let w' := world (run X w) in
  let outdir := outdir_of X w in
  let inputstr :=
    str_bunch (repr X)
      (bunch_set "cwd" (VStr outdir) (inputs (self w))) in
  let hashfile :=
    os_path_join X outdir (marker_name (md5_hexdigest X inputstr)) in
  os_path_exists X outdir (disk w') = true /\
  os_path_exists X hashfile (disk w') = true /\
  out (hash_inputs X w') = Ok (md5_hexdigest X inputstr) /\
  Forall (fun e => is_aggregate e = true) (log (run X w')) /\
  length (log (run X w')) = fanout_calls (self w') /\
  inputs (self (world (run X w'))) = inputs (self w').
Proof.
  cbv zeta.
  assert (nothing_to_stage (self Sim.w_fan)) as H3 by constructor.
  assert (os_path_exists Sim.X (outdir_of Sim.X Sim.w_fan)
            (disk (world (run Sim.X Sim.w_fan))) = true) as H4
    by (vm_compute; reflexivity).
  assert (os_path_exists Sim.X
            (os_path_join Sim.X (outdir_of Sim.X Sim.w_fan)
               (marker_name
                  (md5_hexdigest Sim.X
                     (str_bunch (repr Sim.X)
                        (bunch_set "cwd" (VStr (outdir_of Sim.X Sim.w_fan))
                           (inputs (self Sim.w_fan)))))))
            (disk (world (run Sim.X Sim.w_fan))) = true) as H5
    by (vm_compute; reflexivity).
  split; [reflexivity|]. split; [reflexivity|]. split; [exact H3|].
  split; [exact H4|]. split; [exact H5|].
  exact (second_run_only_aggregates Sim.X Sim.w_fan eq_refl eq_refl H3 H4 H5).
Defined.

Lemma unbound_iterfield_fails_before_any_call_witness :
  let X := Sim.X in
  let w := Cases.w_unbound in
  let field := "y" in
  disk_based (self w) = false /\
  iterfield (self w) = [field] /\
  bunch_get field (inputs (self w)) = None /\
  ~ is_ok (out (run X w)) /\ world (run X w) = w /\ log (run X w) = [].
Proof.
  cbv zeta. split; [reflexivity|]. split; [reflexivity|].
  split; [reflexivity|].
  exact (unbound_iterfield_fails_before_any_call Sim.X Cases.w_unbound "y"
           eq_refl eq_refl eq_refl).
Defined.

Lemma empty_fanout_succeeds_without_a_call_witness :
  let w := Sim.w_empty in
  let field := "x" in
  iterfield (self w) = [field] /\
  bunch_get field (inputs (self w)) = Some (VList []) /\
  let r := _run_interface true w in
  out r = Ok tt /\
  log r = [] /\
  inputs (self (world r)) = inputs (self w) /\
  exists res,
    _result (self (world r)) = Some res /\
    interface res = SList [] /\ runtime res = SList [] /\
    outputs res = [] /\
    result_returncode res = Some 0.
Proof.
  cbv zeta. split; [reflexivity|]. split; [reflexivity|].
  exact (empty_fanout_succeeds_without_a_call true Sim.w_empty "x"
           eq_refl eq_refl).
Defined.

Lemma cache_hit_result_has_no_runtime_witness :
  let X := Sim.X in
  let w := Cases.w_cached in
  let dec := Cases.decision_of w in
  length (iterfield (self w)) ≠ 1%nat /\
  out (before_fanout X w) = Ok (Skipping dec) /\
  let wb := world (before_fanout X w) in
  let res :=
    {| interface := SNone; runtime := SNone;
       outputs :=
         i_aggregate_outputs (_interface (self wb)) (inputs (self wb))
           (disk wb) |} in
  out (run X w) = Ok (Some res) /\
  result_returncode res = None /\
  log (run X w) = log (before_fanout X w) ++ [EvAggregate (inputs (self wb))].
Proof.
  cbv zeta.
  assert (length (iterfield (self Cases.w_cached)) ≠ 1%nat) as H1
    by (vm_compute; lia).
  assert (out (before_fanout Sim.X Cases.w_cached) =
          Ok (Skipping (Cases.decision_of Cases.w_cached))) as H2
    by (vm_compute; reflexivity).
  split; [exact H1|]. split; [exact H2|].
  exact (cache_hit_result_has_no_runtime Sim.X Cases.w_cached _ H1 H2).
Defined.

End FurtherInstances.
